(** * Test-execution orchestrator: drivers, retry engine, locator store,
      router, SQL fallback and version manager

    A shallow embedding of the Python sources and the properties the
    specification states about them.  Each section names the source file and
    the lines it embeds.

    Conventions.
    - Python [str] values are modelled by [string]; the text helpers below
      follow the ASCII behaviour of the corresponding [str] methods, and
      code points above 127 are left untouched by them.
    - A Python [dict] built from JSON data is an association list in
      insertion order; its keys are strings and are assumed unique.
    - Exceptions are explicit results; mutable objects (SQLite tables,
      counters, the clock) are threaded as state. *)

From Stdlib Require Import List String Ascii ZArith Arith Bool Lia.
From Stdlib Require Import DecimalString QArith Sorted Permutation.
Set Warnings "-register-all".
Import ListNotations.
Close Scope Q_scope.
Open Scope string_scope.

(* ------------------------------------------------------------------ *)
(** ** Python text primitives *)

Module Py.

Definition code (c : ascii) : nat := nat_of_ascii c.

Definition is_upper (c : ascii) : bool := ((65 <=? code c) && (code c <=? 90))%nat.
Definition is_lower (c : ascii) : bool := ((97 <=? code c) && (code c <=? 122))%nat.
Definition is_alpha (c : ascii) : bool := is_upper c || is_lower c.

(** [str.isspace] on ASCII: TAB, LF, VT, FF, CR, FS, GS, RS, US, SPACE. *)
Definition is_space (c : ascii) : bool :=
  ((9 <=? code c) && (code c <=? 13))%nat
  || ((28 <=? code c) && (code c <=? 32))%nat.

Definition lower_char (c : ascii) : ascii :=
  if is_upper c then ascii_of_nat (code c + 32) else c.
Definition upper_char (c : ascii) : ascii :=
  if is_lower c then ascii_of_nat (code c - 32) else c.

(** [s.lower()] *)
Fixpoint lower (s : string) : string :=
  match s with
  | EmptyString => EmptyString
  | String c r => String (lower_char c) (lower r)
  end.

(** [s.lstrip()], [s.rstrip()], [s.strip()] *)
Fixpoint lstrip (s : string) : string :=
  match s with
  | EmptyString => EmptyString
  | String c r => if is_space c then lstrip r else s
  end.

Fixpoint rstrip (s : string) : string :=
  match s with
  | EmptyString => EmptyString
  | String c r =>
      match rstrip r with
      | EmptyString => if is_space c then EmptyString else String c EmptyString
      | r' => String c r'
      end
  end.

Definition strip (s : string) : string := rstrip (lstrip s).

(** [s.title()]: a cased character that follows an uncased one is
    upper-cased, every other cased character is lower-cased. *)
Fixpoint title_from (prev_cased : bool) (s : string) : string :=
  match s with
  | EmptyString => EmptyString
  | String c r =>
      String (if prev_cased then lower_char c else upper_char c)
             (title_from (is_alpha c) r)
  end.

Definition title (s : string) : string := title_from false s.

(** [needle in hay] for strings. *)
Fixpoint contains (needle hay : string) : bool :=
  prefix needle hay
  || match hay with
     | EmptyString => false
     | String _ r => contains needle r
     end.

(** [sep.join(parts)] *)
Definition join (sep : string) (parts : list string) : string :=
  String.concat sep parts.

(** The one-character string holding a line feed. *)
Definition newline : string := String (ascii_of_nat 10) EmptyString.

(** [str(n)] for an [int]. *)
Definition str_int (z : Z) : string := NilZero.string_of_int (Z.to_int z).

(** Truthiness of a [str] and of an optional [str] ([None] is falsy). *)
Definition truthy_str (s : string) : bool := negb (s =? "").
Definition truthy_opt (o : option string) : bool :=
  match o with
  | Some s => truthy_str s
  | None => false
  end.

(** Lookup in an insertion-ordered dict: [d.get(k)]. *)
Fixpoint dict_get {V : Type} (k : string) (d : list (string * V)) : option V :=
  match d with
  | [] => None
  | (k', v) :: r => if k' =? k then Some v else dict_get k r
  end.

(** [k in d] *)
Definition dict_has {V : Type} (k : string) (d : list (string * V)) : bool :=
  match dict_get k d with
  | Some _ => true
  | None => false
  end.

End Py.


(* ------------------------------------------------------------------ *)
(** ** JSON-shaped Python values

    Steps, test cases and locators are Python dicts read from JSON or YAML.
    The value type has no floats: no claim reads one. *)

Module Json.

Inductive json : Type :=
| JNull
| JBool (b : bool)
| JInt (z : Z)
| JStr (s : string)
| JList (xs : list json)
| JDict (kvs : list (string * json)).

Definition dict : Type := list (string * json).

Definition hex_digit (n : nat) : ascii :=
  if (n <? 10)%nat then ascii_of_nat (48 + n) else ascii_of_nat (87 + n).

Definition hex2 (n : nat) : string :=
  String (hex_digit (n / 16)) (String (hex_digit (n mod 16)) EmptyString).

Definition char_str (c : ascii) : string := String c EmptyString.

(** The double-quote character and a double-quoted string. *)
Definition dquote : ascii := ascii_of_nat 34.
Definition quoted (s : string) : string :=
  String dquote (s ++ char_str dquote).

(** The body of a JSON string literal, as [json.encoder] escapes it.
    [ensure_ascii] also escapes DEL and everything above it. *)
Definition escape_char (ensure_ascii : bool) (c : ascii) : string :=
  let n := Py.code c in
  if (n =? 34)%nat then String "\" (char_str dquote)
  else if (n =? 92)%nat then "\\"
  else if (n =? 10)%nat then "\n"
  else if (n =? 13)%nat then "\r"
  else if (n =? 9)%nat then "\t"
  else if (n =? 8)%nat then "\b"
  else if (n =? 12)%nat then "\f"
  else if (n <? 32)%nat then "\u00" ++ hex2 n
  else if ensure_ascii && (126 <? n)%nat then "\u00" ++ hex2 n
  else char_str c.

Fixpoint escape (ensure_ascii : bool) (s : string) : string :=
  match s with
  | EmptyString => EmptyString
  | String c r => escape_char ensure_ascii c ++ escape ensure_ascii r
  end.

Definition encode_str (ensure_ascii : bool) (s : string) : string :=
  quoted (escape ensure_ascii s).

(** Stable insertion sort of rendered items by key ([sort_keys=True]). *)
Fixpoint insert_item {V : Type} (kv : string * V) (l : list (string * V))
  : list (string * V) :=
  match l with
  | [] => [kv]
  | kv' :: r =>
      if String.ltb (fst kv) (fst kv') then kv :: l else kv' :: insert_item kv r
  end.

Definition sort_items {V : Type} (l : list (string * V)) : list (string * V) :=
  fold_left (fun acc kv => insert_item kv acc) l [].

(** [json.dumps(v, ensure_ascii=..., sort_keys=...)] with the default
    separators [", "] and [": "]. *)
Fixpoint dumps (ensure_ascii sort_keys : bool) (v : json) : string :=
  match v with
  | JNull => "null"
  | JBool true => "true"
  | JBool false => "false"
  | JInt z => Py.str_int z
  | JStr s => encode_str ensure_ascii s
  | JList xs =>
      "[" ++ Py.join ", " (map (dumps ensure_ascii sort_keys) xs) ++ "]"
  | JDict kvs =>
      let rendered :=
        map (fun kv => match kv with
                       | (k, x) => (k, dumps ensure_ascii sort_keys x)
                       end) kvs in
      let ordered := if sort_keys then sort_items rendered else rendered in
      "{" ++ Py.join ", "
               (map (fun kr => encode_str ensure_ascii (fst kr) ++ ": " ++ snd kr)
                    ordered)
          ++ "}"
  end.

(** [repr(s)] for a [str]. *)
Definition repr_char (quote : ascii) (c : ascii) : string :=
  let n := Py.code c in
  if (n =? 92)%nat then "\\"
  else if Ascii.eqb c quote then String "\" (char_str c)
  else if (n =? 10)%nat then "\n"
  else if (n =? 13)%nat then "\r"
  else if (n =? 9)%nat then "\t"
  else if (n <? 32)%nat || (n =? 127)%nat then "\x" ++ hex2 n
  else char_str c.

Fixpoint repr_body (quote : ascii) (s : string) : string :=
  match s with
  | EmptyString => EmptyString
  | String c r => repr_char quote c ++ repr_body quote r
  end.

Definition repr_str (s : string) : string :=
  let quote :=
    if Py.contains "'" s && negb (Py.contains (char_str dquote) s)
    then dquote else "'"%char in
  char_str quote ++ repr_body quote s ++ char_str quote.

(** [repr(v)] *)
Fixpoint repr (v : json) : string :=
  match v with
  | JNull => "None"
  | JBool true => "True"
  | JBool false => "False"
  | JInt z => Py.str_int z
  | JStr s => repr_str s
  | JList xs => "[" ++ Py.join ", " (map repr xs) ++ "]"
  | JDict kvs =>
      "{" ++ Py.join ", "
               (map (fun kv => match kv with
                               | (k, x) => repr_str k ++ ": " ++ repr x
                               end) kvs)
          ++ "}"
  end.

(** [str(v)], which is what an f-string field renders. *)
Definition str (v : json) : string :=
  match v with
  | JStr s => s
  | _ => repr v
  end.

(** [isinstance(v, int)]: [bool] is a subclass of [int]. *)
Definition as_int (v : json) : option Z :=
  match v with
  | JInt z => Some z
  | JBool true => Some 1%Z
  | JBool false => Some 0%Z
  | _ => None
  end.

(** [bool(v)] *)
Definition truthy (v : json) : bool :=
  match v with
  | JNull => false
  | JBool b => b
  | JInt z => negb (z =? 0)%Z
  | JStr s => Py.truthy_str s
  | JList xs => match xs with [] => false | _ => true end
  | JDict kvs => match kvs with [] => false | _ => true end
  end.

(** [d.get(k)], with [JNull] for [None]. *)
Definition get (k : string) (d : dict) : json :=
  match Py.dict_get k d with
  | Some v => v
  | None => JNull
  end.

(** [a or b] *)
Definition py_or (a b : json) : json := if truthy a then a else b.

End Json.


(* ------------------------------------------------------------------ *)
(** ** Run recorder: [utils/db_utils.py], class [Database]

    Tables are lists of rows in insertion order.  An AUTOINCREMENT key is
    one more than the largest key handed out so far, which SQLite keeps in
    [sqlite_sequence]; the [seq_*] fields play that role.  The timestamp
    columns hold the clock reading that [_iso] renders. *)

Module Recorder.
Import Json.

Definition step : Type := dict.

(** The keys of a case dict that the drivers and [add_test_case] read. *)
Record TestCase : Type := {
  case_id : option nat;
  user_story : string;
  test_set : string;
  created_by : string;
  source : string;
  steps : list step
}.

Record RunRow : Type := {
  run_id : nat;
  run_test_case_id : nat;
  run_status : string;
  run_started_at : Z;
  run_ended_at : Z;
  run_error_message : option string
}.

Record RunStepRow : Type := {
  rs_id : nat;
  rs_test_run_id : nat;
  rs_step_index : nat;
  rs_status : string;
  rs_message : option string;
  rs_started_at : Z;
  rs_ended_at : Z
}.

(** A [test_cases] row and its [test_steps] rows are kept as the case they
    were built from. *)
Record Database : Type := {
  test_cases : list (nat * TestCase);
  test_runs : list RunRow;
  run_steps : list RunStepRow;
  seq_test_cases : nat;
  seq_test_runs : nat;
  seq_run_steps : nat
}.

Definition empty_db : Database :=
  {| test_cases := []; test_runs := []; run_steps := [];
     seq_test_cases := 0; seq_test_runs := 0; seq_run_steps := 0 |}.

(** [Database.add_test_case], lines 131-178. *)
Definition add_test_case (db : Database) (case : TestCase) : nat * Database :=
  let test_case_id := S (seq_test_cases db) in
  (test_case_id,
   {| test_cases := test_cases db ++ [(test_case_id, case)];
      test_runs := test_runs db;
      run_steps := run_steps db;
      seq_test_cases := test_case_id;
      seq_test_runs := seq_test_runs db;
      seq_run_steps := seq_run_steps db |}).

(** [Database.add_test_run], lines 204-219. *)
Definition add_test_run (db : Database) (test_case_id : nat) (status : string)
    (started_at ended_at : Z) (error_message : option string) : nat * Database :=
  let new_id := S (seq_test_runs db) in
  (new_id,
   {| test_cases := test_cases db;
      test_runs := test_runs db ++
        [{| run_id := new_id; run_test_case_id := test_case_id;
            run_status := status; run_started_at := started_at;
            run_ended_at := ended_at; run_error_message := error_message |}];
      run_steps := run_steps db;
      seq_test_cases := seq_test_cases db;
      seq_test_runs := new_id;
      seq_run_steps := seq_run_steps db |}).

(** [Database.add_run_step], lines 221-231. *)
Definition add_run_step (db : Database) (test_run_id step_index : nat)
    (status : string) (message : option string) (started_at ended_at : Z)
  : Database :=
  let new_id := S (seq_run_steps db) in
  {| test_cases := test_cases db;
     test_runs := test_runs db;
     run_steps := run_steps db ++
       [{| rs_id := new_id; rs_test_run_id := test_run_id;
           rs_step_index := step_index; rs_status := status;
           rs_message := message; rs_started_at := started_at;
           rs_ended_at := ended_at |}];
     seq_test_cases := seq_test_cases db;
     seq_test_runs := seq_test_runs db;
     seq_run_steps := new_id |}.

(** [Database.get_run_steps], lines 260-279. *)
Definition get_run_steps (db : Database) (test_run_id : nat) : list RunStepRow :=
  filter (fun r => (rs_test_run_id r =? test_run_id)%nat) (run_steps db).

(** The [UPDATE test_runs SET status = ?, ended_at = ?, error_message = ?
    WHERE id = ?] statement that ends every driver's [run_test_case]. *)
Definition update_test_run (db : Database) (id : nat) (status : string)
    (ended_at : Z) (error_message : option string) : Database :=
  {| test_cases := test_cases db;
     test_runs :=
       map (fun r =>
              if (run_id r =? id)%nat
              then {| run_id := run_id r;
                      run_test_case_id := run_test_case_id r;
                      run_status := status;
                      run_started_at := run_started_at r;
                      run_ended_at := ended_at;
                      run_error_message := error_message |}
              else r)
           (test_runs db);
     run_steps := run_steps db;
     seq_test_cases := seq_test_cases db;
     seq_test_runs := seq_test_runs db;
     seq_run_steps := seq_run_steps db |}.

(** The status column of the run with key [id], if that row exists. *)
Definition status_of_run (db : Database) (id : nat) : option string :=
  option_map run_status (find (fun r => (run_id r =? id)%nat) (test_runs db)).

(** How many step rows of run [id] carry [status]. *)
Definition count_steps (db : Database) (id : nat) (status : string) : nat :=
  List.length (filter (fun r => rs_status r =? status) (get_run_steps db id)).

(** No step row refers to a run key that AUTOINCREMENT has not handed out
    yet; the foreign key of [run_steps] keeps it so. *)
Definition keys_in_use (db : Database) : Prop :=
  Forall (fun r => rs_test_run_id r <= seq_test_runs db) (run_steps db).

(** No run row carries a key that AUTOINCREMENT has not handed out yet. *)
Definition run_keys_in_use (db : Database) : Prop :=
  Forall (fun r => run_id r <= seq_test_runs db) (test_runs db).

End Recorder.


(* ------------------------------------------------------------------ *)
(** ** Backend drivers: [web/web_driver.py], [api/api_driver.py],
       [mobile/mobile_driver.py]

    The three [run_test_case] methods share one loop, written here once over
    the driver's own [_execute_step]; what differs per driver is the session
    handling around the loop and the text of the status derivation, kept
    per driver in the modules below. *)

Module Drivers.
Import Json Recorder.

(** How a call of [_execute_step] ends: it returns, raises [ValueError], or
    raises another [Exception]; the text is [str(exc)]. *)
Inductive exec_outcome : Type :=
| Returned
| RaisedValueError (msg : string)
| RaisedException (msg : string).

Section RunTestCase.

Variable session : Type.
Variable _execute_step : step -> session -> exec_outcome * session.
(** [time_time k] is what the k-th call of [time.time()] returns. *)
Variable time_time : nat -> Z.
(** [_ensure_page] / [_ensure_driver] and [close] / [quit]. *)
Variable prepare : session -> session.
Variable release : session -> session.
(** The driver's derivation of the run status from its three counters. *)
Variable derive : nat -> nat -> nat -> string.

(** The objects a run mutates.  [invoked] is a ghost log of the step indices
    for which [_execute_step] was called. *)
Record world : Type := {
  db : Database;
  sess : session;
  reads : nat;
  invoked : list nat
}.

Record counters : Type := {
  passed_steps : nat;
  failed_steps : nat;
  skipped_steps : nat;
  error_message : option string
}.

(** The inner [for r in prev_results] scan of the dependency check. *)
Definition dependency_unmet (d : Database) (run : nat) (dep : Z) : bool :=
  let prev_results := if (run =? 0)%nat then [] else get_run_steps d run in
  existsb (fun r => (Z.of_nat (rs_step_index r) =? dep)%Z
                    && ((rs_status r =? "failed") || (rs_status r =? "skipped")))
          prev_results.

(** The [depends_on] block: [Some msg] when it raises [ValueError(msg)]. *)
Definition check_depends_on (d : Database) (run : nat) (st : step) : option string :=
  match Py.dict_get "depends_on" st with
  | Some dep =>
      match as_int dep with
      | Some n =>
          if dependency_unmet d run n
          then Some ("Step depends_on " ++ Json.str dep ++ " which did not pass")
          else None
      | None => None
      end
  | None => None
  end.

(** The [try] block of one iteration. *)
Definition try_step (run idx : nat) (st : step) (w : world) : exec_outcome * world :=
  match check_depends_on (db w) run st with
  | Some msg => (RaisedValueError msg, w)
  | None =>
      let (out, sess') := _execute_step st (sess w) in
      (out, {| db := db w; sess := sess'; reads := reads w;
               invoked := invoked w ++ [idx] |})
  end.

(** One iteration of [for idx, step in enumerate(steps)]. *)
Definition run_step (run idx : nat) (st : step) (cw : counters * world)
  : counters * world :=
  let (c, w) := cw in
  let step_start := time_time (reads w) in
  let (out, w1) := try_step run idx st w in
  let step_end := time_time (S (reads w)) in
  let record status message c' :=
    (c', {| db := add_run_step (db w1) run idx status message step_start step_end;
            sess := sess w1; reads := S (S (reads w)); invoked := invoked w1 |}) in
  match out with
  | RaisedValueError msg =>
      record "skipped" (Some msg)
        {| passed_steps := passed_steps c; failed_steps := failed_steps c;
           skipped_steps := S (skipped_steps c); error_message := error_message c |}
  | RaisedException msg =>
      record "failed" (Some msg)
        {| passed_steps := passed_steps c; failed_steps := S (failed_steps c);
           skipped_steps := skipped_steps c; error_message := Some msg |}
  | Returned =>
      record "passed" None
        {| passed_steps := S (passed_steps c); failed_steps := failed_steps c;
           skipped_steps := skipped_steps c; error_message := error_message c |}
  end.

Fixpoint run_steps_from (run idx : nat) (l : list step) (cw : counters * world)
  : counters * world :=
  match l with
  | [] => cw
  | st :: rest => run_steps_from run (S idx) rest (run_step run idx st cw)
  end.

Definition run_test_case (case : TestCase) (w0 : world) : nat * world :=
  let w := {| db := db w0; sess := prepare (sess w0); reads := reads w0;
              invoked := invoked w0 |} in
  let (test_case_id, d1) :=
    match case_id case with
    | Some (S n) => (S n, db w)
    | _ => add_test_case (db w) case
    end in
  let start_time := time_time (reads w) in
  let (run, d2) := add_test_run d1 test_case_id "running" start_time start_time None in
  let zero := {| passed_steps := 0; failed_steps := 0; skipped_steps := 0;
                 error_message := None |} in
  let (c, w3) :=
    run_steps_from run 0 (steps case)
      (zero, {| db := d2; sess := sess w; reads := S (reads w); invoked := invoked w |}) in
  let end_time := time_time (reads w3) in
  let overall_status := derive (passed_steps c) (failed_steps c) (skipped_steps c) in
  (run,
   {| db := update_test_run (db w3) run overall_status end_time (error_message c);
      sess := release (sess w3); reads := S (reads w3); invoked := invoked w3 |}).

End RunTestCase.

(** The status a step outcome is recorded under. *)
Definition status_of (o : exec_outcome) : string :=
  match o with
  | Returned => "passed"
  | RaisedValueError _ => "skipped"
  | RaisedException _ => "failed"
  end.

(** The message a step outcome is recorded with. *)
Definition message_of (o : exec_outcome) : option string :=
  match o with
  | Returned => None
  | RaisedValueError msg => Some msg
  | RaisedException msg => Some msg
  end.

(** The message of the last row recorded as failed, if there is one. *)
Definition last_failure (l : list RunStepRow) : option string :=
  fold_left (fun acc r => if rs_status r =? "failed" then rs_message r else acc)
            l None.

(** The [error_message] column of the run with key [id]. *)
Definition error_of_run (d : Database) (id : nat) : option (option string) :=
  option_map run_error_message (find (fun r => (run_id r =? id)%nat) (test_runs d)).

(** The [test_case_id] column of the run with key [id]. *)
Definition case_of_run (d : Database) (id : nat) : option nat :=
  option_map run_test_case_id (find (fun r => (run_id r =? id)%nat) (test_runs d)).

(** The counters agree with the rows recorded for the run. *)
Definition counted (run : nat) (c : counters) (d : Database) : Prop :=
  count_steps d run "passed" = passed_steps c
  /\ count_steps d run "failed" = failed_steps c
  /\ count_steps d run "skipped" = skipped_steps c.

Arguments db {session} _.
Arguments sess {session} _.
Arguments reads {session} _.
Arguments invoked {session} _.

End Drivers.

(** [WebDriver.run_test_case], lines 135-223; the status derivation is
    lines 202-210. *)
Module WebDriver.

Definition overall_status (passed_steps failed_steps skipped_steps : nat) : string :=
  let executed := passed_steps + failed_steps in
  if (executed =? 0)%nat && (0 <? skipped_steps)%nat then "skipped"
  else if (failed_steps =? 0)%nat && (skipped_steps =? 0)%nat then "passed"
  else if (failed_steps =? executed)%nat then "failed"
  else "partial".

Definition run_test_case {session : Type}
    (_execute_step : Recorder.step -> session -> Drivers.exec_outcome * session)
    (time_time : nat -> Z) (_ensure_page close : session -> session) :=
  Drivers.run_test_case session _execute_step time_time _ensure_page close
    overall_status.

End WebDriver.

(** [APIDriver.run_test_case], lines 38-107; the status derivation is
    lines 88-96.  The API driver holds no session to open or close. *)
Module APIDriver.

Definition overall_status (passed_steps failed_steps skipped_steps : nat) : string :=
  let executed := passed_steps + failed_steps in
  if (executed =? 0)%nat && (0 <? skipped_steps)%nat then "skipped"
  else if (failed_steps =? 0)%nat && (skipped_steps =? 0)%nat then "passed"
  else if (failed_steps =? executed)%nat then "failed"
  else "partial".

Definition run_test_case {session : Type}
    (_execute_step : Recorder.step -> session -> Drivers.exec_outcome * session)
    (time_time : nat -> Z) :=
  Drivers.run_test_case session _execute_step time_time (fun s => s) (fun s => s)
    overall_status.

End APIDriver.

(** [MobileDriver.run_test_case], lines 93-167; the status derivation is
    lines 146-154. *)
Module MobileDriver.

Definition overall_status (passed_steps failed_steps skipped_steps : nat) : string :=
  let executed := passed_steps + failed_steps in
  if (executed =? 0)%nat && (0 <? skipped_steps)%nat then "skipped"
  else if (failed_steps =? 0)%nat && (skipped_steps =? 0)%nat then "passed"
  else if (failed_steps =? executed)%nat then "failed"
  else "partial".

Definition run_test_case {session : Type}
    (_execute_step : Recorder.step -> session -> Drivers.exec_outcome * session)
    (time_time : nat -> Z) (_ensure_driver quit : session -> session) :=
  Drivers.run_test_case session _execute_step time_time _ensure_driver quit
    overall_status.

End MobileDriver.



(* ------------------------------------------------------------------ *)
(** ** Execution engine: [mcp/mcp_base.py], [MCPBase.run], lines 30-70

    [_execute_step] and [_self_heal] belong to the subclass and act on its
    session.  The [while True] loop is given fuel; [OutOfFuel] is the loop
    still running when the fuel is spent. *)

Module MCPBase.
Import Json.

Definition step : Type := dict.

(** [_self_heal] returns a truthy value, returns a falsy one, or raises. *)
Inductive heal_result : Type :=
| Healed
| NotHealed
| HealRaised (msg : string).

Inductive run_result : Type :=
| Completed
| Reraised (exc : string)
| OutOfFuel.

(** One entry per [reporter.attach_text] call. *)
Record attachment : Type := {
  att_text : string;
  att_name : string
}.

Section Run.

Variable session : Type.
(** [None] when the call returns, [Some exc] when it raises [exc]. *)
Variable _execute_step : step -> session -> option string * session.
Variable _self_heal : step -> string -> session -> heal_result * session.
Variable max_retries : Z.

(** [executions] and [sleeps] count the calls of [_execute_step] and of
    [time.sleep]; [attempt] is the local counter of the step in progress. *)
Record world : Type := {
  sess : session;
  attempt : Z;
  executions : nat;
  sleeps : nat;
  attached : list attachment
}.

(** The [while True] loop for the step with index [idx]. *)
Fixpoint retry_loop (fuel : nat) (idx : nat) (st : step) (w : world)
  : run_result * world :=
  match fuel with
  | O => (OutOfFuel, w)
  | S fuel' =>
      let (r, s1) := _execute_step st (sess w) in
      match r with
      | None =>
          (Completed,
           {| sess := s1; attempt := attempt w; executions := S (executions w);
              sleeps := sleeps w; attached := attached w |})
      | Some exc =>
          let attempt' := (attempt w + 1)%Z in
          let num := Py.str_int (Z.of_nat idx + 1) in
          let att :=
            {| att_text := "Step " ++ num ++ " failure on attempt "
                             ++ Py.str_int attempt' ++ ": " ++ exc;
               att_name := "error_step_" ++ num ++ "_attempt_"
                             ++ Py.str_int attempt' |} in
          let (h, s2) := _self_heal st exc s1 in
          let w2 := {| sess := s2; attempt := attempt';
                       executions := S (executions w); sleeps := sleeps w;
                       attached := attached w ++ [att] |} in
          match h with
          | Healed => retry_loop fuel' idx st w2
          | _ =>
              if (max_retries <=? attempt')%Z then (Reraised exc, w2)
              else retry_loop fuel' idx st
                     {| sess := sess w2; attempt := attempt w2;
                        executions := executions w2; sleeps := S (sleeps w2);
                        attached := attached w2 |}
          end
      end
  end.

(** [for idx, step in enumerate(steps)], each step starting at [attempt = 0]. *)
Fixpoint run_from (fuel : nat) (idx : nat) (steps : list step) (w : world)
  : run_result * world :=
  match steps with
  | [] => (Completed, w)
  | st :: rest =>
      let w0 := {| sess := sess w; attempt := 0; executions := executions w;
                   sleeps := sleeps w; attached := attached w |} in
      match retry_loop fuel idx st w0 with
      | (Completed, w1) => run_from fuel (S idx) rest w1
      | other => other
      end
  end.

Definition run (fuel : nat) (steps : list step) (s : session) : run_result * world :=
  run_from fuel 0 steps
    {| sess := s; attempt := 0; executions := 0; sleeps := 0; attached := [] |}.

(** The loop as the docstring of [_self_heal] and section 4.1 of the
    specification word it: a failure that is healed does not count. *)
Fixpoint documented_retry_loop (fuel : nat) (idx : nat) (st : step) (w : world)
  : run_result * world :=
  match fuel with
  | O => (OutOfFuel, w)
  | S fuel' =>
      let (r, s1) := _execute_step st (sess w) in
      match r with
      | None =>
          (Completed,
           {| sess := s1; attempt := attempt w; executions := S (executions w);
              sleeps := sleeps w; attached := attached w |})
      | Some exc =>
          let (h, s2) := _self_heal st exc s1 in
          match h with
          | Healed =>
              documented_retry_loop fuel' idx st
                {| sess := s2; attempt := attempt w; executions := S (executions w);
                   sleeps := sleeps w; attached := attached w |}
          | _ =>
              let attempt' := (attempt w + 1)%Z in
              let w2 := {| sess := s2; attempt := attempt';
                           executions := S (executions w); sleeps := sleeps w;
                           attached := attached w |} in
              if (max_retries <=? attempt')%Z then (Reraised exc, w2)
              else documented_retry_loop fuel' idx st
                     {| sess := sess w2; attempt := attempt w2;
                        executions := executions w2; sleeps := S (sleeps w2);
                        attached := attached w2 |}
          end
      end
  end.

End Run.

Arguments sess {session} _.
Arguments attempt {session} _.
Arguments executions {session} _.
Arguments sleeps {session} _.
Arguments attached {session} _.

(** A scripted backend: the session is the list of what the coming calls of
    [_execute_step] do, each failure paired with what [_self_heal] then
    answers.  Past the end of the script every call succeeds. *)
Inductive scripted : Type :=
| Succeeds
| Fails (exc : string) (heal : heal_result).

Definition script_execute (_ : step) (s : list scripted) : option string * list scripted :=
  match s with
  | [] => (None, [])
  | Succeeds :: r => (None, r)
  | Fails exc _ :: _ => (Some exc, s)
  end.

Definition script_heal (_ : step) (_ : string) (s : list scripted)
  : heal_result * list scripted :=
  match s with
  | Fails _ h :: r => (h, r)
  | _ => (NotHealed, s)
  end.

End MCPBase.


(* ------------------------------------------------------------------ *)
(** ** Locator store: [utils/locator_repo.py] (class [LocatorRepo]) and
       [utils/locator_repository.py] (class [LocatorRepository])

    The [locators] table is a list of rows in insertion order.  The partial
    unique index [idx_locators_active] of [_ensure_schema] is enforced by
    [insert_row]: an INSERT that would give a (context, step_key) pair a
    second active row raises [IntegrityError]. *)

Module LocatorStore.
Import Json.

Record LocatorRow : Type := {
  id : nat;
  context : string;
  step_key : string;
  locator_type : string;
  locator_value : string;
  version : Z;
  is_active : bool;
  created_at : string;
  updated_at : string
}.

Record Store : Type := {
  rows : list LocatorRow;
  seq : nat
}.

Definition empty_store : Store := {| rows := []; seq := 0 |}.

Inductive error : Type :=
| ValueError (msg : string)
| IntegrityError (msg : string).

Inductive result : Type :=
| Ok
| Raised (e : error).

(** [WHERE context = ? AND step_key = ?] *)
Definition for_key (ctx key : string) (r : LocatorRow) : bool :=
  (context r =? ctx) && (step_key r =? key).

(** [UPDATE locators SET is_active = 0, updated_at = ?
     WHERE context = ? AND step_key = ? AND is_active = 1] *)
Definition deactivate (now ctx key : string) (st : Store) : Store :=
  {| rows :=
       map (fun r =>
              if for_key ctx key r && is_active r
              then {| id := id r; context := context r; step_key := step_key r;
                      locator_type := locator_type r;
                      locator_value := locator_value r; version := version r;
                      is_active := false; created_at := created_at r;
                      updated_at := now |}
              else r)
           (rows st);
     seq := seq st |}.

(** [SELECT MAX(version) FROM locators WHERE context = ? AND step_key = ?]:
    [None] is the NULL that an empty selection gives. *)
Definition max_version (ctx key : string) (st : Store) : option Z :=
  fold_left (fun acc r =>
               match acc with
               | None => Some (version r)
               | Some m => Some (Z.max m (version r))
               end)
            (filter (for_key ctx key) (rows st)) None.

(** [INSERT INTO locators (...) VALUES (?, ?, ?, ?, ?, 1, ?, ?)] under the
    unique index on active rows. *)
Definition insert_row (ctx key ltype lvalue : string) (ver : Z) (now : string)
    (st : Store) : result * Store :=
  if existsb (fun r => for_key ctx key r && is_active r) (rows st)
  then (Raised (IntegrityError "UNIQUE constraint failed"), st)
  else
    let new_id := S (seq st) in
    (Ok,
     {| rows := rows st ++
          [{| id := new_id; context := ctx; step_key := key;
              locator_type := ltype; locator_value := lvalue; version := ver;
              is_active := true; created_at := now; updated_at := now |}];
        seq := new_id |}).

(** The body shared by both classes; [now_update] and [now_insert] are the
    two timestamps written. *)
Definition add_locator_at (now_update now_insert : string) (st : Store)
    (ctx key : string) (locator : list (string * string)) : result * Store :=
  let locator_type := Py.dict_get "type" locator in
  let locator_value := Py.dict_get "value" locator in
  match locator_type, locator_value with
  | Some ltype, Some lvalue =>
      if negb (Py.truthy_str ltype) || negb (Py.truthy_str lvalue)
      then (Raised (ValueError "Locator must have 'type' and 'value' fields"), st)
      else
        let st1 := deactivate now_update ctx key st in
        let next_version :=
          match max_version ctx key st1 with
          | Some m => (m + 1)%Z
          | None => 1%Z
          end in
        insert_row ctx key ltype lvalue next_version now_insert st1
  | _, _ => (Raised (ValueError "Locator must have 'type' and 'value' fields"), st)
  end.

(** [SELECT locator_type, locator_value ... WHERE ... AND is_active = 1
     ORDER BY version DESC LIMIT 1] of [get_locator]. *)
Definition get_locator (st : Store) (ctx key : string) : option (string * string) :=
  option_map snd
    (fold_left (fun acc r =>
                  match acc with
                  | Some (v, _) =>
                      if (v <? version r)%Z
                      then Some (version r, (locator_type r, locator_value r))
                      else acc
                  | None => Some (version r, (locator_type r, locator_value r))
                  end)
               (filter (fun r => for_key ctx key r && is_active r) (rows st)) None).

(** The rows of a key, and those of them that are active. *)
Definition rows_of (ctx key : string) (st : Store) : list LocatorRow :=
  filter (for_key ctx key) (rows st).

Definition active_rows (ctx key : string) (st : Store) : list LocatorRow :=
  filter (fun r => for_key ctx key r && is_active r) (rows st).

(** The largest element of a list of versions, [None] for the empty list. *)
Definition maximum (l : list Z) : option Z :=
  match l with
  | [] => None
  | x :: r => Some (fold_left Z.max r x)
  end.

(** The partial unique index as a property of a store: no (context,
    step_key) pair has two active rows. *)
Definition one_active_per_key (st : Store) : Prop :=
  forall ctx key, List.length (active_rows ctx key st) <= 1.

(** The versions of every pair grow along the table. *)
Definition versions_increasing (st : Store) : Prop :=
  forall ctx key, StronglySorted Z.lt (map version (rows_of ctx key st)).

(** A row as [deactivate] leaves it. *)
Definition retired (now : string) (r : LocatorRow) : LocatorRow :=
  {| id := id r; context := context r; step_key := step_key r;
     locator_type := locator_type r; locator_value := locator_value r;
     version := version r; is_active := false; created_at := created_at r;
     updated_at := if is_active r then now else updated_at r |}.

End LocatorStore.

(** [LocatorRepo], lines 110-206: [add_locator] reads the clock once for the
    UPDATE and once more for the INSERT. *)
Module LocatorRepo.
Import Json.

(** The [for key in (...)] scan over the descriptive fields. *)
Fixpoint first_present (keys : list string) (step : dict) : option json :=
  match keys with
  | [] => None
  | key :: rest =>
      match Py.dict_get key step with
      | Some v => Some v
      | None => first_present rest step
      end
  end.

Definition descriptive_fields : list string :=
  ["element"; "label"; "text"; "value"; "placeholder"].

(** [step.get("action", "unknown")] as the f-string renders it. *)
Definition action_of (step : dict) : string :=
  Json.str (match Py.dict_get "action" step with
            | Some a => a
            | None => JStr "unknown"
            end).

(** [LocatorRepo.compute_step_key], lines 110-138.  [json.dumps] cannot
    raise on a [json] value, so the [except] branches are not reached. *)
Definition compute_step_key (step : dict) : string :=
  let action := action_of step in
  match Py.dict_get "selector" step with
  | Some selector => action ++ ":" ++ Json.str selector
  | None =>
      match Py.dict_get "locator" step with
      | Some locator => action ++ ":" ++ dumps true true locator
      | None =>
          match first_present descriptive_fields step with
          | Some v => action ++ ":" ++ Json.str v
          | None => action ++ ":" ++ dumps true true (JDict (sort_items step))
          end
      end
  end.

Definition add_locator (now1 now2 : string) :=
  LocatorStore.add_locator_at now1 now2.

End LocatorRepo.

(** [LocatorRepository], lines 87-177: [add_locator] reads the clock once. *)
Module LocatorRepository.
Import Json.

Definition descriptive_fields : list string :=
  ["element"; "label"; "text"; "value"; "placeholder"; "target"].

(** [LocatorRepository.compute_step_key], lines 87-116. *)
Definition compute_step_key (step : dict) : string :=
  let action := LocatorRepo.action_of step in
  match Py.dict_get "selector" step with
  | Some selector => action ++ ":" ++ Json.str selector
  | None =>
      match Py.dict_get "locator" step with
      | Some locator => action ++ ":" ++ dumps true true locator
      | None =>
          match LocatorRepo.first_present descriptive_fields step with
          | Some v => action ++ ":" ++ Json.str v
          | None => action ++ ":" ++ dumps true true (JDict (sort_items step))
          end
      end
  end.

Definition add_locator (now : string) :=
  LocatorStore.add_locator_at now now.

End LocatorRepository.


(* ------------------------------------------------------------------ *)
(** ** Web steps: [web/web_driver.py], [WebDriver._execute_step], lines
       225-309

    The page is an object of Playwright (or a stand-in); its methods and the
    helpers of [wait_utils] are parameters that may raise.  The probe
    [page.locator(selector).count()] of lines 284-292 only logs, inside a
    [try] that discards every exception, and is left out. *)

Module WebSteps.
Import Json.

(** An exception, by what [run_test_case] makes of it. *)
Inductive exn : Type :=
| ValueError (msg : string)
| OtherError (msg : string).

Definition raise (e : exn) : Drivers.exec_outcome :=
  match e with
  | ValueError msg => Drivers.RaisedValueError msg
  | OtherError msg => Drivers.RaisedException msg
  end.

Definition of_store_error (e : LocatorStore.error) : exn :=
  match e with
  | LocatorStore.ValueError msg => ValueError msg
  | LocatorStore.IntegrityError msg => OtherError msg
  end.

(** The selector a stored locator stands for, lines 255-263. *)
Definition from_stored (ltype lvalue : string) : string :=
  let t := Py.lower ltype in
  if existsb (String.eqb t) ["css"; "selector"; "aria"; "role"] then lvalue
  else if t =? "xpath" then "xpath=" ++ lvalue
  else if t =? "text" then "text=" ++ lvalue
  else lvalue.

(** [for key in (...): if key in step and step[key]], lines 266-269. *)
Fixpoint first_truthy (keys : list string) (step : dict) : option json :=
  match keys with
  | [] => None
  | key :: rest =>
      match Py.dict_get key step with
      | Some v => if truthy v then Some v else first_truthy rest step
      | None => first_truthy rest step
      end
  end.

Definition fallback_fields : list string :=
  ["selector"; "target"; "element"; "text"; "label"; "value"].

(** [action == name] for a [str] literal. *)
Definition is_action (action : json) (name : string) : bool :=
  match action with
  | JStr s => s =? name
  | _ => false
  end.

Section ExecuteStep.

Variable Page : Type.
Variable goto : json -> Page -> option exn * Page.
Variable stabilise_webview : Page -> option exn * Page.
Variable wait_for_page_stable : Page -> option exn * Page.
Variable wait_for_element_ui : json -> Page -> option exn * Page.
Variable click : json -> Page -> option exn * Page.
Variable fill : json -> string -> Page -> option exn * Page.
Variable inner_text : json -> Page -> (string + exn) * Page.
(** [self.llm.suggest_ui_locator], which returns [None] rather than raise. *)
Variable suggest_ui_locator : string -> option string.
(** [utcnow k] is what the k-th reading of the clock gives. *)
Variable utcnow : nat -> string.

(** The driver's objects; [asked] is a ghost log of the descriptions sent
    to [suggest_ui_locator]. *)
Record session : Type := {
  _page : option Page;
  loc_repo : LocatorStore.Store;
  clock_reads : nat;
  asked : list string
}.

Definition with_page (s : session) (p : Page) : session :=
  {| _page := Some p; loc_repo := loc_repo s; clock_reads := clock_reads s;
     asked := asked s |}.

(** The block [# Prepare selector], lines 250-279: the exception raised, if
    any, the selector (JNull for [None]) and the session left. *)
Definition prepare_selector (step : dict) (s : session)
  : option exn * json * session :=
  let step_key := LocatorRepository.compute_step_key step in
  let stored := LocatorStore.get_locator (loc_repo s) "ui" step_key in
  let selector :=
    match stored with
    | Some (ltype, lvalue) => JStr (from_stored ltype lvalue)
    | None => get "selector" step
    end in
  if truthy selector then (None, selector, s)
  else
    match first_truthy fallback_fields step with
    | Some v => (None, JStr ("text=" ++ Json.str v), s)
    | None =>
        let description := dumps false false (JDict step) in
        let s1 := {| _page := _page s; loc_repo := loc_repo s;
                     clock_reads := clock_reads s;
                     asked := asked s ++ [description] |} in
        match suggest_ui_locator description with
        | Some suggestion =>
            if Py.truthy_str suggestion then
              let (res, repo) :=
                LocatorRepository.add_locator (utcnow (clock_reads s)) (loc_repo s)
                  "ui" step_key [("type", "css"); ("value", suggestion)] in
              let s2 := {| _page := _page s; loc_repo := repo;
                           clock_reads := S (clock_reads s);
                           asked := asked s ++ [description] |} in
              match res with
              | LocatorStore.Ok => (None, JStr suggestion, s2)
              | LocatorStore.Raised e => (Some (of_store_error e), JStr suggestion, s2)
              end
            else (None, selector, s1)
        | None => (None, selector, s1)
        end
    end.

(** The action itself, lines 294-307. *)
Definition perform (action selector : json) (step : dict) (page : Page)
  : option exn * Page :=
  if is_action action "click" then click selector page
  else if is_action action "fill" then
    let value := py_or (py_or (get "value" step) (get "input_data" step)) (JStr "") in
    fill selector (Json.str value) page
  else if is_action action "assert_text" then
    let expected := py_or (py_or (get "expected" step) (get "value" step)) (JStr "") in
    match inner_text selector page with
    | (inl text, p1) =>
        let actual := Py.strip text in
        if negb (actual =? Py.strip (Json.str expected))
        then (Some (OtherError ("Expected text '" ++ Json.str expected
                                  ++ "' but found '" ++ actual ++ "'")), p1)
        else (None, p1)
    | (inr e, p1) => (Some e, p1)
    end
  else (Some (ValueError ("Unsupported action: " ++ Json.str action)), page).

Definition _execute_step (step : dict) (s : session)
  : Drivers.exec_outcome * session :=
  let action := get "action" step in
  if negb (truthy action)
  then (Drivers.RaisedValueError "Step missing 'action'", s)
  else
    match _page s with
    | None => (Drivers.RaisedException "Page not initialised", s)
    | Some page =>
        if is_action action "goto" then
          let url := py_or (get "url" step) (get "target" step) in
          if negb (truthy url)
          then (Drivers.RaisedValueError "'goto' action requires a 'url' or 'target'", s)
          else
            match goto url page with
            | (Some e, p1) => (raise e, with_page s p1)
            | (None, p1) =>
                match stabilise_webview p1 with
                | (None, p2) => (Drivers.Returned, with_page s p2)
                | (Some _, p2) =>
                    match wait_for_page_stable p2 with
                    | (None, p3) => (Drivers.Returned, with_page s p3)
                    | (Some e, p3) => (raise e, with_page s p3)
                    end
                end
            end
        else
          match prepare_selector step s with
          | (Some e, _, s1) => (raise e, s1)
          | (None, selector, s1) =>
              let waits :=
                (is_action action "click" || is_action action "fill"
                 || is_action action "assert_text") && truthy selector in
              match (if waits then wait_for_element_ui selector page
                     else (None, page)) with
              | (Some e, p1) => (raise e, with_page s1 p1)
              | (None, p1) =>
                  match perform action selector step p1 with
                  | (Some e, p2) => (raise e, with_page s1 p2)
                  | (None, p2) =>
                      match wait_for_page_stable p2 with
                      | (None, p3) => (Drivers.Returned, with_page s1 p3)
                      | (Some e, p3) => (raise e, with_page s1 p3)
                      end
                  end
              end
          end
    end.

End ExecuteStep.

Arguments _page {Page} _.
Arguments loc_repo {Page} _.
Arguments clock_reads {Page} _.
Arguments asked {Page} _.

End WebSteps.


(* ------------------------------------------------------------------ *)
(** ** Mobile steps: [mobile/mobile_driver.py], [MobileDriver._execute_step],
       lines 169-217, [_find_element], lines 220-231, and [_ensure_driver],
       lines 73-83

    The driver is an Appium session or the module's [_DummyMobileDriver];
    the methods of an Appium session and of its elements, and
    [wait_utils.wait_for_element_mobile], are parameters that may raise. *)

Module MobileSteps.
Import Json.

Section ExecuteStep.

(** An Appium session and a handle of one of its elements. *)
Variable Remote : Type.
Variable Elem : Type.

Inductive driver : Type :=
| DummyMobileDriver
| Appium (r : Remote).

Inductive element : Type :=
| DummyMobileElement
| Found (e : Elem).

(** The module flag, and what [appium_webdriver.Remote(...)] gives: [None]
    when it raises. *)
Variable _appium_available : bool.
Variable connect : option Remote.
Variable find_element : json -> json -> Remote -> (Elem + WebSteps.exn) * Remote.
Variable elem_click : Elem -> Remote -> option WebSteps.exn * Remote.
Variable elem_send_keys : Elem -> string -> Remote -> option WebSteps.exn * Remote.
Variable elem_text : Elem -> Remote -> (string + WebSteps.exn) * Remote.
Variable wait_for_element_mobile : json -> driver -> option WebSteps.exn * driver.
Variable suggest_ui_locator : string -> option string.
Variable utcnow : nat -> string.

(** The driver's objects; [asked] is a ghost log of the descriptions sent
    to [suggest_ui_locator]. *)
Record session : Type := {
  the_driver : option driver;
  loc_repo : LocatorStore.Store;
  clock_reads : nat;
  asked : list string
}.

Definition with_driver (s : session) (d : driver) : session :=
  {| the_driver := Some d; loc_repo := loc_repo s; clock_reads := clock_reads s;
     asked := asked s |}.

(** [_ensure_driver], lines 73-83. *)
Definition _ensure_driver (s : session) : session :=
  match the_driver s with
  | Some _ => s
  | None =>
      with_driver s
        (if _appium_available then
           match connect with
           | Some r => Appium r
           | None => DummyMobileDriver
           end
         else DummyMobileDriver)
  end.

(** The block [# Determine locator], lines 178-193: the exception raised,
    if any, the locator (JNull for [None]) and the session left. *)
Definition prepare_locator (step : dict) (s : session)
  : option WebSteps.exn * json * session :=
  let step_key := LocatorRepository.compute_step_key step in
  let stored := LocatorStore.get_locator (loc_repo s) "mobile" step_key in
  let locator :=
    match stored with
    | Some (ltype, lvalue) => JDict [("type", JStr ltype); ("value", JStr lvalue)]
    | None => get "locator" step
    end in
  if truthy locator then (None, locator, s)
  else
    let description := dumps false false (JDict step) in
    let s1 := {| the_driver := the_driver s; loc_repo := loc_repo s;
                 clock_reads := clock_reads s;
                 asked := asked s ++ [description] |} in
    match suggest_ui_locator description with
    | Some suggestion =>
        if Py.truthy_str suggestion then
          let (res, repo) :=
            LocatorRepository.add_locator (utcnow (clock_reads s)) (loc_repo s)
              "mobile" step_key [("type", "accessibility_id"); ("value", suggestion)] in
          let s2 := {| the_driver := the_driver s; loc_repo := repo;
                       clock_reads := S (clock_reads s);
                       asked := asked s ++ [description] |} in
          let locator' :=
            JDict [("type", JStr "accessibility_id"); ("value", JStr suggestion)] in
          match res with
          | LocatorStore.Ok => (None, locator', s2)
          | LocatorStore.Raised e => (Some (WebSteps.of_store_error e), locator', s2)
          end
        else (None, locator, s1)
    | None => (None, locator, s1)
    end.

(** [type(v).__name__] *)
Definition type_name (v : json) : string :=
  match v with
  | JNull => "NoneType"
  | JBool _ => "bool"
  | JInt _ => "int"
  | JStr _ => "str"
  | JList _ => "list"
  | JDict _ => "dict"
  end.

(** [_find_element], lines 220-231; [locator.get] exists on a dict only. *)
Definition _find_element (d : driver) (locator : json)
  : (element + WebSteps.exn) * driver :=
  if negb (truthy locator) then (inl DummyMobileElement, d)
  else
    match locator with
    | JDict kvs =>
        let ltype := get "type" kvs in
        let value := get "value" kvs in
        if negb (truthy ltype) || negb (truthy value) then (inl DummyMobileElement, d)
        else if _appium_available then
          match d with
          | DummyMobileDriver => (inl DummyMobileElement, d)
          | Appium r =>
              match find_element ltype value r with
              | (inl e, r1) => (inl (Found e), Appium r1)
              | (inr exc, r1) => (inr exc, Appium r1)
              end
          end
        else (inl DummyMobileElement, d)
    | _ =>
        (inr (WebSteps.OtherError
                ("'" ++ type_name locator ++ "' object has no attribute 'get'")), d)
    end.

(** A method of an element: the dummy element does nothing, an element of
    a dummy driver cannot be. *)
Definition on_element (e : element) (d : driver)
    (op : Elem -> Remote -> option WebSteps.exn * Remote)
  : option WebSteps.exn * driver :=
  match e, d with
  | Found h, Appium r => let (res, r1) := op h r in (res, Appium r1)
  | _, _ => (None, d)
  end.

Definition text_of (e : element) (d : driver)
  : (string + WebSteps.exn) * driver :=
  match e, d with
  | Found h, Appium r => let (res, r1) := elem_text h r in (res, Appium r1)
  | _, _ => (inl "", d)
  end.

(** The actions, lines 201-217. *)
Definition perform (action locator : json) (step : dict) (d : driver)
  : option WebSteps.exn * driver :=
  if WebSteps.is_action action "tap" || WebSteps.is_action action "click" then
    match _find_element d locator with
    | (inl elem, d1) => on_element elem d1 elem_click
    | (inr exc, d1) => (Some exc, d1)
    end
  else if WebSteps.is_action action "fill" then
    let value := py_or (py_or (get "value" step) (get "input_data" step)) (JStr "") in
    match _find_element d locator with
    | (inl elem, d1) => on_element elem d1 (fun h => elem_send_keys h (Json.str value))
    | (inr exc, d1) => (Some exc, d1)
    end
  else if WebSteps.is_action action "assert_text" then
    let expected := py_or (py_or (get "expected" step) (get "value" step)) (JStr "") in
    match _find_element d locator with
    | (inl elem, d1) =>
        match text_of elem d1 with
        | (inl text, d2) =>
            let actual := Py.strip text in
            if negb (actual =? Py.strip (Json.str expected))
            then (Some (WebSteps.OtherError
                          ("Expected text '" ++ Json.str expected
                             ++ "' but found '" ++ actual ++ "'")), d2)
            else (None, d2)
        | (inr exc, d2) => (Some exc, d2)
        end
    | (inr exc, d1) => (Some exc, d1)
    end
  else (Some (WebSteps.ValueError ("Unsupported action: " ++ Json.str action)), d).

Definition _execute_step (step : dict) (s : session)
  : Drivers.exec_outcome * session :=
  let action := get "action" step in
  if negb (truthy action)
  then (Drivers.RaisedValueError "Step missing 'action'", s)
  else
    let s0 := _ensure_driver s in
    match the_driver s0 with
    | None => (Drivers.RaisedException "Driver not initialised", s0)
    | Some d =>
        match prepare_locator step s0 with
        | (Some e, _, s1) => (WebSteps.raise e, s1)
        | (None, locator, s1) =>
            let waited :=
              if truthy locator then wait_for_element_mobile locator d
              else if WebSteps.is_action action "tap"
                      || WebSteps.is_action action "click"
                      || WebSteps.is_action action "fill"
                      || WebSteps.is_action action "assert_text"
                   then (Some (WebSteps.ValueError
                                 "Step missing locator for mobile action"), d)
                   else (None, d) in
            match waited with
            | (Some e, d1) => (WebSteps.raise e, with_driver s1 d1)
            | (None, d1) =>
                match perform action locator step d1 with
                | (Some e, d2) => (WebSteps.raise e, with_driver s1 d2)
                | (None, d2) => (Drivers.Returned, with_driver s1 d2)
                end
            end
        end
    end.

End ExecuteStep.

Arguments DummyMobileDriver {Remote}.
Arguments Appium {Remote} r.
Arguments DummyMobileElement {Elem}.
Arguments Found {Elem} e.
Arguments the_driver {Remote} _.
Arguments loc_repo {Remote} _.
Arguments clock_reads {Remote} _.
Arguments asked {Remote} _.

End MobileSteps.


(* ------------------------------------------------------------------ *)
(** ** Router: [mcp_router.py], [MCPRouter._classify], lines 69-98

    The translator is the object held in [self.llm]; its module is not part
    of the sources, so its [classify] method is a parameter.  [None] stands
    for [self.llm] being [None]. *)

Module MCPRouter.
Import Json.

Record TestCase : Type := {
  identifier : string;
  steps : list dict;
  type : option string
}.

(** What [self.llm.classify(text)] does: it returns a string or raises. *)
Inductive llm_answer : Type :=
| Answer (category : string)
| LLMRaised (msg : string).

(** The four [router.*_keywords] lists of the configuration. *)
Record Config : Type := {
  ui_keywords : list string;
  api_keywords : list string;
  mobile_keywords : list string;
  sql_keywords : list string
}.

(** [for kw in keywords: if kw.lower() in combined_lower] *)
Definition keyword_hit (keywords : list string) (combined_lower : string) : bool :=
  existsb (fun kw => Py.contains (Py.lower kw) combined_lower) keywords.

(** [for category, keywords in keywords_map.items()], then the default. *)
Fixpoint first_category (keywords_map : list (string * list string))
    (combined_lower : string) : string :=
  match keywords_map with
  | [] => "api"
  | (category, keywords) :: rest =>
      if keyword_hit keywords combined_lower then category
      else first_category rest combined_lower
  end.

Definition heuristic (cfg : Config) (combined_text : string) : string :=
  let keywords_map :=
    [("ui", ui_keywords cfg); ("api", api_keywords cfg);
     ("mobile", mobile_keywords cfg); ("sql", sql_keywords cfg)] in
  first_category keywords_map (Py.lower combined_text).

Definition combined_text (tc : TestCase) : string :=
  Py.join Py.newline (map (fun st => dumps false false (JDict st)) (steps tc)).

Definition _classify (llm : option (string -> llm_answer)) (cfg : Config)
    (tc : TestCase) : string :=
  let inferred :=
    match llm with
    | Some classify =>
        match classify (combined_text tc) with
        | Answer category => category
        | LLMRaised _ => heuristic cfg (combined_text tc)
        end
    | None => heuristic cfg (combined_text tc)
    end in
  match type tc with
  | Some t => if Py.truthy_str t then Py.lower t else inferred
  | None => inferred
  end.

(** The categories the specification lets [classify] return. *)
Definition recognized (category : string) : bool :=
  existsb (String.eqb category) ["ui"; "api"; "mobile"; "sql"].

End MCPRouter.

(** ** Translator side: [llm_integration/llm_agent.py], [LLMAgent.classify]
       and [_heuristic_classify], lines 492-538 *)

Module LLMAgent.

(** [any(keyword in text_lower for keyword in keywords)] *)
Definition any_keyword (keywords : list string) (text_lower : string) : bool :=
  existsb (fun keyword => Py.contains keyword text_lower) keywords.

Definition _heuristic_classify (cfg : MCPRouter.Config) (text : string) : string :=
  let text_lower := Py.lower text in
  if any_keyword (MCPRouter.ui_keywords cfg) text_lower then "ui"
  else if any_keyword (MCPRouter.api_keywords cfg) text_lower then "api"
  else if any_keyword (MCPRouter.mobile_keywords cfg) text_lower then "mobile"
  else if any_keyword (MCPRouter.sql_keywords cfg) text_lower then "sql"
  else "ui".

(** [_call_llm] is [None] when no provider is active; with a provider it
    gives the reply, or [None] after its retries are spent. *)
Definition classify (active_provider : option (string -> option string))
    (cfg : MCPRouter.Config) (text : string) : string :=
  match active_provider with
  | None => _heuristic_classify cfg text
  | Some _call_llm =>
      match _call_llm text with
      | Some response =>
          if Py.truthy_str response then
            let category := Py.lower (Py.strip response) in
            if MCPRouter.recognized category then category
            else _heuristic_classify cfg text
          else _heuristic_classify cfg text
      | None => _heuristic_classify cfg text
      end
  end.

End LLMAgent.


(* ------------------------------------------------------------------ *)
(** ** SQL fallback: [utils/natural_language_sql.py], [english_to_sql],
       lines 23-75

    An assertion callback acts on a database cursor.  The cursor model holds
    the names in the [users] table and the rows of the last result set. *)

Module NLSQL.

Record Cursor : Type := {
  users : list string;
  pending : list (list Z)
}.

(** The number of rows of [users] with the given name. *)
Definition occurrences (name : string) (cur : Cursor) : Z :=
  Z.of_nat (List.length (filter (String.eqb name) (users cur))).

(** [cursor.execute("SELECT COUNT( * ) FROM users WHERE name=?", (name,))] *)
Definition execute_count (name : string) (cur : Cursor) : Cursor :=
  {| users := users cur; pending := [[occurrences name cur]] |}.

(** [cursor.fetchone()] *)
Definition fetchone (cur : Cursor) : option (list Z) * Cursor :=
  match pending cur with
  | [] => (None, cur)
  | row :: rest => (Some row, {| users := users cur; pending := rest |})
  end.

(** How a callback ends: it returns, an [assert] fails with a message, or
    subscripting a missing or empty row raises. *)
Inductive outcome : Type :=
| Passed
| AssertionError (msg : string)
| SubscriptError.

Definition Assertion : Type := Cursor -> outcome * Cursor.

Record SQLTranslation : Type := {
  sql : string;
  assertion : option Assertion
}.

(** [count = cursor.fetchone()[0]] after a count query, then the check. *)
Definition check_count (ok : Z -> bool) (msg : string) (cur : Cursor)
  : outcome * Cursor :=
  match fetchone cur with
  | (Some (count :: _), cur') =>
      ((if ok count then Passed else AssertionError msg), cur')
  | (_, cur') => (SubscriptError, cur')
  end.

(** The callback of the [insert user] rule, lines 41-44. *)
Definition inserted_assertion (name : string) : Assertion :=
  fun cursor =>
    check_count (fun count => (0 <? count)%Z)
      ("User '" ++ name ++ "' was not inserted") (execute_count name cursor).

(** The callback of the [verify exists user] rule, lines 54-57: it reads the
    row the statement itself produced, and counts a missing row as 0. *)
Definition exists_assertion (name : string) : Assertion :=
  fun cursor =>
    let (row, cur') := fetchone cursor in
    let count := match row with
                 | Some (c :: _) => c
                 | _ => 0%Z
                 end in
    ((if (0 <? count)%Z then Passed
      else AssertionError ("User '" ++ name ++ "' does not exist")), cur').

(** The callback of the [delete user] rule, lines 67-70. *)
Definition deleted_assertion (name : string) : Assertion :=
  fun cursor =>
    check_count (fun count => (count =? 0)%Z)
      ("User '" ++ name ++ "' was not deleted") (execute_count name cursor).

(** The longest prefix without a line feed: what a greedy [.+] takes. *)
Fixpoint upto_newline (s : string) : string :=
  match s with
  | EmptyString => EmptyString
  | String c r =>
      if (Py.code c =? 10)%nat then EmptyString else String c (upto_newline r)
  end.

Fixpoint drop (n : nat) (s : string) : string :=
  match n, s with
  | O, _ => s
  | S n', String _ r => drop n' r
  | S _, EmptyString => EmptyString
  end.

(** [re.match(lit + "(.+)", cmd)]: group 1 when the pattern matches. *)
Definition re_match (lit cmd : string) : option string :=
  if prefix lit cmd then
    match upto_newline (drop (String.length lit) cmd) with
    | EmptyString => None
    | g => Some g
    end
  else None.

Definition english_to_sql (command : string) : SQLTranslation :=
  let cmd := Py.lower (Py.strip command) in
  match re_match "insert user " cmd with
  | Some g =>
      let name := Py.title g in
      {| sql := "INSERT INTO users (name) VALUES ('" ++ name ++ "');";
         assertion := Some (inserted_assertion name) |}
  | None =>
      match re_match "verify exists user " cmd with
      | Some g =>
          let name := Py.title g in
          {| sql := "SELECT COUNT(*) FROM users WHERE name='" ++ name ++ "';";
             assertion := Some (exists_assertion name) |}
      | None =>
          match re_match "delete user " cmd with
          | Some g =>
              let name := Py.title g in
              {| sql := "DELETE FROM users WHERE name='" ++ name ++ "';";
                 assertion := Some (deleted_assertion name) |}
          | None => {| sql := command; assertion := None |}
          end
      end
  end.

End NLSQL.


(* ------------------------------------------------------------------ *)
(** ** [difflib.SequenceMatcher(None, a, b).ratio()]

    The matcher of the Python standard library as [_compute_similarity]
    calls it: no junk predicate, [autojunk] left at its default.  With no
    junk the two junk-extension loops of [find_longest_match] never run and
    are left out.  A ratio is the exact rational [2.0 * matches / length]
    in lowest terms. *)

Module Difflib.

Record Match : Type := {
  m_a : nat;
  m_b : nat;
  m_size : nat
}.

Section Matcher.

Variable a : list ascii.
Variable b : list ascii.

Fixpoint positions (c : ascii) (l : list ascii) (i : nat) : list nat :=
  match l with
  | [] => []
  | x :: r =>
      if Ascii.eqb x c then i :: positions c r (S i) else positions c r (S i)
  end.

(** [__chain_b]: the indices of [c] in [b], dropped when [c] is popular. *)
Definition occurrences (c : ascii) : list nat := positions c b 0.

Definition popular (c : ascii) : bool :=
  ((200 <=? List.length b) &&
   (List.length b / 100 + 1 <? List.length (occurrences c)))%nat.

Definition b2j (c : ascii) : list nat :=
  if popular c then [] else occurrences c.

(** [j2len.get(j-1, 0)] *)
Definition j2lenget (j2len : nat -> nat) (j : nat) : nat :=
  match j with
  | O => 0%nat
  | S j' => j2len j'
  end.

(** The inner [for j in b2j.get(a[i], nothing)] loop. *)
Fixpoint scan_row (i blo bhi : nat) (j2len : nat -> nat) (js : list nat)
    (newj2len : nat -> nat) (best : Match) : (nat -> nat) * Match :=
  match js with
  | [] => (newj2len, best)
  | j :: rest =>
      if (j <? blo)%nat then scan_row i blo bhi j2len rest newj2len best
      else if (bhi <=? j)%nat then (newj2len, best)
      else
        let k := (j2lenget j2len j + 1)%nat in
        scan_row i blo bhi j2len rest
          (fun x => if (x =? j)%nat then k else newj2len x)
          (if (m_size best <? k)%nat
           then {| m_a := i + 1 - k; m_b := j + 1 - k; m_size := k |}
           else best)
  end.

(** The outer [for i in range(alo, ahi)] loop. *)
Fixpoint scan_rows (blo bhi : nat) (rows : list nat) (j2len : nat -> nat)
    (best : Match) : Match :=
  match rows with
  | [] => best
  | i :: rest =>
      let js := match nth_error a i with
                | Some c => b2j c
                | None => []
                end in
      let (newj2len, best') := scan_row i blo bhi j2len js (fun _ => 0%nat) best in
      scan_rows blo bhi rest newj2len best'
  end.

Definition same_at (i j : nat) : bool :=
  match nth_error a i, nth_error b j with
  | Some x, Some y => Ascii.eqb x y
  | _, _ => false
  end.

(** The first [while]: grow the block to the left. *)
Fixpoint extend_left (fuel alo blo : nat) (m : Match) : Match :=
  match fuel with
  | O => m
  | S fuel' =>
      if ((alo <? m_a m) && (blo <? m_b m))%nat && same_at (m_a m - 1) (m_b m - 1)
      then extend_left fuel' alo blo
             {| m_a := m_a m - 1; m_b := m_b m - 1; m_size := S (m_size m) |}
      else m
  end.

(** The second [while]: grow the block to the right. *)
Fixpoint extend_right (fuel ahi bhi : nat) (m : Match) : Match :=
  match fuel with
  | O => m
  | S fuel' =>
      if ((m_a m + m_size m <? ahi) && (m_b m + m_size m <? bhi))%nat
         && same_at (m_a m + m_size m) (m_b m + m_size m)
      then extend_right fuel' ahi bhi
             {| m_a := m_a m; m_b := m_b m; m_size := S (m_size m) |}
      else m
  end.

Definition find_longest_match (alo ahi blo bhi : nat) : Match :=
  let best :=
    scan_rows blo bhi (seq alo (ahi - alo)) (fun _ => 0%nat)
      {| m_a := alo; m_b := blo; m_size := 0 |} in
  let best1 := extend_left (m_a best) alo blo best in
  extend_right ahi ahi bhi best1.

(** The [while queue] loop; the head of [queue] is what [queue.pop()]
    takes.  [None] is the loop still running when the fuel is spent. *)
Fixpoint blocks_loop (fuel : nat) (queue : list (nat * nat * nat * nat))
    (matching_blocks : list Match) : option (list Match) :=
  match queue with
  | [] => Some matching_blocks
  | (alo, ahi, blo, bhi) :: rest =>
      match fuel with
      | O => None
      | S fuel' =>
          let x := find_longest_match alo ahi blo bhi in
          let i := m_a x in
          let j := m_b x in
          let k := m_size x in
          if (k =? 0)%nat then blocks_loop fuel' rest matching_blocks
          else
            let q1 := if ((alo <? i) && (blo <? j))%nat
                      then (alo, i, blo, j) :: rest else rest in
            let q2 := if ((i + k <? ahi) && (j + k <? bhi))%nat
                      then (i + k, ahi, j + k, bhi) :: q1 else q1 in
            blocks_loop fuel' q2 (matching_blocks ++ [x])
      end
  end.

Definition match_ltb (x y : Match) : bool :=
  ((m_a x <? m_a y)
   || ((m_a x =? m_a y) &&
       ((m_b x <? m_b y) || ((m_b x =? m_b y) && (m_size x <? m_size y)))))%nat.

Fixpoint insert_match (x : Match) (l : list Match) : list Match :=
  match l with
  | [] => [x]
  | y :: r => if match_ltb x y then x :: l else y :: insert_match x r
  end.

(** [matching_blocks.sort()] *)
Definition sort_matches (l : list Match) : list Match :=
  fold_left (fun acc x => insert_match x acc) l [].

(** The loop that merges adjacent blocks. *)
Fixpoint collapse (blocks : list Match) (cur : Match) (non_adjacent : list Match)
  : list Match :=
  match blocks with
  | [] => if (m_size cur =? 0)%nat then non_adjacent else non_adjacent ++ [cur]
  | x :: rest =>
      if ((m_a cur + m_size cur =? m_a x) && (m_b cur + m_size cur =? m_b x))%nat
      then collapse rest
             {| m_a := m_a cur; m_b := m_b cur; m_size := m_size cur + m_size x |}
             non_adjacent
      else collapse rest x
             (if (m_size cur =? 0)%nat then non_adjacent else non_adjacent ++ [cur])
  end.

Definition get_matching_blocks : option (list Match) :=
  let la := List.length a in
  let lb := List.length b in
  match blocks_loop (S (la + lb)) [(0, la, 0, lb)%nat] [] with
  | Some blocks =>
      Some (collapse (sort_matches blocks) {| m_a := 0; m_b := 0; m_size := 0 |} []
              ++ [{| m_a := la; m_b := lb; m_size := 0 |}])%list
  | None => None
  end.

(** [_calculate_ratio(matches, length)] *)
Definition _calculate_ratio (matches length : nat) : Q :=
  if (length =? 0)%nat then 1%Q
  else Qred (Z.of_nat (2 * matches) # Pos.of_nat length)%Q.

Definition ratio : option Q :=
  match get_matching_blocks with
  | Some blocks =>
      Some (_calculate_ratio (list_sum (map m_size blocks))
              (List.length a + List.length b))
  | None => None
  end.

End Matcher.

(** Notions the properties of the matcher are stated with. *)

(** Position [i] of [a] holds a character that [__chain_b] kept. *)
Definition kept (a : list ascii) (i : nat) : bool :=
  match nth_error a i with
  | Some c => negb (popular a c)
  | None => false
  end.

(** The number of consecutive kept positions of [a] that end at [i]. *)
Fixpoint diag (a : list ascii) (i : nat) : nat :=
  match i with
  | O => if kept a 0 then 1%nat else 0%nat
  | S i' => if kept a i then (diag a i' + 1)%nat else 0%nat
  end.

(** What holds before row [i] when [a] is matched against itself: the best
    block lies on the diagonal and ends before [i]; it is at least as long
    as every diagonal run that ends before [i]; the lengths of the previous
    row are bounded by the diagonal runs of their column and of that row,
    and exact on the diagonal. *)
Definition scan_inv (a : list ascii) (i : nat) (j2len : nat -> nat) (best : Match)
  : Prop :=
  m_a best = m_b best
  /\ m_a best + m_size best <= i
  /\ (forall x, x < i -> diag a x <= m_size best)
  /\ (forall x, j2len x <= diag a x)
  /\ (forall x, j2len x <= match i with O => 0 | S i' => diag a i' end)
  /\ match i with O => True | S i' => j2len i' = diag a i' end.

(** A block lies within the region it was searched in. *)
Definition within (alo ahi blo bhi : nat) (x : Match) : Prop :=
  alo <= m_a x /\ m_a x + m_size x <= ahi /\ blo <= m_b x /\ m_b x + m_size x <= bhi.

(** The lengths of a row are bounded by the rows scanned and by the distance
    to the left border. *)
Definition row_bounded (blo rows_done : nat) (m : nat -> nat) : Prop :=
  forall x, m x <= rows_done /\ m x <= x + 1 - blo.

Definition region_ok (r : nat * nat * nat * nat) : Prop :=
  match r with (alo, ahi, blo, bhi) => alo <= ahi /\ blo <= bhi end.

Definition weight (r : nat * nat * nat * nat) : nat :=
  match r with (alo, ahi, blo, bhi) => ((ahi - alo) + (bhi - blo) + 1)%nat end.

(** [SequenceMatcher(None, s, t).ratio()] on two strings. *)
Definition string_ratio (s t : string) : option Q :=
  ratio (list_ascii_of_string s) (list_ascii_of_string t).

End Difflib.


(* ------------------------------------------------------------------ *)
(** ** Version manager: [versioning/version_manager.py], lines 68-170

    The [test_cases_json] column holds [json.dumps] of the case list and is
    read back with [json.loads]; on [json] values that round trip gives the
    list back, so a row keeps the list itself. *)

Module VersionManager.
Import Json.

Definition case : Type := dict.

Record VersionRow : Type := {
  id : nat;
  user_story : string;
  version_number : Z;
  author : string;
  timestamp : string;
  similarity : Q;
  test_cases_snapshot : list case
}.

Record Store : Type := {
  rows : list VersionRow;
  seq : nat
}.

Definition empty_store : Store := {| rows := []; seq := 0 |}.

Record Diff : Type := {
  added : list case;
  removed : list case;
  unchanged : list case
}.

Record VersionInfo : Type := {
  version_id : nat;
  info_version_number : Z;
  info_similarity : Q;
  diff : Diff
}.

(** How a call ends: it returns, it raises [TypeError] on an unhashable
    identifier, or the matcher model ran out of fuel. *)
Inductive outcome (A : Type) : Type :=
| Returned (x : A)
| RaisedTypeError
| Unfinished.

Arguments Returned {A} x.
Arguments RaisedTypeError {A}.
Arguments Unfinished {A}.

(** [SELECT ... WHERE user_story=? ORDER BY version_number DESC LIMIT 1]:
    the first row that carries the largest version number. *)
Definition _get_latest_version_info (st : Store) (story : string) : option VersionRow :=
  fold_left (fun acc r =>
               if user_story r =? story then
                 match acc with
                 | Some best =>
                     if (version_number best <? version_number r)%Z
                     then Some r else acc
                 | None => Some r
                 end
               else acc)
            (rows st) None.

(** The text both similarity methods are computed from. *)
Definition canonical_text (cases : list case) : string :=
  Py.join Py.newline (map (fun tc => dumps true true (JDict tc)) cases).

Section AddVersion.

(** [versioning.method] after [str(...).lower()]. *)
Variable method : string.
(** The TF-IDF branch, which needs scikit-learn: [None] when it raises. *)
Variable embedding_similarity : list string -> list string -> option Q.

Definition _compute_similarity (old_cases new_cases : list case) : option Q :=
  let fallback := Difflib.string_ratio (canonical_text old_cases)
                    (canonical_text new_cases) in
  if method =? "embedding" then
    match embedding_similarity
            (map (fun tc => dumps true true (JDict tc)) old_cases)
            (map (fun tc => dumps true true (JDict tc)) new_cases) with
    | Some sim => Some sim
    | None => fallback
    end
  else fallback.

(** A dict key built from [c.get("identifier")].  A missing identifier and
    [None] are the same key, and so are [True] and [1]; a list or a dict
    cannot be hashed. *)
Inductive key : Type :=
| KNone
| KInt (z : Z)
| KStr (s : string).

Definition key_of (c : case) : option key :=
  match Py.dict_get "identifier" c with
  | None | Some JNull => Some KNone
  | Some (JBool true) => Some (KInt 1)
  | Some (JBool false) => Some (KInt 0)
  | Some (JInt z) => Some (KInt z)
  | Some (JStr s) => Some (KStr s)
  | Some (JList _) | Some (JDict _) => None
  end.

Definition key_eqb (x y : key) : bool :=
  match x, y with
  | KNone, KNone => true
  | KInt m, KInt n => (m =? n)%Z
  | KStr s, KStr t => s =? t
  | _, _ => false
  end.

Fixpoint map_has (k : key) (m : list (key * case)) : bool :=
  match m with
  | [] => false
  | (k', _) :: r => key_eqb k' k || map_has k r
  end.

(** [m[k] = c]: an existing key keeps its place and takes the new value. *)
Fixpoint map_set (k : key) (c : case) (m : list (key * case)) : list (key * case) :=
  match m with
  | [] => [(k, c)]
  | (k', c') :: r =>
      if key_eqb k' k then (k', c) :: r else (k', c') :: map_set k c r
  end.

(** [{c.get("identifier"): c for c in cases}] *)
Fixpoint build_map (cases : list case) (m : list (key * case))
  : option (list (key * case)) :=
  match cases with
  | [] => Some m
  | c :: rest =>
      match key_of c with
      | Some k => build_map rest (map_set k c m)
      | None => None
      end
  end.

Definition compute_diff (old_map new_map : list (key * case)) : Diff :=
  {| added := map snd (filter (fun kc => negb (map_has (fst kc) old_map)) new_map);
     removed := map snd (filter (fun kc => negb (map_has (fst kc) new_map)) old_map);
     unchanged := map snd (filter (fun kc => map_has (fst kc) old_map) new_map) |}.

Definition add_version (now : string) (st : Store) (story : string)
    (test_cases : list case) (who : string) : outcome VersionInfo * Store :=
  let latest := _get_latest_version_info st story in
  let number := match latest with
                | Some l => (version_number l + 1)%Z
                | None => 1%Z
                end in
  let computed : outcome (Q * Diff) :=
    match latest with
    | Some l =>
        let old_cases := test_cases_snapshot l in
        match _compute_similarity old_cases test_cases with
        | Some sim =>
            match build_map old_cases [], build_map test_cases [] with
            | Some old_map, Some new_map =>
                Returned (sim, compute_diff old_map new_map)
            | _, _ => RaisedTypeError
            end
        | None => Unfinished
        end
    | None =>
        Returned (0%Q, {| added := test_cases; removed := []; unchanged := [] |})
    end in
  match computed with
  | Returned (sim, d) =>
      let new_id := S (seq st) in
      (Returned {| version_id := new_id; info_version_number := number;
                   info_similarity := sim; diff := d |},
       {| rows := rows st ++
            [{| id := new_id; user_story := story; version_number := number;
                author := who; timestamp := now; similarity := sim;
                test_cases_snapshot := test_cases |}];
          seq := new_id |})
  | RaisedTypeError => (RaisedTypeError, st)
  | Unfinished => (Unfinished, st)
  end.

End AddVersion.

(** Every identifier of the list can be a dict key. *)
Definition hashable_identifiers (cases : list case) : Prop :=
  Forall (fun c => key_of c <> None) cases.

(** How [get_test_cases] and [compare_versions] end. *)
Inductive lookup (A : Type) : Type :=
| Found (x : A)
| RaisedValueError (msg : string)
| LookupTypeError.

Arguments Found {A} x.
Arguments RaisedValueError {A} msg.
Arguments LookupTypeError {A}.

(** [get_test_cases], lines 190-200: [SELECT test_cases_json ... WHERE id=?]
    and [fetchone]. *)
Definition get_test_cases (st : Store) (version_id : nat) : lookup (list case) :=
  match find (fun r => (id r =? version_id)%nat) (rows st) with
  | Some row => Found (test_cases_snapshot row)
  | None =>
      RaisedValueError ("Version " ++ Py.str_int (Z.of_nat version_id) ++ " not found")
  end.

(** [compare_versions], lines 202-217. *)
Definition compare_versions (st : Store) (version_id_a version_id_b : nat)
  : lookup Diff :=
  match get_test_cases st version_id_a with
  | Found cases_a =>
      match get_test_cases st version_id_b with
      | Found cases_b =>
          match build_map cases_a [] with
          | Some map_a =>
              match build_map cases_b [] with
              | Some map_b => Found (compute_diff map_a map_b)
              | None => LookupTypeError
              end
          | None => LookupTypeError
          end
      | RaisedValueError msg => RaisedValueError msg
      | LookupTypeError => LookupTypeError
      end
  | RaisedValueError msg => RaisedValueError msg
  | LookupTypeError => LookupTypeError
  end.

(** No two cases of the list carry the same identifier. *)
Definition distinct_identifiers (cases : list case) : Prop :=
  NoDup (map key_of cases).

(** Some case of [cases] carries the identifier of [c]. *)
Definition has_identifier (cases : list case) (c : case) : bool :=
  existsb (fun c' => match key_of c', key_of c with
                     | Some k', Some k => key_eqb k' k
                     | _, _ => false
                     end) cases.

(** No row carries a key that AUTOINCREMENT has not handed out yet. *)
Definition ids_in_use (st : Store) : Prop :=
  Forall (fun r => id r <= seq st) (rows st).

End VersionManager.


(* ------------------------------------------------------------------ *)
(** ** Upload history: the [versions] table of [utils/db_utils.py], lines
       282-328, and [versioning/version_utils.py], [record_version],
       lines 34-70 *)

Module VersionLog.

Record VersionEntry : Type := {
  user_story : string;
  test_set : string;
  version : Z;
  source : string;
  file_name : option string;
  comments : option string;
  created_at : string
}.

(** The rows of the table, in insertion order. *)
Definition Table : Type := list VersionEntry.

(** [WHERE user_story = ? AND test_set = ?] *)
Definition selected (story set : string) (r : VersionEntry) : bool :=
  (user_story r =? story) && (test_set r =? set).

(** [Database.record_version], lines 282-292; [now] is [self._now()]. *)
Definition db_record_version (now : string) (t : Table) (story set : string)
    (v : Z) (src : string) (file : option string) (cmt : option string) : Table :=
  (t ++ [{| user_story := story; test_set := set; version := v; source := src;
            file_name := file; comments := cmt; created_at := now |}])%list.

(** [Database.get_next_version], lines 294-302: [MAX(version)] is NULL when
    no row is selected. *)
Definition get_next_version (t : Table) (story set : string) : Z :=
  match map version (filter (selected story set) t) with
  | [] => 1
  | v :: vs => fold_left Z.max vs v + 1
  end.

(** What [Database.get_version_history], lines 304-328, may return: the
    selected rows by ascending version.  [ORDER BY version ASC] leaves the
    order of rows with the same version open. *)
Definition is_history (t : Table) (story set : string)
    (history : list VersionEntry) : Prop :=
  Permutation history (filter (selected story set) t)
  /\ Sorted (fun a b => version a <= version b)%Z history.

(** One such order: rows with the same version in insertion order. *)
Fixpoint insert_by_version (r : VersionEntry) (l : list VersionEntry)
  : list VersionEntry :=
  match l with
  | [] => [r]
  | x :: rest =>
      if (version r <? version x)%Z then r :: l
      else x :: insert_by_version r rest
  end.

Definition get_version_history (t : Table) (story set : string)
  : list VersionEntry :=
  fold_left (fun acc r => insert_by_version r acc)
            (filter (selected story set) t) [].

(** [record.get("file_name") == file_name], on [str] or [None]. *)
Definition same_file (a b : option string) : bool :=
  match a, b with
  | None, None => true
  | Some x, Some y => x =? y
  | _, _ => false
  end.

(** [VersionManager.record_version] of [version_utils.py] on the history
    [get_version_history] returned. *)
Definition record_version_from (history : list VersionEntry) (now : string)
    (t : Table) (story set src : string) (file cmt : option string) : Z * Table :=
  match find (fun record => same_file (file_name record) file) history with
  | Some record =>
      let dup_version := version record in
      let comments_or_empty :=
        match cmt with
        | Some c => if Py.truthy_str c then c else ""
        | None => ""
        end in
      (dup_version,
       db_record_version now t story set dup_version src file
         (Some (comments_or_empty ++ " (duplicate)")))
  | None =>
      let new_version := get_next_version t story set in
      (new_version, db_record_version now t story set new_version src file cmt)
  end.

Definition record_version (now : string) (t : Table) (story set src : string)
    (file cmt : option string) : Z * Table :=
  record_version_from (get_version_history t story set) now t story set src file cmt.

End VersionLog.


(* ------------------------------------------------------------------ *)
(** ** The specification's wording of the properties, and worked inputs *)

(** The aggregate status as section 4.1 of the specification words it, and
    the dependency rule of its section 8. *)
Module Spec.
Import Json Recorder.

Definition aggregate_status (P F S : nat) : string :=
  let E := P + F in
  if (E =? 0)%nat && (0 <? S)%nat then "skipped"
  else if (F =? 0)%nat && (S =? 0)%nat then "passed"
  else if (F =? E)%nat then "failed"
  else "partial".

(** The run's status column is the derivation applied to the numbers of step
    rows recorded as passed, failed and skipped. *)
Definition status_derived {session : Type} (r : nat * Drivers.world session) : Prop :=
  status_of_run (Drivers.db (snd r)) (fst r) =
    Some (aggregate_status
            (count_steps (Drivers.db (snd r)) (fst r) "passed")
            (count_steps (Drivers.db (snd r)) (fst r) "failed")
            (count_steps (Drivers.db (snd r)) (fst r) "skipped")).

(** Run [run] has a row for step [idx] with [status]. *)
Definition recorded (d : Database) (run idx : nat) (status : string) : Prop :=
  exists row, In row (get_run_steps d run)
              /\ rs_step_index row = idx /\ rs_status row = status.

(** Every step whose [depends_on] is the index [i] of an earlier step
    recorded as failed or skipped is recorded as skipped, and the run adds
    no invocation of [_execute_step] for it. *)
Definition dependents_skipped {session : Type} (case : TestCase)
    (before : Drivers.world session) (r : nat * Drivers.world session) : Prop :=
  forall idx st v i,
    nth_error (steps case) idx = Some st ->
    Py.dict_get "depends_on" st = Some v ->
    as_int v = Some (Z.of_nat i) ->
    i < idx ->
    recorded (Drivers.db (snd r)) (fst r) i "failed"
    \/ recorded (Drivers.db (snd r)) (fst r) i "skipped" ->
    recorded (Drivers.db (snd r)) (fst r) idx "skipped"
    /\ count_occ Nat.eq_dec (Drivers.invoked (snd r)) idx
       = count_occ Nat.eq_dec (Drivers.invoked before) idx.

(** What [add_locator] leaves behind when it succeeds: the call returns;
    the only active row of the key is the inserted one; its version is one
    more than the largest version the key had, or 1; and the rows the key
    had are all kept, inactive. *)
Definition locator_added (now_update now_insert : string)
    (before : LocatorStore.Store) (ctx key ltype lvalue : string)
    (r : LocatorStore.result * LocatorStore.Store) : Prop :=
  exists inserted,
    r = (LocatorStore.Ok,
         {| LocatorStore.rows :=
              (LocatorStore.rows (LocatorStore.deactivate now_update ctx key before)
               ++ [inserted])%list;
            LocatorStore.seq := S (LocatorStore.seq before) |})
    /\ LocatorStore.active_rows ctx key (snd r) = [inserted]
    /\ inserted =
         {| LocatorStore.id := S (LocatorStore.seq before);
            LocatorStore.context := ctx; LocatorStore.step_key := key;
            LocatorStore.locator_type := ltype;
            LocatorStore.locator_value := lvalue;
            LocatorStore.version :=
              match LocatorStore.maximum
                      (map LocatorStore.version
                           (LocatorStore.rows_of ctx key before)) with
              | Some m => (m + 1)%Z
              | None => 1%Z
              end;
            LocatorStore.is_active := true;
            LocatorStore.created_at := now_insert;
            LocatorStore.updated_at := now_insert |}
    /\ LocatorStore.rows_of ctx key (snd r) =
         (map (LocatorStore.retired now_update)
              (LocatorStore.rows_of ctx key before) ++ [inserted])%list.

(** [classify] as section 4.6 words it: the explicit type lower-cased;
    else the translator's answer when it is one of the four categories;
    else, on translator failure or an unrecognized answer, the keyword
    checks, which default to [api]. *)
Definition classify_as_specified (llm : option (string -> MCPRouter.llm_answer))
    (cfg : MCPRouter.Config) (tc : MCPRouter.TestCase) : string :=
  let text := MCPRouter.combined_text tc in
  if Py.truthy_opt (MCPRouter.type tc) then
    match MCPRouter.type tc with
    | Some t => Py.lower t
    | None => EmptyString
    end
  else
    match llm with
    | Some classify =>
        match classify text with
        | MCPRouter.Answer category =>
            if MCPRouter.recognized category then category
            else MCPRouter.heuristic cfg text
        | MCPRouter.LLMRaised _ => MCPRouter.heuristic cfg text
        end
    | None => MCPRouter.heuristic cfg text
    end.

(** A parameterized statement holds a placeholder where the value goes,
    and not the value. *)
Definition parameterized (statement value : string) : Prop :=
  Py.contains "?" statement = true /\ Py.contains value statement = false.

End Spec.

(** A backend for worked examples: a step whose action is [fail] raises, a
    step without an action lacks required data, any other step succeeds. *)
Module Fixtures.
Import Json Recorder.

Definition exec (st : step) (s : unit) : Drivers.exec_outcome * unit :=
  match Py.dict_get "action" st with
  | Some (JStr "fail") => (Drivers.RaisedException "boom", s)
  | Some _ => (Drivers.Returned, s)
  | None => (Drivers.RaisedValueError "Step missing 'action'", s)
  end.

Definition clock (k : nat) : Z := Z.of_nat k.

Definition fresh : Drivers.world unit :=
  {| Drivers.db := empty_db; Drivers.sess := tt; Drivers.reads := 0;
     Drivers.invoked := [] |}.

Definition case_of (l : list step) : TestCase :=
  {| case_id := None; user_story := "US-1"; test_set := "smoke";
     created_by := "qa"; source := "manual"; steps := l |}.

(** A failing step, a step that depends on it, and an independent step. *)
Definition dependent_case : TestCase :=
  case_of [ [("action", JStr "fail")];
            [("action", JStr "click"); ("depends_on", JInt 0)];
            [("action", JStr "click")] ].

(** A locator store in which the key [click:Login] of context [ui] has an
    active version 1. *)
Definition login_store : LocatorStore.Store :=
  {| LocatorStore.rows :=
       [{| LocatorStore.id := 1; LocatorStore.context := "ui";
           LocatorStore.step_key := "click:Login";
           LocatorStore.locator_type := "css";
           LocatorStore.locator_value := "#login";
           LocatorStore.version := 1; LocatorStore.is_active := true;
           LocatorStore.created_at := "2024-01-01T00:00:00";
           LocatorStore.updated_at := "2024-01-01T00:00:00" |}];
     LocatorStore.seq := 1 |}.

(** A router configuration, and a case with no declared type. *)
Definition keywords : MCPRouter.Config :=
  {| MCPRouter.ui_keywords := ["click"; "browser"];
     MCPRouter.api_keywords := ["GET"; "endpoint"];
     MCPRouter.mobile_keywords := ["tap"; "swipe"];
     MCPRouter.sql_keywords := ["select"; "insert"] |}.

Definition untyped_case : MCPRouter.TestCase :=
  {| MCPRouter.identifier := "TC-1";
     MCPRouter.steps := [[("action", JStr "Click"); ("target", JStr "Login")]];
     MCPRouter.type := None |}.

End Fixtures.


(* ------------------------------------------------------------------ *)
(** * Properties *)


Module DriverFacts.
Import Json Recorder Drivers.

Section Loop.

Variable session : Type.
Variable exec : step -> session -> exec_outcome * session.
Variable clock : nat -> Z.
Variable prepare : session -> session.
Variable release : session -> session.
Variable derive : nat -> nat -> nat -> string.

Local Abbreviation run_step := (Drivers.run_step session exec clock).
Local Abbreviation run_steps_from := (Drivers.run_steps_from session exec clock).
Local Abbreviation try_step := (Drivers.try_step session exec).

Lemma try_step_db run idx st w :
  db (snd (try_step run idx st w)) = db w.
Proof.
  unfold Drivers.try_step.
  destruct (check_depends_on (db w) run st); [reflexivity|].
  destruct (exec st (sess w)); reflexivity.
Qed.

Lemma count_steps_add d run idx status msg t1 t2 s :
  count_steps (add_run_step d run idx status msg t1 t2) run s =
  (count_steps d run s + (if (status =? s)%string then 1 else 0))%nat.
Proof.
  unfold count_steps, get_run_steps, add_run_step; simpl.
  rewrite !filter_app, !length_app; simpl.
  rewrite Nat.eqb_refl; simpl.
  destruct (status =? s); reflexivity.
Qed.

Lemma run_step_shape run idx st c w :
  exists o msg t1 t2 c',
    run_step run idx st (c, w) =
      (c', {| db := add_run_step (db w) run idx (status_of o) msg t1 t2;
              sess := sess (snd (try_step run idx st w));
              reads := S (S (reads w));
              invoked := invoked (snd (try_step run idx st w)) |})
    /\ fst (try_step run idx st w) = o
    /\ passed_steps c' = (passed_steps c + (if (status_of o =? "passed")%string then 1 else 0))%nat
    /\ failed_steps c' = (failed_steps c + (if (status_of o =? "failed")%string then 1 else 0))%nat
    /\ skipped_steps c' = (skipped_steps c + (if (status_of o =? "skipped")%string then 1 else 0))%nat.
Proof.
  unfold Drivers.run_step.
  pose proof (try_step_db run idx st w) as Hdb.
  destruct (try_step run idx st w) as [o w1] eqn:E; simpl in *.
  exists o.
  destruct o; simpl; rewrite Hdb;
    do 4 eexists; (split; [reflexivity|]); simpl;
    repeat split; lia.
Qed.

Lemma run_step_counted run idx st c w :
  counted run c (db w) ->
  counted run (fst (run_step run idx st (c, w))) (db (snd (run_step run idx st (c, w)))).
Proof.
  intros (Hp & Hf & Hs).
  destruct (run_step_shape run idx st c w) as (o & msg & t1 & t2 & c' & E & _ & Ep & Ef & Es).
  rewrite E; simpl. unfold counted.
  rewrite !count_steps_add, Hp, Hf, Hs, Ep, Ef, Es. auto.
Qed.

Lemma run_step_test_runs run idx st c w :
  test_runs (db (snd (run_step run idx st (c, w)))) = test_runs (db w).
Proof.
  destruct (run_step_shape run idx st c w) as (o & msg & t1 & t2 & c' & E & _).
  rewrite E; reflexivity.
Qed.

Lemma run_steps_from_cons run idx st rest cw :
  run_steps_from run idx (st :: rest) cw =
  run_steps_from run (S idx) rest (run_step run idx st cw).
Proof. reflexivity. Qed.

Lemma run_steps_from_counted run l : forall idx c w,
  counted run c (db w) ->
  counted run (fst (run_steps_from run idx l (c, w)))
              (db (snd (run_steps_from run idx l (c, w)))).
Proof.
  induction l as [|st rest IH]; intros idx c w H; [exact H|].
  rewrite run_steps_from_cons.
  pose proof (run_step_counted run idx st c w H) as H1.
  destruct (run_step run idx st (c, w)) as [c1 w1]. apply IH. exact H1.
Qed.

Lemma run_steps_from_test_runs run l : forall idx c w,
  test_runs (db (snd (run_steps_from run idx l (c, w)))) = test_runs (db w).
Proof.
  induction l as [|st rest IH]; intros idx c w; [reflexivity|].
  rewrite run_steps_from_cons.
  pose proof (run_step_test_runs run idx st c w) as H1.
  destruct (run_step run idx st (c, w)) as [c1 w1]. rewrite IH. exact H1.
Qed.

Lemma get_run_steps_fresh d run :
  Forall (fun r => rs_test_run_id r < run) (run_steps d) ->
  get_run_steps d run = [].
Proof.
  unfold get_run_steps. intros H.
  induction H as [|r l Hr _ IH]; simpl; [reflexivity|].
  replace (rs_test_run_id r =? run)%nat with false
    by (symmetry; apply Nat.eqb_neq; lia).
  exact IH.
Qed.

Lemma count_steps_fresh d run s :
  Forall (fun r => rs_test_run_id r < run) (run_steps d) ->
  count_steps d run s = 0%nat.
Proof.
  intros H. unfold count_steps. rewrite (get_run_steps_fresh d run H). reflexivity.
Qed.

Lemma status_after_update d id st t e :
  (exists r, In r (test_runs d) /\ run_id r = id) ->
  status_of_run (update_test_run d id st t e) id = Some st.
Proof.
  unfold status_of_run, update_test_run; simpl.
  intros (r & Hin & Hid).
  induction (test_runs d) as [|x l IH]; [contradiction|].
  simpl. destruct (run_id x =? id)%nat eqn:E; simpl.
  - rewrite E. reflexivity.
  - rewrite E. apply IH. destruct Hin as [->|Hin]; [|exact Hin].
    apply Nat.eqb_neq in E. contradiction.
Qed.

Lemma count_steps_update d id st t e run s :
  count_steps (update_test_run d id st t e) run s = count_steps d run s.
Proof. reflexivity. Qed.

(** The status written to the run row is the driver's derivation applied to
    the numbers of step rows recorded as passed, failed and skipped. *)
Lemma run_test_case_status case w0 :
  keys_in_use (db w0) ->
  let r := Drivers.run_test_case session exec clock prepare release derive case w0 in
  status_of_run (db (snd r)) (fst r) =
    Some (derive (count_steps (db (snd r)) (fst r) "passed")
                 (count_steps (db (snd r)) (fst r) "failed")
                 (count_steps (db (snd r)) (fst r) "skipped")).
Proof.
  intros Hk. unfold Drivers.run_test_case. cbn [db sess reads invoked].
  set (p := match case_id case with
            | Some (S n) => (S n, db w0)
            | _ => add_test_case (db w0) case
            end).
  assert (Hp : run_steps (snd p) = run_steps (db w0)
               /\ seq_test_runs (snd p) = seq_test_runs (db w0)).
  { subst p. destruct (case_id case) as [[|n]|]; simpl; auto. }
  destruct p as [tcid d1]. simpl in Hp. destruct Hp as [Hrs Hseq].
  unfold add_test_run.
  set (run := S (seq_test_runs d1)).
  set (d2 := {| test_cases := test_cases d1; test_runs := _; run_steps := run_steps d1;
                seq_test_cases := _; seq_test_runs := run; seq_run_steps := _ |}).
  set (zero := {| passed_steps := 0; failed_steps := 0; skipped_steps := 0;
                  error_message := None |}).
  set (w2 := {| db := d2; sess := prepare (sess w0); reads := S (reads w0);
                invoked := invoked w0 |}).
  assert (H0 : counted run zero (db w2)).
  { assert (Hf : Forall (fun r => rs_test_run_id r < run) (run_steps d2)).
    { simpl. rewrite Hrs. unfold keys_in_use in Hk.
      eapply Forall_impl; [|exact Hk]. simpl. intros a Ha. subst run. lia. }
    unfold counted; simpl. rewrite !count_steps_fresh by exact Hf. auto. }
  pose proof (run_steps_from_counted run (steps case) 0 zero w2 H0) as Hc.
  pose proof (run_steps_from_test_runs run (steps case) 0 zero w2) as Ht.
  destruct (run_steps_from run 0 (steps case) (zero, w2)) as [c w3].
  simpl in Hc, Ht. cbn [fst snd db].
  rewrite !count_steps_update.
  destruct Hc as (Hcp & Hcf & Hcs). rewrite Hcp, Hcf, Hcs.
  apply status_after_update.
  rewrite Ht. simpl. eexists. split; [apply in_or_app; right; left; reflexivity|].
  reflexivity.
Qed.

(** *** Dependency skipping *)

Lemma check_depends_on_blocked d run st v dep :
  Py.dict_get "depends_on" st = Some v ->
  as_int v = Some dep ->
  dependency_unmet d run dep = true ->
  exists msg, check_depends_on d run st = Some msg.
Proof.
  intros Hv Hi Hd. unfold check_depends_on.
  rewrite Hv, Hi, Hd. eexists. reflexivity.
Qed.

Lemma try_step_blocked run idx st w msg :
  check_depends_on (db w) run st = Some msg ->
  try_step run idx st w = (RaisedValueError msg, w).
Proof. intros H. unfold Drivers.try_step. rewrite H. reflexivity. Qed.

Lemma dependency_unmet_intro d run dep row :
  run <> 0%nat ->
  In row (get_run_steps d run) ->
  Z.of_nat (rs_step_index row) = dep ->
  rs_status row = "failed" \/ rs_status row = "skipped" ->
  dependency_unmet d run dep = true.
Proof.
  intros Hrun Hin Hidx Hst. unfold dependency_unmet.
  destruct (run =? 0)%nat eqn:E; [apply Nat.eqb_eq in E; contradiction|].
  apply existsb_exists. exists row. split; [exact Hin|].
  rewrite Hidx, Z.eqb_refl. simpl.
  destruct Hst as [-> | ->]; reflexivity.
Qed.

Lemma get_run_steps_add d run idx status msg t1 t2 :
  get_run_steps (add_run_step d run idx status msg t1 t2) run =
  (get_run_steps d run ++
   [{| rs_id := S (seq_run_steps d); rs_test_run_id := run; rs_step_index := idx;
       rs_status := status; rs_message := msg; rs_started_at := t1;
       rs_ended_at := t2 |}])%list.
Proof.
  unfold get_run_steps, add_run_step; simpl.
  rewrite filter_app; simpl. rewrite Nat.eqb_refl. reflexivity.
Qed.

(** One iteration appends one row, carrying the step's index, and logs an
    invocation of that index unless the dependency check stopped the step. *)
Lemma run_step_rows run idx st c w :
  exists row ext,
    get_run_steps (db (snd (run_step run idx st (c, w)))) run =
      (get_run_steps (db w) run ++ [row])%list
    /\ rs_step_index row = idx
    /\ rs_status row = status_of (fst (try_step run idx st w))
    /\ invoked (snd (run_step run idx st (c, w))) = (invoked w ++ ext)%list
    /\ Forall (fun i => i = idx) ext
    /\ (check_depends_on (db w) run st <> None -> ext = []).
Proof.
  destruct (run_step_shape run idx st c w) as (o & msg & t1 & t2 & c' & E & Eo & _).
  rewrite E. cbn [snd db invoked]. rewrite get_run_steps_add, Eo.
  eexists. unfold Drivers.try_step.
  destruct (check_depends_on (db w) run st) as [m|].
  - exists []. cbn [snd invoked]. rewrite app_nil_r. repeat split; auto.
  - destruct (exec st (sess w)) as [out s']. exists [idx]. cbn [snd invoked].
    repeat split; auto. intros H. contradiction.
Qed.

Lemma run_steps_from_rows run l : forall idx c w,
  exists news ext,
    get_run_steps (db (snd (run_steps_from run idx l (c, w)))) run =
      (get_run_steps (db w) run ++ news)%list
    /\ Forall (fun r => idx <= rs_step_index r) news
    /\ invoked (snd (run_steps_from run idx l (c, w))) = (invoked w ++ ext)%list
    /\ Forall (fun i => idx <= i) ext.
Proof.
  induction l as [|st rest IH]; intros idx c w.
  - exists [], []. simpl. rewrite !app_nil_r. auto.
  - rewrite run_steps_from_cons.
    destruct (run_step_rows run idx st c w) as (row & ext1 & Hr & Hi & _ & Hv & Hext & _).
    destruct (run_step run idx st (c, w)) as [c1 w1]. simpl in Hr, Hv.
    destruct (IH (S idx) c1 w1) as (news & ext & Hn & Hfn & He & Hfe).
    exists (row :: news), (ext1 ++ ext)%list.
    rewrite Hn, Hr, He, Hv, <- !app_assoc. simpl.
    repeat split; auto.
    + constructor; [lia|]. eapply Forall_impl; [|exact Hfn]. simpl; intros; lia.
    + apply Forall_app. split.
      * eapply Forall_impl; [|exact Hext]. simpl; intros; lia.
      * eapply Forall_impl; [|exact Hfe]. simpl; intros; lia.
Qed.

Lemma count_occ_above (l : list nat) (n idx : nat) :
  Forall (fun i => idx <= i) l -> n < idx -> count_occ Nat.eq_dec l n = 0%nat.
Proof.
  intros H Hn. apply count_occ_not_In. intros Hin.
  rewrite Forall_forall in H. specialize (H _ Hin). lia.
Qed.

(** A step that depends on an earlier step recorded as failed or skipped is
    itself recorded as skipped, and the loop does not invoke it. *)
Lemma run_steps_from_dependency run l : forall idx c w,
  run <> 0%nat ->
  Forall (fun r => rs_step_index r < idx) (get_run_steps (db w) run) ->
  forall k st v dep,
    nth_error l k = Some st ->
    Py.dict_get "depends_on" st = Some v ->
    as_int v = Some dep ->
    (dep < Z.of_nat (idx + k))%Z ->
    (exists row, In row (get_run_steps (db (snd (run_steps_from run idx l (c, w)))) run)
                 /\ Z.of_nat (rs_step_index row) = dep
                 /\ (rs_status row = "failed" \/ rs_status row = "skipped")) ->
    (exists row, In row (get_run_steps (db (snd (run_steps_from run idx l (c, w)))) run)
                 /\ rs_step_index row = (idx + k)%nat
                 /\ rs_status row = "skipped")
    /\ count_occ Nat.eq_dec (invoked (snd (run_steps_from run idx l (c, w)))) (idx + k)
       = count_occ Nat.eq_dec (invoked w) (idx + k).
Proof.
  induction l as [|s0 rest IH]; intros idx c w Hrun Hold k st v dep Hnth Hv Hi Hlt Hdep.
  - destruct k; discriminate.
  - rewrite run_steps_from_cons in *.
    destruct (run_step_rows run idx s0 c w) as (row & ext1 & Hr & Hri & Hrs & Hinv & Hext & Hblk).
    destruct (run_step run idx s0 (c, w)) as [c1 w1] eqn:E1. simpl in Hr, Hinv.
    destruct (run_steps_from_rows run rest (S idx) c1 w1) as (news & ext & Hn & Hfn & He & Hfe).
    destruct k as [|k].
    + (* the dependent step is the one executed now *)
      simpl in Hnth. inversion Hnth; subst s0. rewrite Nat.add_0_r in *.
      destruct Hdep as (r & Hrin & Hrd & Hrst).
      assert (Hnow : In r (get_run_steps (db w) run)).
      { rewrite Hn, Hr in Hrin. apply in_app_or in Hrin. destruct Hrin as [Hrin|Hrin].
        - apply in_app_or in Hrin. destruct Hrin as [Hrin|[<-|[]]]; [exact Hrin|].
          exfalso. lia.
        - exfalso. rewrite Forall_forall in Hfn. specialize (Hfn _ Hrin). lia. }
      pose proof (dependency_unmet_intro _ _ _ _ Hrun Hnow Hrd Hrst) as Hun.
      destruct (check_depends_on_blocked _ run st v dep Hv Hi Hun) as (msg & Hchk).
      pose proof (try_step_blocked run idx st w msg Hchk) as Hts.
      assert (Hnone : check_depends_on (db w) run st <> None)
        by (rewrite Hchk; discriminate).
      split.
      * exists row. rewrite Hn, Hr. split.
        { apply in_or_app. left. apply in_or_app. right. left. reflexivity. }
        split; [exact Hri|]. rewrite Hrs, Hts. reflexivity.
      * rewrite He, Hinv, (Hblk Hnone), app_nil_r, count_occ_app.
        rewrite (count_occ_above ext idx (S idx)) by (auto; lia). lia.
    + simpl in Hnth.
      replace (idx + S k)%nat with (S idx + k)%nat in * by lia.
      assert (Hold1 : Forall (fun r => rs_step_index r < S idx) (get_run_steps (db w1) run)).
      { rewrite Hr. apply Forall_app. split.
        - eapply Forall_impl; [|exact Hold]. simpl; intros; lia.
        - constructor; [lia|constructor]. }
      destruct (IH (S idx) c1 w1 Hrun Hold1 k st v dep Hnth Hv Hi Hlt Hdep) as [Hrow Hcnt].
      split; [exact Hrow|].
      rewrite Hcnt, Hinv, count_occ_app.
      assert (count_occ Nat.eq_dec ext1 (S idx + k) = 0%nat).
      { apply count_occ_not_In. intros Hin. rewrite Forall_forall in Hext.
        specialize (Hext _ Hin). lia. }
      lia.
Qed.

Lemma get_run_steps_update d id st t e run :
  get_run_steps (update_test_run d id st t e) run = get_run_steps d run.
Proof. reflexivity. Qed.

Lemma run_test_case_dependents case w0 :
  keys_in_use (db w0) ->
  Spec.dependents_skipped case w0
    (Drivers.run_test_case session exec clock prepare release derive case w0).
Proof.
  intros Hk idx st v i Hnth Hv Hi Hlt Hdep.
  unfold Spec.recorded in *.
  unfold Drivers.run_test_case in *. cbn [db sess reads invoked] in *.
  set (p := match case_id case with
            | Some (S n) => (S n, db w0)
            | _ => add_test_case (db w0) case
            end) in *.
  assert (Hp : run_steps (snd p) = run_steps (db w0)
               /\ seq_test_runs (snd p) = seq_test_runs (db w0)).
  { subst p. destruct (case_id case) as [[|n]|]; simpl; auto. }
  destruct p as [tcid d1]. simpl in Hp. destruct Hp as [Hrs Hseq].
  unfold add_test_run in *.
  set (run := S (seq_test_runs d1)) in *.
  set (d2 := {| test_cases := test_cases d1; test_runs := _; run_steps := run_steps d1;
                seq_test_cases := _; seq_test_runs := run; seq_run_steps := _ |}) in *.
  set (zero := {| passed_steps := 0; failed_steps := 0; skipped_steps := 0;
                  error_message := None |}) in *.
  set (w2 := {| db := d2; sess := prepare (sess w0); reads := S (reads w0);
                invoked := invoked w0 |}) in *.
  assert (Hold : Forall (fun r => rs_step_index r < 0) (get_run_steps (db w2) run)).
  { rewrite get_run_steps_fresh; [constructor|].
    simpl. rewrite Hrs. unfold keys_in_use in Hk.
    eapply Forall_impl; [|exact Hk]. simpl. intros a Ha. subst run. lia. }
  assert (Hrun : run <> 0%nat) by (subst run; lia).
  pose proof (run_steps_from_dependency run (steps case) 0 zero w2 Hrun Hold
                idx st v (Z.of_nat i) Hnth Hv Hi) as H.
  destruct (run_steps_from run 0 (steps case) (zero, w2)) as [c w3].
  cbn [fst snd db invoked] in *. rewrite get_run_steps_update in *.
  simpl in H. apply H; [lia|].
  destruct Hdep as [(row & Hin & Hri & Hst) | (row & Hin & Hri & Hst)];
    exists row; subst i; auto.
Qed.

End Loop.
End DriverFacts.

(** C1.  In each of the three drivers the status written for a run is the
    derivation of section 4.1 applied to the numbers P, F and S of steps the
    run recorded as passed, failed and skipped: skipped when no step was
    executed and one was skipped, else passed when none failed and none
    was skipped, else failed when every executed step failed, else partial. *)
Theorem aggregate_status_in_every_driver :
  forall (session : Type)
         (exec : Recorder.step -> session -> Drivers.exec_outcome * session)
         (clock : nat -> Z) (open close : session -> session)
         (case : Recorder.TestCase) (w : Drivers.world session),
    Recorder.keys_in_use (Drivers.db w) ->
    Spec.status_derived (WebDriver.run_test_case exec clock open close case w)
    /\ Spec.status_derived (APIDriver.run_test_case exec clock case w)
    /\ Spec.status_derived (MobileDriver.run_test_case exec clock open close case w)
    /\ (forall P F S : nat,
          WebDriver.overall_status P F S = Spec.aggregate_status P F S
          /\ APIDriver.overall_status P F S = Spec.aggregate_status P F S
          /\ MobileDriver.overall_status P F S = Spec.aggregate_status P F S).
Proof.
  intros session exec clock open close case w Hk.
  unfold Spec.status_derived.
  split; [|split; [|split; [|intros P F S; repeat split]]].
  - exact (DriverFacts.run_test_case_status session exec clock open close
             WebDriver.overall_status case w Hk).
  - exact (DriverFacts.run_test_case_status session exec clock (fun s => s) (fun s => s)
             APIDriver.overall_status case w Hk).
  - exact (DriverFacts.run_test_case_status session exec clock open close
             MobileDriver.overall_status case w Hk).
Qed.

Lemma aggregate_status_in_every_driver_witness :
  Recorder.keys_in_use (Drivers.db Fixtures.fresh)
  /\ Spec.status_derived
       (WebDriver.run_test_case Fixtures.exec Fixtures.clock (fun s => s) (fun s => s)
          Fixtures.dependent_case Fixtures.fresh)
  /\ Recorder.status_of_run
       (Drivers.db (snd (WebDriver.run_test_case Fixtures.exec Fixtures.clock
                           (fun s => s) (fun s => s)
                           Fixtures.dependent_case Fixtures.fresh))) 1
     = Some "partial".
Proof.
  split; [constructor|]. split.
  - apply (aggregate_status_in_every_driver unit Fixtures.exec Fixtures.clock
             (fun s => s) (fun s => s) Fixtures.dependent_case Fixtures.fresh).
    constructor.
  - reflexivity.
Defined.

(** C4.  In each of the three drivers a step whose [depends_on] is the index
    of an earlier step recorded as failed or skipped is recorded as skipped,
    and [_execute_step] is not invoked for it. *)
Theorem dependent_steps_are_skipped :
  forall (session : Type)
         (exec : Recorder.step -> session -> Drivers.exec_outcome * session)
         (clock : nat -> Z) (open close : session -> session)
         (case : Recorder.TestCase) (w : Drivers.world session),
    Recorder.keys_in_use (Drivers.db w) ->
    Spec.dependents_skipped case w
      (WebDriver.run_test_case exec clock open close case w)
    /\ Spec.dependents_skipped case w (APIDriver.run_test_case exec clock case w)
    /\ Spec.dependents_skipped case w
         (MobileDriver.run_test_case exec clock open close case w).
Proof.
  intros session exec clock open close case w Hk.
  split; [|split]; apply DriverFacts.run_test_case_dependents; exact Hk.
Qed.

Lemma dependent_steps_are_skipped_witness :
  Recorder.keys_in_use (Drivers.db Fixtures.fresh)
  /\ Spec.recorded
       (Drivers.db (snd (APIDriver.run_test_case Fixtures.exec Fixtures.clock
                           Fixtures.dependent_case Fixtures.fresh))) 1 1 "skipped"
  /\ Drivers.invoked (snd (APIDriver.run_test_case Fixtures.exec Fixtures.clock
                             Fixtures.dependent_case Fixtures.fresh)) = [0; 2]%nat.
Proof.
  split; [constructor|]. split.
  - pose proof (dependent_steps_are_skipped unit Fixtures.exec Fixtures.clock
                  (fun s => s) (fun s => s) Fixtures.dependent_case Fixtures.fresh
                  (Forall_nil _)) as (_ & Hapi & _).
    refine (proj1 (Hapi 1%nat [("action", Json.JStr "click"); ("depends_on", Json.JInt 0)]
                     (Json.JInt 0) 0%nat eq_refl eq_refl eq_refl (le_n 1) _)).
    left. eexists. split; [left; reflexivity|]. split; reflexivity.
  - reflexivity.
Defined.

(** C5.  A case without steps is recorded as passed by every driver, where
    the docstring of [WebDriver.run_test_case] and the specification
    announce skipped. *)
Theorem empty_case_is_recorded_passed :
  forall (session : Type)
         (exec : Recorder.step -> session -> Drivers.exec_outcome * session)
         (clock : nat -> Z) (open close : session -> session)
         (cid : option nat) (story set who src : string)
         (w : Drivers.world session),
    let case := {| Recorder.case_id := cid; Recorder.user_story := story;
                   Recorder.test_set := set; Recorder.created_by := who;
                   Recorder.source := src; Recorder.steps := [] |} in
    let web := WebDriver.run_test_case exec clock open close case w in
    let api := APIDriver.run_test_case exec clock case w in
    let mobile := MobileDriver.run_test_case exec clock open close case w in
    Recorder.status_of_run (Drivers.db (snd web)) (fst web) = Some "passed"
    /\ Recorder.status_of_run (Drivers.db (snd api)) (fst api) = Some "passed"
    /\ Recorder.status_of_run (Drivers.db (snd mobile)) (fst mobile) = Some "passed"
    /\ Spec.aggregate_status 0 0 0 = "passed".
Proof.
  intros session exec clock open close cid story set who src w case web api mobile.
  assert (H : forall prepare release derive,
             derive 0%nat 0%nat 0%nat = "passed" ->
             let r := Drivers.run_test_case session exec clock prepare release derive case w in
             Recorder.status_of_run (Drivers.db (snd r)) (fst r) = Some "passed").
  { intros prepare release derive Hd r. subst r.
    unfold Drivers.run_test_case. cbn [Drivers.db Drivers.sess Drivers.reads Drivers.invoked].
    destruct (match Recorder.case_id case with
              | Some (S n) => (S n, Drivers.db w)
              | _ => Recorder.add_test_case (Drivers.db w) case
              end) as [tcid d1].
    simpl. rewrite Hd.
    apply DriverFacts.status_after_update. simpl.
    eexists. split; [apply in_or_app; right; left; reflexivity|reflexivity]. }
  split; [|split; [|split]]; try (apply H; reflexivity). reflexivity.
Qed.



Module DriverMore.
Import Json Recorder Drivers.

Section Loop.

Variable session : Type.
Variable exec : step -> session -> exec_outcome * session.
Variable clock : nat -> Z.
Variable prepare : session -> session.
Variable release : session -> session.
Variable derive : nat -> nat -> nat -> string.

Local Abbreviation run_step := (Drivers.run_step session exec clock).
Local Abbreviation run_steps_from := (Drivers.run_steps_from session exec clock).
Local Abbreviation try_step := (Drivers.try_step session exec).
Local Abbreviation run_test_case :=
  (Drivers.run_test_case session exec clock prepare release derive).

(** The row of one iteration, in full. *)
Lemma run_step_row run idx st c w :
  let o := fst (try_step run idx st w) in
  db (snd (run_step run idx st (c, w))) =
    add_run_step (db w) run idx (status_of o) (message_of o)
      (clock (reads w)) (clock (S (reads w)))
  /\ error_message (fst (run_step run idx st (c, w))) =
     match o with
     | RaisedException msg => Some msg
     | _ => error_message c
     end.
Proof.
  unfold Drivers.run_step.
  pose proof (DriverFacts.try_step_db session exec run idx st w) as Hdb.
  destruct (try_step run idx st w) as [o w1]. simpl in *.
  destruct o; simpl; rewrite Hdb; auto.
Qed.

Lemma status_of_cases o :
  status_of o = "passed" \/ status_of o = "failed" \/ status_of o = "skipped".
Proof. destruct o; simpl; auto. Qed.

Lemma last_failure_snoc l r :
  last_failure (l ++ [r]) =
  if rs_status r =? "failed" then rs_message r else last_failure l.
Proof. unfold last_failure. rewrite fold_left_app. reflexivity. Qed.

(** The loop writes only step rows of its own run. *)
Lemma run_steps_from_frame run l : forall idx c w,
  let r := run_steps_from run idx l (c, w) in
  (forall run', run' <> run ->
     get_run_steps (db (snd r)) run' = get_run_steps (db w) run')
  /\ test_cases (db (snd r)) = test_cases (db w).
Proof.
  induction l as [|st rest IH]; intros idx c w; cbv zeta; [split; reflexivity|].
  rewrite DriverFacts.run_steps_from_cons.
  destruct (run_step_row run idx st c w) as [Hdb _].
  destruct (run_step run idx st (c, w)) as [c1 w1]. cbn [fst snd] in Hdb.
  destruct (IH (S idx) c1 w1) as [Hoth Htc]. split.
  - intros run' Hne. rewrite (Hoth run' Hne), Hdb.
    unfold get_run_steps, add_run_step; simpl. rewrite filter_app. simpl.
    replace (run =? run')%nat with false
      by (symmetry; apply Nat.eqb_neq; congruence).
    apply app_nil_r.
  - rewrite Htc, Hdb. reflexivity.
Qed.

(** After the loop the rows of the run are those it had, followed by one
    row per step, in step order; each carries one of the three step
    statuses; the error message kept is that of the last failed step. *)
Lemma run_steps_from_trace run l : forall idx c w,
  error_message c = last_failure (get_run_steps (db w) run) ->
  let r := run_steps_from run idx l (c, w) in
  exists news,
    get_run_steps (db (snd r)) run = (get_run_steps (db w) run ++ news)%list
    /\ map rs_step_index news = seq idx (List.length l)
    /\ Forall (fun x => rs_status x = "passed" \/ rs_status x = "failed"
                        \/ rs_status x = "skipped") news
    /\ error_message (fst r) = last_failure (get_run_steps (db (snd r)) run)
    /\ (forall run', run' <> run ->
          get_run_steps (db (snd r)) run' = get_run_steps (db w) run')
    /\ test_cases (db (snd r)) = test_cases (db w).
Proof.
  induction l as [|st rest IH]; intros idx c w He; cbv zeta.
  - exists []. simpl. rewrite app_nil_r. repeat split; auto.
  - rewrite DriverFacts.run_steps_from_cons.
    destruct (run_step_row run idx st c w) as [Hdb Herr].
    destruct (run_step run idx st (c, w)) as [c1 w1] eqn:E1. cbn [fst snd] in Hdb, Herr.
    set (o := fst (try_step run idx st w)) in *.
    assert (Hrows : get_run_steps (db w1) run =
                    (get_run_steps (db w) run ++
                     [{| rs_id := S (seq_run_steps (db w)); rs_test_run_id := run;
                         rs_step_index := idx; rs_status := status_of o;
                         rs_message := message_of o;
                         rs_started_at := clock (reads w);
                         rs_ended_at := clock (S (reads w)) |}])%list).
    { rewrite Hdb. apply DriverFacts.get_run_steps_add. }
    assert (He1 : error_message c1 = last_failure (get_run_steps (db w1) run)).
    { rewrite Hrows, last_failure_snoc, Herr. cbn [rs_status rs_message].
      destruct o; simpl; auto. }
    destruct (IH (S idx) c1 w1 He1) as (news & Hn & Hidx & Hst & Hlast & Hoth & Htc).
    eexists (_ :: news). rewrite Hn, Hrows, <- app_assoc. cbn [app].
    split; [reflexivity|]. split; [simpl; rewrite Hidx; reflexivity|].
    split; [constructor; [apply status_of_cases|exact Hst]|].
    split; [rewrite Hlast, Hn, Hrows, <- app_assoc; reflexivity|].
    split.
    + intros run' Hne. rewrite (Hoth run' Hne), Hdb.
      unfold get_run_steps, add_run_step; simpl. rewrite filter_app. simpl.
      replace (run =? run')%nat with false
        by (symmetry; apply Nat.eqb_neq; congruence).
      apply app_nil_r.
    + rewrite Htc, Hdb. reflexivity.
Qed.

Lemma find_run_app_new rows id new :
  find (fun r => (run_id r =? id)%nat) (rows ++ [new]) =
  match find (fun r => (run_id r =? id)%nat) rows with
  | Some r => Some r
  | None => if (run_id new =? id)%nat then Some new else None
  end.
Proof.
  induction rows as [|x l IH]; simpl; [reflexivity|].
  destruct (run_id x =? id)%nat; [reflexivity|exact IH].
Qed.

Lemma find_map_same_key (f : RunRow -> RunRow) id rows :
  (forall x, run_id (f x) = run_id x) ->
  find (fun r => (run_id r =? id)%nat) (map f rows)
  = option_map f (find (fun r => (run_id r =? id)%nat) rows).
Proof.
  intros Hf. induction rows as [|x l IH]; simpl; [reflexivity|].
  rewrite Hf. destruct (run_id x =? id)%nat; [reflexivity|exact IH].
Qed.

Lemma find_run_id id rows r :
  find (fun r => (run_id r =? id)%nat) rows = Some r -> run_id r = id.
Proof. intros H. apply find_some in H. apply Nat.eqb_eq. apply H. Qed.

Lemma find_run_absent id rows :
  Forall (fun r => run_id r < id) rows ->
  find (fun r => (run_id r =? id)%nat) rows = None.
Proof.
  intros H. induction H as [|x l Hx _ IH]; simpl; [reflexivity|].
  replace (run_id x =? id)%nat with false by (symmetry; apply Nat.eqb_neq; lia).
  exact IH.
Qed.

(** [run_test_case] with its intermediate values named. *)
Lemma run_test_case_eq case w0 :
  let p := match case_id case with
           | Some (S n) => (S n, db w0)
           | _ => add_test_case (db w0) case
           end in
  let run := S (seq_test_runs (snd p)) in
  let d2 := snd (add_test_run (snd p) (fst p) "running" (clock (reads w0))
                   (clock (reads w0)) None) in
  let zero := {| passed_steps := 0; failed_steps := 0; skipped_steps := 0;
                 error_message := None |} in
  let lr := run_steps_from run 0 (steps case)
              (zero, {| db := d2; sess := prepare (sess w0); reads := S (reads w0);
                        invoked := invoked w0 |}) in
  run_test_case case w0 =
  (run,
   {| db := update_test_run (db (snd lr)) run
              (derive (passed_steps (fst lr)) (failed_steps (fst lr))
                      (skipped_steps (fst lr)))
              (clock (reads (snd lr))) (error_message (fst lr));
      sess := release (sess (snd lr)); reads := S (reads (snd lr));
      invoked := invoked (snd lr) |}).
Proof.
  cbv zeta. unfold Drivers.run_test_case. cbn [db sess reads invoked].
  destruct (match case_id case with
            | Some (S n) => (S n, db w0)
            | _ => add_test_case (db w0) case
            end) as [tcid d1].
  cbn [fst snd add_test_run].
  destruct (run_steps_from _ 0 (steps case) _) as [c w3]. reflexivity.
Qed.

(** What a whole run leaves in the database. *)
Lemma run_test_case_trace case w0 :
  let r := run_test_case case w0 in
  let run := fst r in
  let d := db (snd r) in
  run = S (seq_test_runs (db w0))
  /\ (forall run', run' <> run ->
         get_run_steps d run' = get_run_steps (db w0) run'
         /\ find (fun x => (run_id x =? run')%nat) (test_runs d)
            = find (fun x => (run_id x =? run')%nat) (test_runs (db w0)))
  /\ test_cases d =
     match case_id case with
     | Some (S n) => test_cases (db w0)
     | _ => (test_cases (db w0) ++ [(S (seq_test_cases (db w0)), case)])%list
     end
  /\ (keys_in_use (db w0) ->
      map rs_step_index (get_run_steps d run) = seq 0 (List.length (steps case))
      /\ Forall (fun x => rs_status x = "passed" \/ rs_status x = "failed"
                          \/ rs_status x = "skipped") (get_run_steps d run)
      /\ error_of_run d run = Some (last_failure (get_run_steps d run)))
  /\ (run_keys_in_use (db w0) ->
      case_of_run d run =
      Some match case_id case with
           | Some (S n) => S n
           | _ => S (seq_test_cases (db w0))
           end).
Proof.
  cbv zeta. rewrite run_test_case_eq. cbn [fst snd db].
  set (p := match case_id case with
            | Some (S n) => (S n, db w0)
            | _ => add_test_case (db w0) case
            end).
  assert (Hp : run_steps (snd p) = run_steps (db w0)
               /\ seq_test_runs (snd p) = seq_test_runs (db w0)
               /\ test_runs (snd p) = test_runs (db w0)
               /\ test_cases (snd p) =
                  match case_id case with
                  | Some (S n) => test_cases (db w0)
                  | _ => (test_cases (db w0) ++ [(S (seq_test_cases (db w0)), case)])%list
                  end
               /\ fst p = match case_id case with
                          | Some (S n) => S n
                          | _ => S (seq_test_cases (db w0))
                          end).
  { subst p. destruct (case_id case) as [[|n]|]; simpl; auto. }
  destruct Hp as (Hrs & Hseq & Htr & Htc & Htcid).
  set (run := S (seq_test_runs (snd p))).
  set (zero := {| passed_steps := 0; failed_steps := 0; skipped_steps := 0;
                  error_message := None |}).
  set (w2 := {| db := snd (add_test_run (snd p) (fst p) "running" (clock (reads w0))
                             (clock (reads w0)) None);
                sess := prepare (sess w0); reads := S (reads w0);
                invoked := invoked w0 |}).
  set (lr := run_steps_from run 0 (steps case) (zero, w2)).
  pose proof (DriverFacts.run_steps_from_test_runs session exec clock run (steps case)
                0 zero w2) as Hruns.
  fold lr in Hruns. cbn [db w2 add_test_run snd test_runs] in Hruns.
  assert (Hsteps2 : forall x, get_run_steps (db w2) x = get_run_steps (db w0) x).
  { intros x. unfold get_run_steps. simpl. rewrite Hrs. reflexivity. }
  assert (Hupd : forall x, get_run_steps
                   (update_test_run (db (snd lr)) run
                      (derive (passed_steps (fst lr)) (failed_steps (fst lr))
                         (skipped_steps (fst lr)))
                      (clock (reads (snd lr))) (error_message (fst lr))) x
                 = get_run_steps (db (snd lr)) x) by reflexivity.
  assert (Hfind : forall x,
             find (fun r => (run_id r =? x)%nat)
               (test_runs (update_test_run (db (snd lr)) run
                      (derive (passed_steps (fst lr)) (failed_steps (fst lr))
                         (skipped_steps (fst lr)))
                      (clock (reads (snd lr))) (error_message (fst lr))))
             = option_map
                 (fun r => if (run_id r =? run)%nat
                           then {| run_id := run_id r;
                                   run_test_case_id := run_test_case_id r;
                                   run_status := derive (passed_steps (fst lr))
                                                   (failed_steps (fst lr))
                                                   (skipped_steps (fst lr));
                                   run_started_at := run_started_at r;
                                   run_ended_at := clock (reads (snd lr));
                                   run_error_message := error_message (fst lr) |}
                           else r)
                 (match find (fun r => (run_id r =? x)%nat) (test_runs (db w0)) with
                  | Some r => Some r
                  | None => if (run =? x)%nat
                            then Some {| run_id := run; run_test_case_id := fst p;
                                         run_status := "running";
                                         run_started_at := clock (reads w0);
                                         run_ended_at := clock (reads w0);
                                         run_error_message := None |}
                            else None
                  end)).
  { intros x. unfold update_test_run; cbn [test_runs].
    rewrite find_map_same_key by (intros y; destruct (run_id y =? run)%nat; reflexivity).
    rewrite Hruns, find_run_app_new, Htr. reflexivity. }
  destruct (run_steps_from_frame run (steps case) 0 zero w2) as [Hoth Hcases].
  fold lr in Hoth, Hcases.
  split; [subst run; rewrite Hseq; reflexivity|].
  split; [|split; [|split]].
  - intros run' Hne. split.
    + rewrite Hupd, (Hoth run' Hne). apply Hsteps2.
    + rewrite Hfind.
      destruct (find (fun r => (run_id r =? run')%nat) (test_runs (db w0))) as [r|] eqn:Ef.
      * simpl. apply find_run_id in Ef.
        replace (run_id r =? run)%nat with false
          by (symmetry; apply Nat.eqb_neq; congruence).
        reflexivity.
      * replace (run =? run')%nat with false
          by (symmetry; apply Nat.eqb_neq; congruence).
        reflexivity.
  - unfold update_test_run; cbn [test_cases]. rewrite Hcases.
    subst w2; cbn [db add_test_run snd test_cases]. exact Htc.
  - intros Hkeys.
    assert (Hnone : get_run_steps (db w2) run = []).
    { rewrite Hsteps2. apply DriverFacts.get_run_steps_fresh.
      unfold keys_in_use in Hkeys. eapply Forall_impl; [|exact Hkeys].
      intros a Ha. cbv beta in Ha. subst run. rewrite Hseq. lia. }
    destruct (run_steps_from_trace run (steps case) 0 zero w2)
      as (news & Hn & Hidx & Hst & Hlast & _).
    { rewrite Hnone. reflexivity. }
    fold lr in Hn, Hlast. rewrite Hnone in Hn. cbn [app] in Hn.
    rewrite Hupd, Hn.
    split; [exact Hidx|]. split; [exact Hst|].
    unfold error_of_run. rewrite Hfind, <- Hn, <- Hlast.
    destruct (find (fun r => (run_id r =? run)%nat) (test_runs (db w0))) as [r|] eqn:Ef.
    + apply find_run_id in Ef. cbn [option_map]. rewrite Ef, Nat.eqb_refl. reflexivity.
    + rewrite Nat.eqb_refl. cbn [option_map run_id]. rewrite Nat.eqb_refl. reflexivity.
  - intros Hkeys. unfold case_of_run. rewrite Hfind.
    rewrite find_run_absent.
    + rewrite Nat.eqb_refl. cbn [option_map run_id]. rewrite Nat.eqb_refl.
      cbn [run_test_case_id]. rewrite Htcid. reflexivity.
    + unfold run_keys_in_use in Hkeys. eapply Forall_impl; [|exact Hkeys].
      intros a Ha. cbv beta in Ha. subst run. rewrite Hseq. lia.
Qed.

(** Without [depends_on] nothing stops the loop from calling
    [_execute_step]. *)
Lemma run_steps_from_invoked run l : forall idx c w,
  Forall (fun st => Py.dict_get "depends_on" st = None) l ->
  invoked (snd (run_steps_from run idx l (c, w)))
  = (invoked w ++ seq idx (List.length l))%list.
Proof.
  induction l as [|st rest IH]; intros idx c w Hl.
  - simpl. rewrite app_nil_r. reflexivity.
  - rewrite DriverFacts.run_steps_from_cons.
    assert (H1 : invoked (snd (run_step run idx st (c, w))) = (invoked w ++ [idx])%list).
    { unfold Drivers.run_step, Drivers.try_step, check_depends_on.
      rewrite (Forall_inv Hl).
      destruct (exec st (sess w)) as [o s1]. destruct o; reflexivity. }
    destruct (run_step run idx st (c, w)) as [c1 w1]. cbn [snd] in H1.
    rewrite (IH (S idx) c1 w1 (Forall_inv_tail Hl)), H1, <- app_assoc. reflexivity.
Qed.

Lemma run_test_case_invoked case w0 :
  Forall (fun st => Py.dict_get "depends_on" st = None) (steps case) ->
  invoked (snd (run_test_case case w0))
  = (invoked w0 ++ seq 0 (List.length (steps case)))%list.
Proof.
  intros Hl. rewrite run_test_case_eq. cbn [snd invoked].
  rewrite (run_steps_from_invoked _ _ _ _ _ Hl). reflexivity.
Qed.

End Loop.
End DriverMore.












Module MCPFacts.
Import MCPBase.

Section Retry.

Variable session : Type.
Variable exec : step -> session -> option string * session.
Variable heal : step -> string -> session -> heal_result * session.
Variable max_retries : Z.

Local Abbreviation retry_loop := (MCPBase.retry_loop session exec heal max_retries).

(** Every failed execution adds one to [attempt], healed or not: when the
    loop stops, the counter has grown by the number of executions, less the
    successful one if there was one. *)
Lemma attempt_counts_every_failure fuel idx st : forall w r w',
  retry_loop fuel idx st w = (r, w') ->
  (attempt w' - attempt w =
   Z.of_nat (executions w') - Z.of_nat (executions w)
   - match r with Completed => 1 | _ => 0 end)%Z.
Proof.
  induction fuel as [|fuel IH]; intros w r w' H; simpl in H.
  - inversion H; subst. lia.
  - destruct (exec st (sess w)) as [[exc|] s1].
    + destruct (heal st exc s1) as [h s2].
      destruct h.
      * apply IH in H. cbn [sess attempt executions sleeps attached] in H. lia.
      * destruct (max_retries <=? attempt w + 1)%Z.
        -- inversion H; subst. cbn [sess attempt executions sleeps attached]. lia.
        -- apply IH in H. cbn [sess attempt executions sleeps attached] in H. lia.
      * destruct (max_retries <=? attempt w + 1)%Z.
        -- inversion H; subst. cbn [sess attempt executions sleeps attached]. lia.
        -- apply IH in H. cbn [sess attempt executions sleeps attached] in H. lia.
    + inversion H; subst. cbn [sess attempt executions sleeps attached]. lia.
Qed.

(** The error is re-raised only once the counter has reached
    [max_retries]. *)
Lemma reraised_at_limit fuel idx st : forall w exc w',
  retry_loop fuel idx st w = (Reraised exc, w') ->
  (max_retries <= attempt w')%Z.
Proof.
  induction fuel as [|fuel IH]; intros w e w' H; simpl in H; [discriminate|].
  destruct (exec st (sess w)) as [[exc|] s1]; [|discriminate].
  destruct (heal st exc s1) as [h s2].
  destruct h; try (apply IH in H; exact H);
    (destruct (max_retries <=? attempt w + 1)%Z eqn:E;
     [inversion H; subst; simpl; apply Z.leb_le; exact E | apply IH in H; exact H]).
Qed.

End Retry.
End MCPFacts.

(** C3.  With [max_retries = 2], a step whose first execution fails and is
    healed, whose second execution fails and is not healed, and whose third
    execution would succeed: [MCPBase.run] re-raises after the second
    execution with the counter at 2, because the healed failure was counted;
    the loop of the docstring and of section 4.1, which leaves a healed
    failure uncounted, sleeps once and completes on the third execution. *)
Theorem healed_failure_consumes_an_attempt :
  let script := [MCPBase.Fails "stale selector" MCPBase.Healed;
                 MCPBase.Fails "timeout" MCPBase.NotHealed;
                 MCPBase.Succeeds] in
  let st : MCPBase.step := [("action", Json.JStr "click")] in
  let code := MCPBase.run (list MCPBase.scripted) MCPBase.script_execute
                MCPBase.script_heal 2 10 [st] script in
  let documented :=
    MCPBase.documented_retry_loop (list MCPBase.scripted) MCPBase.script_execute
      MCPBase.script_heal 2 10 0 st
      {| MCPBase.sess := script; MCPBase.attempt := 0; MCPBase.executions := 0;
         MCPBase.sleeps := 0; MCPBase.attached := [] |} in
  fst code = MCPBase.Reraised "timeout"
  /\ MCPBase.executions (snd code) = 2%nat
  /\ MCPBase.attempt (snd code) = 2%Z
  /\ map MCPBase.att_name (MCPBase.attached (snd code))
     = ["error_step_1_attempt_1"; "error_step_1_attempt_2"]
  /\ fst documented = MCPBase.Completed
  /\ MCPBase.executions (snd documented) = 3%nat
  /\ MCPBase.attempt (snd documented) = 1%Z.
Proof.
  cbv zeta. repeat split; vm_compute; reflexivity.
Qed.


Module MCPMore.
Import MCPBase.

Section Retry.

Variable session : Type.
Variable exec : step -> session -> option string * session.
Variable heal : step -> string -> session -> heal_result * session.
Variable max_retries : Z.

Local Abbreviation retry_loop := (MCPBase.retry_loop session exec heal max_retries).
Local Abbreviation run_from := (MCPBase.run_from session exec heal max_retries).

(** The number of executions a step can take when nothing heals. *)
Local Abbreviation budget a := (Z.max 1 (max_retries - a))%Z.

(** When [_self_heal] never reports success the loop of one step ends
    within its budget, sleeps between executions only, and re-raises only
    with the budget spent. *)
Lemma retry_without_healing idx st :
  (forall st exc s, fst (heal st exc s) <> Healed) ->
  forall fuel w,
    (budget (attempt w) <= Z.of_nat fuel)%Z ->
    let r := retry_loop fuel idx st w in
    fst r <> OutOfFuel
    /\ (Z.of_nat (executions (snd r)) - Z.of_nat (executions w) <= budget (attempt w))%Z
    /\ (1 <= Z.of_nat (executions (snd r)) - Z.of_nat (executions w))%Z
    /\ (Z.of_nat (sleeps (snd r)) - Z.of_nat (sleeps w)
        = Z.of_nat (executions (snd r)) - Z.of_nat (executions w) - 1)%Z
    /\ (forall exc, fst r = Reraised exc ->
          (Z.of_nat (executions (snd r)) - Z.of_nat (executions w)
           = budget (attempt w))%Z).
Proof.
  intros Hheal. induction fuel as [|fuel IH]; intros w Hfuel; cbv zeta.
  - exfalso. lia.
  - cbn [MCPBase.retry_loop].
    destruct (exec st (sess w)) as [[exc|] s1].
    + pose proof (Hheal st exc s1) as Hh.
      destruct (heal st exc s1) as [h s2]. cbn [fst] in Hh.
      assert (Hgo :
        let w2 := {| sess := s2; attempt := (attempt w + 1)%Z;
                     executions := S (executions w); sleeps := sleeps w;
                     attached := (attached w ++
                       [{| att_text := "Step " ++ Py.str_int (Z.of_nat idx + 1)
                                         ++ " failure on attempt "
                                         ++ Py.str_int (attempt w + 1) ++ ": " ++ exc;
                           att_name := "error_step_" ++ Py.str_int (Z.of_nat idx + 1)
                                         ++ "_attempt_"
                                         ++ Py.str_int (attempt w + 1) |}])%list |} in
        let r := if (max_retries <=? attempt w + 1)%Z then (Reraised exc, w2)
                 else retry_loop fuel idx st
                        {| sess := sess w2; attempt := attempt w2;
                           executions := executions w2; sleeps := S (sleeps w2);
                           attached := attached w2 |} in
        fst r <> OutOfFuel
        /\ (Z.of_nat (executions (snd r)) - Z.of_nat (executions w) <= budget (attempt w))%Z
        /\ (1 <= Z.of_nat (executions (snd r)) - Z.of_nat (executions w))%Z
        /\ (Z.of_nat (sleeps (snd r)) - Z.of_nat (sleeps w)
            = Z.of_nat (executions (snd r)) - Z.of_nat (executions w) - 1)%Z
        /\ (forall e, fst r = Reraised e ->
              (Z.of_nat (executions (snd r)) - Z.of_nat (executions w)
               = budget (attempt w))%Z)).
      { cbv zeta. destruct (max_retries <=? attempt w + 1)%Z eqn:E.
        - apply Z.leb_le in E. cbn [fst snd sess attempt executions sleeps attached].
          split; [discriminate|]. repeat split; try intros e _; lia.
        - apply Z.leb_gt in E.
          match goal with |- context [retry_loop fuel idx st ?w'] => set (w3 := w') end.
          destruct (IH w3) as (H1 & H2 & H3 & H4 & H5).
          { subst w3. cbn [attempt]. lia. }
          subst w3. cbn [sess attempt executions sleeps attached] in *.
          split; [exact H1|]. split; [lia|]. split; [lia|]. split; [lia|].
          intros e He. specialize (H5 e He). lia. }
      cbv zeta in Hgo. destruct h; [contradiction| exact Hgo | exact Hgo].
    + cbn [fst snd sess attempt executions sleeps attached].
      split; [discriminate|]. split; [lia|]. split; [lia|]. split; [lia|].
      intros e He. discriminate.
Qed.

(** A whole run under the same assumption. *)
Lemma run_from_without_healing :
  (forall st exc s, fst (heal st exc s) <> Healed) ->
  forall fuel, (budget 0 <= Z.of_nat fuel)%Z ->
  forall steps idx w,
    let r := run_from fuel idx steps w in
    fst r <> OutOfFuel
    /\ (Z.of_nat (executions (snd r)) - Z.of_nat (executions w)
        <= Z.of_nat (List.length steps) * budget 0)%Z
    /\ (fst r = Completed ->
        (Z.of_nat (List.length steps)
         <= Z.of_nat (executions (snd r)) - Z.of_nat (executions w))%Z).
Proof.
  intros Hheal fuel Hfuel.
  induction steps as [|st rest IH]; intros idx w; cbv zeta.
  - cbn [MCPBase.run_from fst snd List.length]. split; [discriminate|]. lia.
  - cbn [MCPBase.run_from].
    match goal with |- context [retry_loop fuel idx st ?w'] => set (w0 := w') end.
    destruct (retry_without_healing idx st Hheal fuel w0) as (H1 & H2 & H3 & _).
    { subst w0. cbn [attempt]. rewrite Z.sub_0_r in *. exact Hfuel. }
    replace (attempt w0) with 0%Z in H2 by reflexivity.
    replace (executions w0) with (executions w) in H2, H3 by reflexivity.
    destruct (retry_loop fuel idx st w0) as [r w1]. cbn [fst snd] in H1, H2, H3.
    rewrite length_cons, Nat2Z.inj_succ.
    destruct r.
    + destruct (IH (S idx) w1) as (I1 & I2 & I3).
      split; [exact I1|]. split; [nia|]. intros Hc. specialize (I3 Hc). lia.
    + cbn [fst snd]. split; [discriminate|]. split; [nia|]. discriminate.
    + contradiction.
Qed.

(** A failure that is healed is retried without looking at [max_retries]. *)
Lemma retry_healed_forever idx st :
  (forall st s, fst (exec st s) <> None) ->
  (forall st exc s, fst (heal st exc s) = Healed) ->
  forall fuel w,
    let r := retry_loop fuel idx st w in
    fst r = OutOfFuel
    /\ executions (snd r) = (executions w + fuel)%nat
    /\ sleeps (snd r) = sleeps w.
Proof.
  intros Hexec Hheal. induction fuel as [|fuel IH]; intros w; cbv zeta.
  - cbn [MCPBase.retry_loop fst snd]. repeat split. lia.
  - cbn [MCPBase.retry_loop].
    pose proof (Hexec st (sess w)) as He.
    destruct (exec st (sess w)) as [[exc|] s1]; [|contradiction].
    pose proof (Hheal st exc s1) as Hh.
    destruct (heal st exc s1) as [h s2]. cbn [fst] in Hh. subst h.
    match goal with |- context [retry_loop fuel idx st ?w'] => set (w2 := w') end.
    destruct (IH w2) as (H1 & H2 & H3). subst w2.
    cbn [sess attempt executions sleeps attached] in *.
    split; [exact H1|]. split; [lia|exact H3].
Qed.

End Retry.
End MCPMore.

(** X10.  When [_self_heal] never reports success, as the default one does
    not, a step is executed at least once and at most max(1, max_retries)
    times, with one sleep between two executions; the error is re-raised
    only after exactly max(1, max_retries) executions. *)
Theorem unhealed_step_is_tried_max_retries_times :
  forall (session : Type)
         (exec : MCPBase.step -> session -> option string * session)
         (heal : MCPBase.step -> string -> session -> MCPBase.heal_result * session)
         (max_retries : Z) (fuel idx : nat) (st : MCPBase.step) (s : session),
    (forall st exc s, fst (heal st exc s) <> MCPBase.Healed) ->
    (Z.max 1 max_retries <= Z.of_nat fuel)%Z ->
    let r := MCPBase.retry_loop session exec heal max_retries fuel idx st
               {| MCPBase.sess := s; MCPBase.attempt := 0; MCPBase.executions := 0;
                  MCPBase.sleeps := 0; MCPBase.attached := [] |} in
    fst r <> MCPBase.OutOfFuel
    /\ (1 <= Z.of_nat (MCPBase.executions (snd r)) <= Z.max 1 max_retries)%Z
    /\ S (MCPBase.sleeps (snd r)) = MCPBase.executions (snd r)
    /\ (forall exc, fst r = MCPBase.Reraised exc ->
          Z.of_nat (MCPBase.executions (snd r)) = Z.max 1 max_retries).
Proof.
  intros session exec heal max_retries fuel idx st s Hheal Hfuel r.
  destruct (MCPMore.retry_without_healing session exec heal max_retries idx st Hheal
              fuel {| MCPBase.sess := s; MCPBase.attempt := 0; MCPBase.executions := 0;
                      MCPBase.sleeps := 0; MCPBase.attached := [] |})
    as (H1 & H2 & H3 & H4 & H5).
  { cbn [MCPBase.attempt]. rewrite Z.sub_0_r. exact Hfuel. }
  fold r in H1, H2, H3, H4, H5.
  cbn [MCPBase.attempt MCPBase.executions MCPBase.sleeps] in H2, H3, H4, H5.
  rewrite Z.sub_0_r in *.
  split; [exact H1|]. split; [lia|]. split; [lia|].
  intros exc He. specialize (H5 exc He). lia.
Qed.

Lemma unhealed_step_is_tried_max_retries_times_witness :
  let exec := fun (_ : MCPBase.step) (s : unit) => (Some "boom", s) in
  let heal := fun (_ : MCPBase.step) (_ : string) (s : unit) => (MCPBase.NotHealed, s) in
  let r := MCPBase.retry_loop unit exec heal 3 5 0 [("action", Json.JStr "click")]
             {| MCPBase.sess := tt; MCPBase.attempt := 0; MCPBase.executions := 0;
                MCPBase.sleeps := 0; MCPBase.attached := [] |} in
  (forall st exc s, fst (heal st exc s) <> MCPBase.Healed)
  /\ (Z.max 1 3 <= Z.of_nat 5)%Z
  /\ fst r = MCPBase.Reraised "boom"
  /\ Z.of_nat (MCPBase.executions (snd r)) = Z.max 1 3.
Proof.
  cbv zeta.
  assert (Hh : forall (st : MCPBase.step) (exc : string) (s : unit),
             fst (MCPBase.NotHealed, s) <> MCPBase.Healed) by (intros; discriminate).
  assert (Hf : (Z.max 1 3 <= Z.of_nat 5)%Z) by (vm_compute; discriminate).
  split; [exact Hh|]. split; [exact Hf|]. split; [reflexivity|].
  exact (proj2 (proj2 (proj2
           (unhealed_step_is_tried_max_retries_times unit
              (fun _ s => (Some "boom", s)) (fun _ _ s => (MCPBase.NotHealed, s))
              3 5 0 [("action", Json.JStr "click")] tt Hh Hf))) "boom" eq_refl).
Defined.

(** X11.  A step that fails at every execution while [_self_heal] reports
    success at every failure is retried without end, whatever
    [max_retries] is: however many iterations the loop is given, it is
    still running after them, has executed the step each time and has
    never slept. *)
Theorem healed_step_is_retried_without_limit :
  forall (session : Type)
         (exec : MCPBase.step -> session -> option string * session)
         (heal : MCPBase.step -> string -> session -> MCPBase.heal_result * session)
         (max_retries : Z) (fuel : nat) (st : MCPBase.step)
         (rest : list MCPBase.step) (s : session),
    (forall st s, fst (exec st s) <> None) ->
    (forall st exc s, fst (heal st exc s) = MCPBase.Healed) ->
    let r := MCPBase.run session exec heal max_retries fuel (st :: rest) s in
    fst r = MCPBase.OutOfFuel
    /\ MCPBase.executions (snd r) = fuel
    /\ MCPBase.sleeps (snd r) = 0%nat.
Proof.
  intros session exec heal max_retries fuel st rest s Hexec Hheal r.
  subst r. unfold MCPBase.run. cbn [MCPBase.run_from].
  cbn [MCPBase.sess MCPBase.executions MCPBase.sleeps MCPBase.attached].
  destruct (MCPMore.retry_healed_forever session exec heal max_retries 0 st Hexec Hheal
              fuel {| MCPBase.sess := s; MCPBase.attempt := 0; MCPBase.executions := 0;
                      MCPBase.sleeps := 0; MCPBase.attached := [] |})
    as (H1 & H2 & H3).
  destruct (MCPBase.retry_loop session exec heal max_retries fuel 0 st _) as [r w1].
  cbn [fst snd] in H1, H2, H3. subst r. cbn [fst snd].
  split; [reflexivity|]. split; [exact H2|exact H3].
Qed.

Lemma healed_step_is_retried_without_limit_witness :
  let exec := fun (_ : MCPBase.step) (s : unit) => (Some "stale", s) in
  let heal := fun (_ : MCPBase.step) (_ : string) (s : unit) => (MCPBase.Healed, s) in
  let r := MCPBase.run unit exec heal 3 50 [[("action", Json.JStr "click")]] tt in
  (forall st s, fst (exec st s) <> None)
  /\ (forall st exc s, fst (heal st exc s) = MCPBase.Healed)
  /\ fst r = MCPBase.OutOfFuel
  /\ MCPBase.executions (snd r) = 50%nat.
Proof.
  cbv zeta.
  assert (He : forall (st : MCPBase.step) (s : unit),
             fst (Some "stale", s) <> None) by (intros; discriminate).
  assert (Hh : forall (st : MCPBase.step) (exc : string) (s : unit),
             fst (MCPBase.Healed, s) = MCPBase.Healed) by reflexivity.
  split; [exact He|]. split; [exact Hh|].
  pose proof (healed_step_is_retried_without_limit unit
                (fun _ s => (Some "stale", s)) (fun _ _ s => (MCPBase.Healed, s))
                3 50 [("action", Json.JStr "click")] [] tt He Hh) as (H1 & H2 & _).
  split; [exact H1|exact H2].
Defined.

(** X12.  When [_self_heal] never reports success, [run] ends for every
    list of steps, by completing or by re-raising: it calls
    [_execute_step] at most len(steps) * max(1, max_retries) times, and at
    least once per step when it completes. *)
Theorem run_without_healing_ends :
  forall (session : Type)
         (exec : MCPBase.step -> session -> option string * session)
         (heal : MCPBase.step -> string -> session -> MCPBase.heal_result * session)
         (max_retries : Z) (fuel : nat) (steps : list MCPBase.step) (s : session),
    (forall st exc s, fst (heal st exc s) <> MCPBase.Healed) ->
    (Z.max 1 max_retries <= Z.of_nat fuel)%Z ->
    let r := MCPBase.run session exec heal max_retries fuel steps s in
    fst r <> MCPBase.OutOfFuel
    /\ (Z.of_nat (MCPBase.executions (snd r))
        <= Z.of_nat (List.length steps) * Z.max 1 max_retries)%Z
    /\ (fst r = MCPBase.Completed ->
        List.length steps <= MCPBase.executions (snd r)).
Proof.
  intros session exec heal max_retries fuel steps s Hheal Hfuel r.
  destruct (MCPMore.run_from_without_healing session exec heal max_retries Hheal fuel)
    with (steps := steps) (idx := 0%nat)
         (w := {| MCPBase.sess := s; MCPBase.attempt := 0; MCPBase.executions := 0;
                  MCPBase.sleeps := 0; MCPBase.attached := [] |})
    as (H1 & H2 & H3).
  { rewrite Z.sub_0_r. exact Hfuel. }
  rewrite Z.sub_0_r in H2. cbn [MCPBase.executions] in H2, H3.
  split; [exact H1|]. split; [subst r; unfold MCPBase.run; lia|].
  intros Hc. specialize (H3 Hc). subst r; unfold MCPBase.run. lia.
Qed.

Lemma run_without_healing_ends_witness :
  let steps := [[("action", Json.JStr "click")]; [("action", Json.JStr "fill")]] in
  let script := [MCPBase.Fails "timeout" MCPBase.NotHealed; MCPBase.Succeeds] in
  let heal := fun (_ : MCPBase.step) (_ : string) (s : list MCPBase.scripted) =>
                (MCPBase.NotHealed, tl s) in
  let r := MCPBase.run (list MCPBase.scripted) MCPBase.script_execute heal 2 2
             steps script in
  (forall st exc s, fst (heal st exc s) <> MCPBase.Healed)
  /\ (Z.max 1 2 <= Z.of_nat 2)%Z
  /\ fst r <> MCPBase.OutOfFuel
  /\ MCPBase.executions (snd r) = 3%nat.
Proof.
  cbv zeta.
  assert (Hh : forall (st : MCPBase.step) (exc : string) (s : list MCPBase.scripted),
             fst (MCPBase.NotHealed, tl s) <> MCPBase.Healed) by (intros; discriminate).
  assert (Hf : (Z.max 1 2 <= Z.of_nat 2)%Z) by (vm_compute; discriminate).
  split; [exact Hh|]. split; [exact Hf|]. split; [|reflexivity].
  exact (proj1 (run_without_healing_ends (list MCPBase.scripted) MCPBase.script_execute
                  (fun _ _ s => (MCPBase.NotHealed, tl s)) 2 2
                  [[("action", Json.JStr "click")]; [("action", Json.JStr "fill")]]
                  [MCPBase.Fails "timeout" MCPBase.NotHealed; MCPBase.Succeeds] Hh Hf)).
Defined.


Module LocatorFacts.
Import LocatorStore.

Lemma for_key_retired now ctx key r :
  for_key ctx key (retired now r) = for_key ctx key r.
Proof. reflexivity. Qed.

Lemma retired_inactive now r : is_active r = false -> retired now r = r.
Proof. destruct r; simpl; intros ->; reflexivity. Qed.

(** The UPDATE retires the rows of the key and leaves the others alone. *)
Lemma rows_of_deactivate now ctx key st :
  rows_of ctx key (deactivate now ctx key st) = map (retired now) (rows_of ctx key st).
Proof.
  unfold rows_of, deactivate; simpl.
  induction (rows st) as [|r l IH]; simpl; [reflexivity|].
  destruct (for_key ctx key r) eqn:Ek; simpl.
  - destruct (is_active r) eqn:Ea; simpl.
    + unfold for_key in *; simpl. rewrite Ek; simpl. rewrite IH.
      unfold retired. rewrite Ea. reflexivity.
    + rewrite Ek; simpl. rewrite IH, (retired_inactive now r Ea). reflexivity.
  - rewrite Ek. exact IH.
Qed.

Lemma active_rows_deactivate now ctx key st :
  active_rows ctx key (deactivate now ctx key st) = [].
Proof.
  unfold active_rows, deactivate; simpl.
  induction (rows st) as [|r l IH]; simpl; [reflexivity|].
  destruct (for_key ctx key r && is_active r) eqn:E; simpl.
  - unfold for_key in *; simpl. rewrite andb_false_r. exact IH.
  - rewrite E. exact IH.
Qed.

Lemma no_active_after_deactivate now ctx key st :
  existsb (fun r => for_key ctx key r && is_active r)
          (rows (deactivate now ctx key st)) = false.
Proof.
  pose proof (active_rows_deactivate now ctx key st) as H.
  unfold active_rows in H.
  induction (rows (deactivate now ctx key st)) as [|r l IH]; simpl in *; [reflexivity|].
  destruct (for_key ctx key r && is_active r); [discriminate|]. simpl. auto.
Qed.

Lemma fold_max_some (l : list LocatorRow) : forall m,
  fold_left (fun acc r => match acc with
                          | None => Some (version r)
                          | Some m => Some (Z.max m (version r))
                          end) l (Some m)
  = Some (fold_left Z.max (map version l) m).
Proof. induction l as [|r l IH]; intros m; simpl; [reflexivity|apply IH]. Qed.

Lemma max_version_maximum ctx key st :
  max_version ctx key st = maximum (map version (rows_of ctx key st)).
Proof.
  unfold max_version, rows_of.
  destruct (filter (for_key ctx key) (rows st)) as [|r l]; simpl; [reflexivity|].
  apply fold_max_some.
Qed.

Lemma map_version_retired now l :
  map version (map (retired now) l) = map version l.
Proof. rewrite map_map. reflexivity. Qed.

Lemma active_rows_snoc ctx key l r q :
  active_rows ctx key {| rows := l ++ [r]; seq := q |} =
  (filter (fun x => for_key ctx key x && is_active x) l
   ++ (if for_key ctx key r && is_active r then [r] else []))%list.
Proof. unfold active_rows; simpl. rewrite filter_app. reflexivity. Qed.

Lemma rows_of_snoc ctx key l r q :
  rows_of ctx key {| rows := l ++ [r]; seq := q |} =
  (filter (for_key ctx key) l ++ (if for_key ctx key r then [r] else []))%list.
Proof. unfold rows_of; simpl. rewrite filter_app. reflexivity. Qed.

(** What a successful call leaves behind. *)
Lemma add_locator_at_ok now1 now2 st ctx key locator ltype lvalue :
  Py.dict_get "type" locator = Some ltype ->
  Py.dict_get "value" locator = Some lvalue ->
  ltype <> "" -> lvalue <> "" ->
  Spec.locator_added now1 now2 st ctx key ltype lvalue
    (add_locator_at now1 now2 st ctx key locator).
Proof.
  intros Ht Hv Hnt Hnv. unfold Spec.locator_added, add_locator_at.
  rewrite Ht, Hv. unfold Py.truthy_str.
  destruct (String.eqb_spec ltype ""); [contradiction|].
  destruct (String.eqb_spec lvalue ""); [contradiction|]. simpl.
  unfold insert_row. rewrite no_active_after_deactivate.
  rewrite max_version_maximum, rows_of_deactivate, map_version_retired.
  eexists. split; [reflexivity|]. cbn [snd].
  rewrite active_rows_snoc, rows_of_snoc.
  fold (active_rows ctx key (deactivate now1 ctx key st)).
  fold (rows_of ctx key (deactivate now1 ctx key st)).
  rewrite active_rows_deactivate, rows_of_deactivate.
  unfold for_key; cbn [context step_key is_active]. rewrite !String.eqb_refl.
  simpl. auto.
Qed.

(** A call that fails validation raises [ValueError] and leaves the store
    as it was. *)
Lemma add_locator_at_invalid now1 now2 st ctx key locator :
  Py.truthy_opt (Py.dict_get "type" locator) = false
  \/ Py.truthy_opt (Py.dict_get "value" locator) = false ->
  add_locator_at now1 now2 st ctx key locator =
    (Raised (ValueError "Locator must have 'type' and 'value' fields"), st).
Proof.
  intros H. unfold add_locator_at.
  destruct (Py.dict_get "type" locator) as [t|], (Py.dict_get "value" locator) as [v|];
    simpl in H; try reflexivity.
  destruct H as [-> | ->]; simpl; [reflexivity|].
  rewrite orb_true_r. reflexivity.
Qed.

End LocatorFacts.

(** C2.  After a call of [add_locator] that passes validation, in either
    class, the only active record of the (context, step_key) pair is the
    inserted one, its version is 1 plus the largest version the pair had
    (1 when it had none), and the records the pair had are all still stored,
    inactive. *)
Theorem add_locator_keeps_one_active_version :
  forall (now1 now2 : string) (st : LocatorStore.Store) (ctx key : string)
         (locator : list (string * string)) (ltype lvalue : string),
    Py.dict_get "type" locator = Some ltype ->
    Py.dict_get "value" locator = Some lvalue ->
    ltype <> "" -> lvalue <> "" ->
    Spec.locator_added now1 now2 st ctx key ltype lvalue
      (LocatorRepo.add_locator now1 now2 st ctx key locator)
    /\ Spec.locator_added now1 now1 st ctx key ltype lvalue
         (LocatorRepository.add_locator now1 st ctx key locator).
Proof.
  intros now1 now2 st ctx key locator ltype lvalue Ht Hv Hnt Hnv.
  split; apply LocatorFacts.add_locator_at_ok; assumption.
Qed.

Lemma add_locator_keeps_one_active_version_witness :
  let r := LocatorRepository.add_locator "2024-02-02T00:00:00" Fixtures.login_store
             "ui" "click:Login" [("type", "xpath"); ("value", "//button")] in
  Spec.locator_added "2024-02-02T00:00:00" "2024-02-02T00:00:00" Fixtures.login_store
    "ui" "click:Login" "xpath" "//button" r
  /\ map LocatorStore.version (LocatorStore.active_rows "ui" "click:Login" (snd r)) = [2%Z]
  /\ map LocatorStore.is_active (LocatorStore.rows (snd r)) = [false; true].
Proof.
  cbv zeta. split.
  - apply (add_locator_keeps_one_active_version "2024-02-02T00:00:00" "2024-02-02T00:00:00"
             Fixtures.login_store "ui" "click:Login"
             [("type", "xpath"); ("value", "//button")] "xpath" "//button");
      [reflexivity | reflexivity | discriminate | discriminate].
  - split; reflexivity.
Defined.

(** C10.  When the locator mapping has no [type] or no [value], or an empty
    one, [add_locator] of either class raises [ValueError] and the store is
    the one it was given: no row is added and the active locator of the
    pair is the same as before. *)
Theorem invalid_locator_leaves_store_unchanged :
  forall (now1 now2 : string) (st : LocatorStore.Store) (ctx key : string)
         (locator : list (string * string)),
    Py.truthy_opt (Py.dict_get "type" locator) = false
    \/ Py.truthy_opt (Py.dict_get "value" locator) = false ->
    (exists msg,
        LocatorRepo.add_locator now1 now2 st ctx key locator
        = (LocatorStore.Raised (LocatorStore.ValueError msg), st))
    /\ (exists msg,
           LocatorRepository.add_locator now1 st ctx key locator
           = (LocatorStore.Raised (LocatorStore.ValueError msg), st))
    /\ LocatorStore.get_locator
         (snd (LocatorRepo.add_locator now1 now2 st ctx key locator)) ctx key
       = LocatorStore.get_locator st ctx key.
Proof.
  intros now1 now2 st ctx key locator H.
  unfold LocatorRepo.add_locator, LocatorRepository.add_locator.
  rewrite !(LocatorFacts.add_locator_at_invalid _ _ st ctx key locator H).
  split; [eexists; reflexivity|]. split; [eexists; reflexivity|reflexivity].
Qed.

Lemma invalid_locator_leaves_store_unchanged_witness :
  Py.truthy_opt (Py.dict_get "value" [("type", "css"); ("value", "")]) = false
  /\ (exists msg,
         LocatorRepo.add_locator "t1" "t2" Fixtures.login_store "ui" "click:Login"
           [("type", "css"); ("value", "")]
         = (LocatorStore.Raised (LocatorStore.ValueError msg), Fixtures.login_store))
  /\ LocatorStore.get_locator Fixtures.login_store "ui" "click:Login"
     = Some ("css", "#login").
Proof.
  split; [reflexivity|]. split; [|reflexivity].
  exact (proj1 (invalid_locator_leaves_store_unchanged "t1" "t2" Fixtures.login_store
                  "ui" "click:Login" [("type", "css"); ("value", "")]
                  (or_intror eq_refl))).
Defined.


Module LocatorMore.
Import LocatorStore.

Lemma truthy_str_neq s : Py.truthy_str s = true <-> s <> "".
Proof.
  unfold Py.truthy_str. destruct (String.eqb_spec s ""); simpl; split; intros; congruence.
Qed.

(** Either the call raises [ValueError] and returns the store, or the
    locator is valid and the store is the one [Spec.locator_added] tells. *)
Lemma add_locator_at_cases now1 now2 st ctx key locator :
  (exists msg, add_locator_at now1 now2 st ctx key locator = (Raised (ValueError msg), st))
  \/ (exists ltype lvalue,
        Py.dict_get "type" locator = Some ltype
        /\ Py.dict_get "value" locator = Some lvalue
        /\ Spec.locator_added now1 now2 st ctx key ltype lvalue
             (add_locator_at now1 now2 st ctx key locator)).
Proof.
  destruct (Py.truthy_opt (Py.dict_get "type" locator)) eqn:Et.
  - destruct (Py.truthy_opt (Py.dict_get "value" locator)) eqn:Ev.
    + right. destruct (Py.dict_get "type" locator) as [t|] eqn:Ht; [|discriminate].
      destruct (Py.dict_get "value" locator) as [v|] eqn:Hv; [|discriminate].
      exists t, v. split; [reflexivity|]. split; [reflexivity|].
      simpl in Et, Ev.
      apply LocatorFacts.add_locator_at_ok; auto; apply truthy_str_neq; assumption.
    + left. eexists. apply LocatorFacts.add_locator_at_invalid. right. exact Ev.
  - left. eexists. apply LocatorFacts.add_locator_at_invalid. left. exact Et.
Qed.

Lemma get_locator_single ctx key st r :
  active_rows ctx key st = [r] ->
  get_locator st ctx key = Some (locator_type r, locator_value r).
Proof.
  unfold get_locator, active_rows. intros ->. reflexivity.
Qed.

Lemma for_key_other ctx key ctx' key' r :
  ctx' <> ctx \/ key' <> key ->
  for_key ctx key r = true -> for_key ctx' key' r = false.
Proof.
  unfold for_key. intros Hd H. apply andb_prop in H. destruct H as [Hc Hk].
  apply String.eqb_eq in Hc. apply String.eqb_eq in Hk.
  destruct Hd as [Hd|Hd].
  - destruct (String.eqb_spec (context r) ctx'); [congruence|reflexivity].
  - destruct (String.eqb_spec (step_key r) key'); [congruence|apply andb_false_r].
Qed.

(** The UPDATE does not touch the rows of another pair. *)
Lemma filter_deactivate_other (p : LocatorRow -> bool) now ctx key ctx' key' st :
  ctx' <> ctx \/ key' <> key ->
  filter (fun r => for_key ctx' key' r && p r) (rows (deactivate now ctx key st))
  = filter (fun r => for_key ctx' key' r && p r) (rows st).
Proof.
  intros Hd. unfold deactivate; simpl.
  induction (rows st) as [|r l IH]; simpl; [reflexivity|].
  destruct (for_key ctx key r && is_active r) eqn:E; simpl.
  - apply andb_prop in E. destruct E as [Ek _].
    pose proof (for_key_other ctx key ctx' key' r Hd Ek) as Ho.
    unfold for_key in Ho |- *; simpl. rewrite Ho. simpl. exact IH.
  - rewrite IH. reflexivity.
Qed.

Lemma add_locator_at_other_filter (p : LocatorRow -> bool) now1 now2 st ctx key locator
      ctx' key' :
  ctx' <> ctx \/ key' <> key ->
  filter (fun r => for_key ctx' key' r && p r)
         (rows (snd (add_locator_at now1 now2 st ctx key locator)))
  = filter (fun r => for_key ctx' key' r && p r) (rows st).
Proof.
  intros Hd.
  destruct (add_locator_at_cases now1 now2 st ctx key locator)
    as [(msg & ->) | (t & v & _ & _ & (ins & E & _ & Hins & _))]; [reflexivity|].
  rewrite E. cbn [snd rows]. rewrite filter_app, filter_deactivate_other by exact Hd.
  simpl.
  assert (Hk : for_key ctx key ins = true).
  { rewrite Hins. unfold for_key; simpl. rewrite !String.eqb_refl. reflexivity. }
  rewrite (for_key_other ctx key ctx' key' ins Hd Hk). simpl. apply app_nil_r.
Qed.

Lemma rows_of_as_filter ctx key st :
  rows_of ctx key st = filter (fun r => for_key ctx key r && true) (rows st).
Proof.
  unfold rows_of. apply filter_ext. intros r. rewrite andb_true_r. reflexivity.
Qed.

Lemma maximum_upper l m : maximum l = Some m -> Forall (fun x => (x <= m)%Z) l.
Proof.
  destruct l as [|x r]; [discriminate|]. simpl. intros H. inversion H; subst. clear H.
  assert (G : forall r a, (a <= fold_left Z.max r a)%Z
                          /\ Forall (fun y => (y <= fold_left Z.max r a)%Z) r).
  { clear. induction r as [|y r IH]; intros a; simpl.
    - split; [lia|constructor].
    - destruct (IH (Z.max a y)) as [H1 H2]. split; [lia|].
      constructor; [lia|exact H2]. }
  destruct (G r x) as [H1 H2]. constructor; assumption.
Qed.

Lemma sorted_snoc l x :
  StronglySorted Z.lt l -> Forall (fun y => (y < x)%Z) l ->
  StronglySorted Z.lt (l ++ [x]).
Proof.
  intros Hs Hf. induction Hs as [|y l Hs IH Hy]; simpl.
  - constructor; constructor.
  - inversion Hf; subst. constructor; [apply IH; assumption|].
    apply Forall_app. split; [exact Hy|]. constructor; [assumption|constructor].
Qed.

End LocatorMore.

(** X1.  After a valid [add_locator], in either class, [get_locator] for
    the same context and step key returns the type and value just stored. *)
Theorem get_locator_returns_added_locator :
  forall (now1 now2 : string) (st : LocatorStore.Store) (ctx key : string)
         (locator : list (string * string)) (ltype lvalue : string),
    Py.dict_get "type" locator = Some ltype ->
    Py.dict_get "value" locator = Some lvalue ->
    ltype <> "" -> lvalue <> "" ->
    LocatorStore.get_locator
      (snd (LocatorRepo.add_locator now1 now2 st ctx key locator)) ctx key
    = Some (ltype, lvalue)
    /\ LocatorStore.get_locator
         (snd (LocatorRepository.add_locator now1 st ctx key locator)) ctx key
       = Some (ltype, lvalue).
Proof.
  intros now1 now2 st ctx key locator ltype lvalue Ht Hv Hnt Hnv.
  assert (G : forall n1 n2,
             LocatorStore.get_locator
               (snd (LocatorStore.add_locator_at n1 n2 st ctx key locator)) ctx key
             = Some (ltype, lvalue)).
  { intros n1 n2.
    destruct (LocatorFacts.add_locator_at_ok n1 n2 st ctx key locator ltype lvalue
                Ht Hv Hnt Hnv) as (ins & _ & Hact & Hins & _).
    rewrite (LocatorMore.get_locator_single _ _ _ _ Hact), Hins. reflexivity. }
  split; apply G.
Qed.

Lemma get_locator_returns_added_locator_witness :
  LocatorStore.get_locator Fixtures.login_store "ui" "click:Login" = Some ("css", "#login")
  /\ LocatorStore.get_locator
       (snd (LocatorRepo.add_locator "t1" "t2" Fixtures.login_store "ui" "click:Login"
               [("type", "xpath"); ("value", "//button")])) "ui" "click:Login"
     = Some ("xpath", "//button").
Proof.
  split; [reflexivity|].
  exact (proj1 (get_locator_returns_added_locator "t1" "t2" Fixtures.login_store
                  "ui" "click:Login" [("type", "xpath"); ("value", "//button")]
                  "xpath" "//button" eq_refl eq_refl
                  ltac:(discriminate) ltac:(discriminate))).
Defined.

(** X2.  [add_locator], whether it succeeds or raises, leaves every other
    (context, step_key) pair as it was: the same rows, and the same answer
    from [get_locator]. *)
Theorem add_locator_leaves_other_keys_alone :
  forall (now1 now2 : string) (st : LocatorStore.Store) (ctx key : string)
         (locator : list (string * string)) (ctx' key' : string),
    ctx' <> ctx \/ key' <> key ->
    let st' := snd (LocatorStore.add_locator_at now1 now2 st ctx key locator) in
    LocatorStore.rows_of ctx' key' st' = LocatorStore.rows_of ctx' key' st
    /\ LocatorStore.get_locator st' ctx' key' = LocatorStore.get_locator st ctx' key'.
Proof.
  intros now1 now2 st ctx key locator ctx' key' Hd st'. subst st'. split.
  - rewrite !LocatorMore.rows_of_as_filter.
    apply LocatorMore.add_locator_at_other_filter. exact Hd.
  - unfold LocatorStore.get_locator.
    rewrite (LocatorMore.add_locator_at_other_filter LocatorStore.is_active). 
    + reflexivity.
    + exact Hd.
Qed.

Lemma add_locator_leaves_other_keys_alone_witness :
  ("ui" <> "mobile" \/ "click:Login" <> "click:Login")
  /\ LocatorStore.get_locator
       (snd (LocatorStore.add_locator_at "t1" "t2" Fixtures.login_store "mobile"
               "click:Login" [("type", "id"); ("value", "login")])) "ui" "click:Login"
     = LocatorStore.get_locator Fixtures.login_store "ui" "click:Login".
Proof.
  assert (H : "ui" <> "mobile" \/ "click:Login" <> "click:Login")
    by (left; discriminate).
  split; [exact H|].
  exact (proj2 (add_locator_leaves_other_keys_alone "t1" "t2" Fixtures.login_store
                  "mobile" "click:Login" [("type", "id"); ("value", "login")]
                  "ui" "click:Login" H)).
Defined.



(** X4.  The two classes compute the same step key for every step that has
    a [selector], a [locator] or one of the fields [element], [label],
    [text], [value], [placeholder], and for every step without a [target]:
    they can only differ on a step described by its [target] alone. *)
Theorem step_keys_agree_without_target :
  forall step : Json.dict,
    Py.dict_get "target" step = None
    \/ Py.dict_get "selector" step <> None
    \/ Py.dict_get "locator" step <> None
    \/ LocatorRepo.first_present LocatorRepo.descriptive_fields step <> None ->
    LocatorRepo.compute_step_key step = LocatorRepository.compute_step_key step.
Proof.
  intros step H.
  unfold LocatorRepo.compute_step_key, LocatorRepository.compute_step_key.
  destruct (Py.dict_get "selector" step) as [s|]; [reflexivity|].
  destruct (Py.dict_get "locator" step) as [l|]; [reflexivity|].
  assert (E : LocatorRepo.first_present LocatorRepository.descriptive_fields step =
              match LocatorRepo.first_present LocatorRepo.descriptive_fields step with
              | Some v => Some v
              | None => Py.dict_get "target" step
              end).
  { unfold LocatorRepository.descriptive_fields, LocatorRepo.descriptive_fields. simpl.
    repeat match goal with
           | |- context [Py.dict_get ?k step] =>
               lazymatch k with
               | "target" => fail
               | _ => destruct (Py.dict_get k step); [reflexivity|]
               end
           end.
    destruct (Py.dict_get "target" step); reflexivity. }
  rewrite E.
  destruct (LocatorRepo.first_present LocatorRepo.descriptive_fields step) as [v|];
    [reflexivity|].
  destruct H as [-> | [H | [H | H]]]; [reflexivity| | |]; contradiction.
Qed.

Lemma step_keys_agree_without_target_witness :
  Py.dict_get "target" [("action", Json.JStr "fill"); ("label", Json.JStr "Email")] = None
  /\ LocatorRepo.compute_step_key
       [("action", Json.JStr "fill"); ("label", Json.JStr "Email")]
     = LocatorRepository.compute_step_key
         [("action", Json.JStr "fill"); ("label", Json.JStr "Email")].
Proof.
  split; [reflexivity|].
  exact (step_keys_agree_without_target
           [("action", Json.JStr "fill"); ("label", Json.JStr "Email")]
           (or_introl eq_refl)).
Defined.


Module WebFacts.
Import Json WebSteps.

Lemma from_stored_nonempty ltype lvalue : lvalue <> "" -> from_stored ltype lvalue <> "".
Proof.
  intros H. unfold from_stored.
  destruct (existsb _ _); [exact H|].
  destruct (Py.lower ltype =? "xpath"); [discriminate|].
  destruct (Py.lower ltype =? "text"); [discriminate|exact H].
Qed.

Section Steps.

Variable Page : Type.
Variable goto : json -> Page -> option exn * Page.
Variable stabilise_webview : Page -> option exn * Page.
Variable wait_for_page_stable : Page -> option exn * Page.
Variable wait_for_element_ui : json -> Page -> option exn * Page.
Variable click : json -> Page -> option exn * Page.
Variable fill : json -> string -> Page -> option exn * Page.
Variable inner_text : json -> Page -> (string + exn) * Page.
Variable suggest_ui_locator : string -> option string.
Variable utcnow : nat -> string.

Local Abbreviation prepare_selector :=
  (WebSteps.prepare_selector Page suggest_ui_locator utcnow).

(** A locator the repository holds decides the selector. *)
Lemma prepare_selector_stored step (s : session Page) ltype lvalue :
  LocatorStore.get_locator (loc_repo s) "ui" (LocatorRepository.compute_step_key step)
  = Some (ltype, lvalue) ->
  lvalue <> "" ->
  prepare_selector step s = (None, JStr (from_stored ltype lvalue), s).
Proof.
  intros Hs Hv. unfold WebSteps.prepare_selector. rewrite Hs.
  cbn [truthy].
  rewrite (proj2 (LocatorMore.truthy_str_neq _) (from_stored_nonempty ltype lvalue Hv)).
  reflexivity.
Qed.

(** Storing a suggestion cannot fail, so the block raises nothing. *)
Lemma prepare_selector_raises_nothing step (s : session Page) :
  fst (fst (prepare_selector step s)) = None
  /\ _page (snd (prepare_selector step s)) = _page s.
Proof.
  unfold WebSteps.prepare_selector.
  destruct (truthy _); [split; reflexivity|].
  destruct (first_truthy fallback_fields step); [split; reflexivity|].
  destruct (suggest_ui_locator _) as [suggestion|]; [|split; reflexivity].
  destruct (Py.truthy_str suggestion) eqn:E; [|split; reflexivity].
  unfold LocatorRepository.add_locator.
  destruct (LocatorFacts.add_locator_at_ok (utcnow (clock_reads s)) (utcnow (clock_reads s))
              (loc_repo s) "ui" (LocatorRepository.compute_step_key step)
              [("type", "css"); ("value", suggestion)] "css" suggestion
              eq_refl eq_refl ltac:(discriminate)
              (proj1 (LocatorMore.truthy_str_neq _) E)) as (ins & -> & _).
  split; reflexivity.
Qed.

End Steps.
End WebFacts.

(** X22.  A locator stored for the step decides the selector of a web
    step, whatever the step's own [selector] field says: with a non-empty
    stored value the selector is the value itself for the types css,
    selector, aria and role and for unknown types, and the value prefixed
    with [xpath=] or [text=] for those two types; neither the translator
    nor the repository is touched. *)
Theorem stored_locator_decides_selector :
  forall (Page : Type) (suggest_ui_locator : string -> option string)
         (utcnow : nat -> string) (step : Json.dict) (s : WebSteps.session Page)
         (ltype lvalue : string),
    LocatorStore.get_locator (WebSteps.loc_repo s) "ui"
      (LocatorRepository.compute_step_key step) = Some (ltype, lvalue) ->
    lvalue <> "" ->
    WebSteps.prepare_selector Page suggest_ui_locator utcnow step s
    = (None, Json.JStr (WebSteps.from_stored ltype lvalue), s)
    /\ (forall t, In t ["css"; "selector"; "aria"; "role"] ->
          Py.lower ltype = t -> WebSteps.from_stored ltype lvalue = lvalue)
    /\ (Py.lower ltype = "xpath" ->
        WebSteps.from_stored ltype lvalue = "xpath=" ++ lvalue)
    /\ (Py.lower ltype = "text" ->
        WebSteps.from_stored ltype lvalue = "text=" ++ lvalue).
Proof.
  intros Page suggest utcnow step s ltype lvalue Hs Hv.
  split; [apply WebFacts.prepare_selector_stored; assumption|].
  unfold WebSteps.from_stored. split; [|split].
  - intros t Ht <-.
    simpl in Ht. destruct Ht as [<-|[<-|[<-|[<-|[]]]]]; reflexivity.
  - intros ->. reflexivity.
  - intros ->. reflexivity.
Qed.

Lemma stored_locator_decides_selector_witness :
  let step := [("action", Json.JStr "click"); ("selector", Json.JStr "#old")] in
  let repo := snd (LocatorRepository.add_locator "t0" LocatorStore.empty_store "ui"
                     "click:#old" [("type", "XPath"); ("value", "//button")]) in
  let s := {| WebSteps._page := Some tt; WebSteps.loc_repo := repo;
              WebSteps.clock_reads := 0; WebSteps.asked := [] |} in
  "//button" <> ""
  /\ WebSteps.prepare_selector unit (fun _ => None) (fun _ => "t1") step s
     = (None, Json.JStr "xpath=//button", s).
Proof.
  cbv zeta.
  assert (Hv : "//button" <> "") by discriminate.
  split; [exact Hv|].
  exact (proj1 (stored_locator_decides_selector unit (fun _ => None) (fun _ => "t1")
                  [("action", Json.JStr "click"); ("selector", Json.JStr "#old")]
                  {| WebSteps._page := Some tt;
                     WebSteps.loc_repo :=
                       snd (LocatorRepository.add_locator "t0" LocatorStore.empty_store
                              "ui" "click:#old" [("type", "XPath"); ("value", "//button")]);
                     WebSteps.clock_reads := 0; WebSteps.asked := [] |}
                  "XPath" "//button" eq_refl Hv)).
Defined.

(** X23.  A selector the translator suggests is learned: when the step has
    no selector, the repository no locator for it and none of the fallback
    fields a truthy value, a non-empty suggestion becomes the selector and
    is stored as a css locator under the step's key; preparing the same
    step again then takes the selector from the repository, without asking
    the translator and without writing to the repository. *)
Theorem suggested_selector_is_learned :
  forall (Page : Type) (suggest_ui_locator : string -> option string)
         (utcnow : nat -> string) (step : Json.dict) (s : WebSteps.session Page)
         (suggestion : string),
    LocatorStore.get_locator (WebSteps.loc_repo s) "ui"
      (LocatorRepository.compute_step_key step) = None ->
    Json.truthy (Json.get "selector" step) = false ->
    WebSteps.first_truthy WebSteps.fallback_fields step = None ->
    suggest_ui_locator (Json.dumps false false (Json.JDict step)) = Some suggestion ->
    suggestion <> "" ->
    let first := WebSteps.prepare_selector Page suggest_ui_locator utcnow step s in
    let again := WebSteps.prepare_selector Page suggest_ui_locator utcnow step (snd first) in
    fst first = (None, Json.JStr suggestion)
    /\ WebSteps.asked (snd first)
       = (WebSteps.asked s ++ [Json.dumps false false (Json.JDict step)])%list
    /\ LocatorStore.get_locator (WebSteps.loc_repo (snd first)) "ui"
         (LocatorRepository.compute_step_key step) = Some ("css", suggestion)
    /\ again = (None, Json.JStr suggestion, snd first).
Proof.
  intros Page suggest utcnow step s suggestion Hnone Hsel Hfall Hsug Hne first again.
  assert (Hfirst :
    exists repo,
      first = (None, Json.JStr suggestion,
               {| WebSteps._page := WebSteps._page s; WebSteps.loc_repo := repo;
                  WebSteps.clock_reads := S (WebSteps.clock_reads s);
                  WebSteps.asked :=
                    (WebSteps.asked s ++ [Json.dumps false false (Json.JDict step)])%list |})
      /\ LocatorStore.get_locator repo "ui" (LocatorRepository.compute_step_key step)
         = Some ("css", suggestion)).
  { subst first. unfold WebSteps.prepare_selector.
    rewrite Hnone, Hsel, Hfall, Hsug.
    rewrite (proj2 (LocatorMore.truthy_str_neq _) Hne).
    unfold LocatorRepository.add_locator.
    destruct (LocatorFacts.add_locator_at_ok (utcnow (WebSteps.clock_reads s))
                (utcnow (WebSteps.clock_reads s)) (WebSteps.loc_repo s) "ui"
                (LocatorRepository.compute_step_key step)
                [("type", "css"); ("value", suggestion)] "css" suggestion
                eq_refl eq_refl ltac:(discriminate) Hne) as (ins & E & Hact & Hins & _).
    rewrite E in Hact |- *. cbn [snd] in Hact.
    eexists. split; [reflexivity|].
    rewrite (LocatorMore.get_locator_single _ _ _ _ Hact), Hins. reflexivity. }
  destruct Hfirst as (repo & Hfirst & Hget).
  subst again. rewrite Hfirst. cbn [fst snd WebSteps.asked WebSteps.loc_repo].
  split; [reflexivity|]. split; [reflexivity|]. split; [exact Hget|].
  apply (WebFacts.prepare_selector_stored Page suggest utcnow step _ "css" suggestion);
    [exact Hget|exact Hne].
Qed.

Lemma suggested_selector_is_learned_witness :
  let step := [("action", Json.JStr "click"); ("name", Json.JStr "login")] in
  let suggest := fun _ : string => Some "#login" in
  let s := {| WebSteps._page := Some tt; WebSteps.loc_repo := LocatorStore.empty_store;
              WebSteps.clock_reads := 0; WebSteps.asked := [] |} in
  let first := WebSteps.prepare_selector unit suggest (fun _ => "t0") step s in
  "#login" <> ""
  /\ fst first = (None, Json.JStr "#login")
  /\ WebSteps.prepare_selector unit suggest (fun _ => "t0") step (snd first)
     = (None, Json.JStr "#login", snd first).
Proof.
  cbv zeta.
  assert (Hne : "#login" <> "") by discriminate.
  split; [exact Hne|].
  pose proof (suggested_selector_is_learned unit (fun _ => Some "#login") (fun _ => "t0")
                [("action", Json.JStr "click"); ("name", Json.JStr "login")]
                {| WebSteps._page := Some tt; WebSteps.loc_repo := LocatorStore.empty_store;
                   WebSteps.clock_reads := 0; WebSteps.asked := [] |}
                "#login" eq_refl eq_refl eq_refl eq_refl Hne) as (H1 & _ & _ & H4).
  split; [exact H1|exact H4].
Defined.

(** X24.  A web step whose action is none of goto, click, fill and
    assert_text ends in ValueError [Unsupported action: ...], which the run
    loop records as skipped, and no method of the page is called; the
    selector is nevertheless prepared first, so the translator may have
    been asked and its suggestion stored. *)
Theorem unsupported_web_action_is_skipped :
  forall (Page : Type)
         (goto : Json.json -> Page -> option WebSteps.exn * Page)
         (stabilise_webview wait_for_page_stable : Page -> option WebSteps.exn * Page)
         (wait_for_element_ui click : Json.json -> Page -> option WebSteps.exn * Page)
         (fill : Json.json -> string -> Page -> option WebSteps.exn * Page)
         (inner_text : Json.json -> Page -> (string + WebSteps.exn) * Page)
         (suggest_ui_locator : string -> option string) (utcnow : nat -> string)
         (step : Json.dict) (s : WebSteps.session Page) (page : Page),
    WebSteps._page s = Some page ->
    Json.truthy (Json.get "action" step) = true ->
    Forall (fun name => WebSteps.is_action (Json.get "action" step) name = false)
      ["goto"; "click"; "fill"; "assert_text"] ->
    let r := WebSteps._execute_step Page goto stabilise_webview wait_for_page_stable
               wait_for_element_ui click fill inner_text suggest_ui_locator utcnow
               step s in
    fst r = Drivers.RaisedValueError
              ("Unsupported action: " ++ Json.str (Json.get "action" step))
    /\ Drivers.status_of (fst r) = "skipped"
    /\ WebSteps._page (snd r) = Some page
    /\ WebSteps.loc_repo (snd r)
       = WebSteps.loc_repo
           (snd (WebSteps.prepare_selector Page suggest_ui_locator utcnow step s))
    /\ WebSteps.asked (snd r)
       = WebSteps.asked
           (snd (WebSteps.prepare_selector Page suggest_ui_locator utcnow step s)).
Proof.
  intros Page goto stab stable wait click fill inner suggest utcnow step s page
         Hpage Hact Hunsup r.
  inversion Hunsup as [|? ? Hgoto H1]; subst.
  inversion H1 as [|? ? Hclick H2]; subst.
  inversion H2 as [|? ? Hfill H3]; subst.
  inversion H3 as [|? ? Hassert _]; subst.
  subst r. unfold WebSteps._execute_step. rewrite Hact, Hpage. cbn [negb].
  rewrite Hgoto, Hclick, Hfill, Hassert. cbn [orb andb].
  destruct (WebFacts.prepare_selector_raises_nothing Page suggest utcnow step s)
    as [Hnone Hsame].
  destruct (WebSteps.prepare_selector Page suggest utcnow step s) as [[e selector] s1].
  cbn [fst snd] in Hnone, Hsame |- *. subst e.
  unfold WebSteps.perform. rewrite Hclick, Hfill, Hassert.
  cbn [fst snd WebSteps.raise WebSteps.with_page WebSteps._page WebSteps.loc_repo
       WebSteps.asked Drivers.status_of].
  repeat split; reflexivity.
Qed.

Lemma unsupported_web_action_is_skipped_witness :
  let step := [("action", Json.JStr "hover"); ("selector", Json.JStr "#menu")] in
  let s := {| WebSteps._page := Some 0%nat; WebSteps.loc_repo := LocatorStore.empty_store;
              WebSteps.clock_reads := 0; WebSteps.asked := [] |} in
  let touch := fun (_ : Json.json) (p : nat) => (@None WebSteps.exn, S p) in
  let r := WebSteps._execute_step nat touch (fun p => (None, S p)) (fun p => (None, S p))
             touch touch (fun _ _ p => (None, S p)) (fun _ p => (inl "", S p))
             (fun _ => None) (fun _ => "t0") step s in
  Json.truthy (Json.get "action" step) = true
  /\ Forall (fun name => WebSteps.is_action (Json.get "action" step) name = false)
       ["goto"; "click"; "fill"; "assert_text"]
  /\ fst r = Drivers.RaisedValueError "Unsupported action: hover"
  /\ WebSteps._page (snd r) = Some 0%nat.
Proof.
  cbv zeta.
  assert (Ha : Json.truthy (Json.get "action"
                  [("action", Json.JStr "hover"); ("selector", Json.JStr "#menu")]) = true)
    by reflexivity.
  assert (Hu : Forall (fun name =>
                  WebSteps.is_action
                    (Json.get "action"
                       [("action", Json.JStr "hover"); ("selector", Json.JStr "#menu")])
                    name = false)
                 ["goto"; "click"; "fill"; "assert_text"])
    by (repeat constructor).
  split; [exact Ha|]. split; [exact Hu|].
  pose proof (unsupported_web_action_is_skipped nat
                (fun _ p => (None, S p)) (fun p => (None, S p)) (fun p => (None, S p))
                (fun _ p => (None, S p)) (fun _ p => (None, S p))
                (fun _ _ p => (None, S p)) (fun _ p => (inl "", S p))
                (fun _ => None) (fun _ => "t0")
                [("action", Json.JStr "hover"); ("selector", Json.JStr "#menu")]
                {| WebSteps._page := Some 0%nat;
                   WebSteps.loc_repo := LocatorStore.empty_store;
                   WebSteps.clock_reads := 0; WebSteps.asked := [] |}
                0%nat eq_refl Ha Hu) as (H1 & _ & H3 & _).
  split; [exact H1|exact H3].
Defined.


Module MobileFacts.
Import Json MobileSteps.

Section Steps.

Variable Remote : Type.
Variable suggest_ui_locator : string -> option string.
Variable utcnow : nat -> string.

Local Abbreviation prepare_locator :=
  (MobileSteps.prepare_locator Remote suggest_ui_locator utcnow).

(** A locator the repository holds is the locator of the step. *)
Lemma prepare_locator_stored step (s : session Remote) ltype lvalue :
  LocatorStore.get_locator (loc_repo s) "mobile" (LocatorRepository.compute_step_key step)
  = Some (ltype, lvalue) ->
  prepare_locator step s
  = (None, JDict [("type", JStr ltype); ("value", JStr lvalue)], s).
Proof.
  intros Hs. unfold MobileSteps.prepare_locator. rewrite Hs. reflexivity.
Qed.

(** Storing a suggestion cannot fail, so the block raises nothing and
    leaves the driver alone. *)
Lemma prepare_locator_raises_nothing step (s : session Remote) :
  fst (fst (prepare_locator step s)) = None
  /\ the_driver (snd (prepare_locator step s)) = the_driver s.
Proof.
  unfold MobileSteps.prepare_locator.
  destruct (truthy _); [split; reflexivity|].
  destruct (suggest_ui_locator _) as [suggestion|]; [|split; reflexivity].
  destruct (Py.truthy_str suggestion) eqn:E; [|split; reflexivity].
  unfold LocatorRepository.add_locator.
  destruct (LocatorFacts.add_locator_at_ok (utcnow (clock_reads s)) (utcnow (clock_reads s))
              (loc_repo s) "mobile" (LocatorRepository.compute_step_key step)
              [("type", "accessibility_id"); ("value", suggestion)]
              "accessibility_id" suggestion
              eq_refl eq_refl ltac:(discriminate)
              (proj1 (LocatorMore.truthy_str_neq _) E)) as (ins & -> & _).
  split; reflexivity.
Qed.

(** With nothing in the step, nothing stored and nothing suggested there is
    no locator. *)
Lemma prepare_locator_none step (s : session Remote) :
  LocatorStore.get_locator (loc_repo s) "mobile" (LocatorRepository.compute_step_key step)
  = None ->
  truthy (get "locator" step) = false ->
  Py.truthy_opt (suggest_ui_locator (dumps false false (JDict step))) = false ->
  prepare_locator step s
  = (None, get "locator" step,
     {| the_driver := the_driver s; loc_repo := loc_repo s;
        clock_reads := clock_reads s;
        asked := (asked s ++ [dumps false false (JDict step)])%list |}).
Proof.
  intros Hs Hl Hsug. unfold MobileSteps.prepare_locator. rewrite Hs, Hl.
  destruct (suggest_ui_locator _) as [suggestion|]; [|reflexivity].
  simpl in Hsug. rewrite Hsug. reflexivity.
Qed.

End Steps.
End MobileFacts.

(** X26.  A mobile step whose action is tap, click, fill or assert_text and
    for which no locator can be had (none in the step, none stored, none
    suggested) ends in ValueError [Step missing locator for mobile action],
    which the run loop records as skipped: the translator has been asked
    once, the repository is unchanged, and the driver is the one
    [_ensure_driver] gives, with no wait and no element looked up. *)
Theorem mobile_step_without_locator_is_skipped :
  forall (Remote Elem : Type) (_appium_available : bool) (connect : option Remote)
         (find_element : Json.json -> Json.json -> Remote
                         -> (Elem + WebSteps.exn) * Remote)
         (elem_click : Elem -> Remote -> option WebSteps.exn * Remote)
         (elem_send_keys : Elem -> string -> Remote -> option WebSteps.exn * Remote)
         (elem_text : Elem -> Remote -> (string + WebSteps.exn) * Remote)
         (wait_for_element_mobile : Json.json -> MobileSteps.driver Remote
                                    -> option WebSteps.exn * MobileSteps.driver Remote)
         (suggest_ui_locator : string -> option string) (utcnow : nat -> string)
         (step : Json.dict) (s : MobileSteps.session Remote),
    existsb (WebSteps.is_action (Json.get "action" step))
      ["tap"; "click"; "fill"; "assert_text"] = true ->
    Json.truthy (Json.get "locator" step) = false ->
    LocatorStore.get_locator (MobileSteps.loc_repo s) "mobile"
      (LocatorRepository.compute_step_key step) = None ->
    Py.truthy_opt (suggest_ui_locator (Json.dumps false false (Json.JDict step))) = false ->
    let r := MobileSteps._execute_step Remote Elem _appium_available connect find_element
               elem_click elem_send_keys elem_text wait_for_element_mobile
               suggest_ui_locator utcnow step s in
    fst r = Drivers.RaisedValueError "Step missing locator for mobile action"
    /\ Drivers.status_of (fst r) = "skipped"
    /\ MobileSteps.the_driver (snd r)
       = MobileSteps.the_driver
           (MobileSteps._ensure_driver Remote _appium_available connect s)
    /\ MobileSteps.loc_repo (snd r) = MobileSteps.loc_repo s
    /\ MobileSteps.asked (snd r)
       = (MobileSteps.asked s ++ [Json.dumps false false (Json.JDict step)])%list.
Proof.
  intros Remote Elem appium connect find click send text wait suggest utcnow step s
         Hact Hloc Hstored Hsug r.
  assert (Htruthy : Json.truthy (Json.get "action" step) = true).
  { destruct (Json.get "action" step) as [| | |a| |]; try discriminate.
    destruct a; [discriminate|reflexivity]. }
  assert (Hneeds : WebSteps.is_action (Json.get "action" step) "tap"
                   || WebSteps.is_action (Json.get "action" step) "click"
                   || WebSteps.is_action (Json.get "action" step) "fill"
                   || WebSteps.is_action (Json.get "action" step) "assert_text" = true).
  { cbn [existsb] in Hact. rewrite orb_false_r in Hact.
    rewrite <- !orb_assoc. exact Hact. }
  set (s0 := MobileSteps._ensure_driver Remote appium connect s).
  assert (Hs0 : MobileSteps.loc_repo s0 = MobileSteps.loc_repo s
                /\ MobileSteps.asked s0 = MobileSteps.asked s
                /\ MobileSteps.clock_reads s0 = MobileSteps.clock_reads s
                /\ exists d, MobileSteps.the_driver s0 = Some d).
  { subst s0. unfold MobileSteps._ensure_driver.
    destruct (MobileSteps.the_driver s) as [d|] eqn:E.
    - repeat split. exists d. exact E.
    - repeat split. eexists. reflexivity. }
  destruct Hs0 as (Hrepo & Hasked & _ & d & Hd).
  subst r. unfold MobileSteps._execute_step. rewrite Htruthy. cbn [negb].
  fold s0. rewrite Hd.
  rewrite (MobileFacts.prepare_locator_none Remote suggest utcnow step s0)
    by (rewrite ?Hrepo; assumption).
  rewrite Hloc, Hneeds.
  cbn [fst snd WebSteps.raise MobileSteps.with_driver MobileSteps.the_driver
       MobileSteps.loc_repo MobileSteps.asked Drivers.status_of].
  rewrite Hrepo, Hasked. repeat split.
Qed.

Lemma mobile_step_without_locator_is_skipped_witness :
  let step := [("action", Json.JStr "tap"); ("name", Json.JStr "login")] in
  let s := {| MobileSteps.the_driver := @None (MobileSteps.driver nat);
              MobileSteps.loc_repo := LocatorStore.empty_store;
              MobileSteps.clock_reads := 0; MobileSteps.asked := [] |} in
  let r := MobileSteps._execute_step nat nat true (Some 0%nat)
             (fun _ _ r => (inl 0%nat, S r)) (fun _ r => (None, S r))
             (fun _ _ r => (None, S r)) (fun _ r => (inl "", S r))
             (fun _ d => (None, d)) (fun _ => None) (fun _ => "t0") step s in
  existsb (WebSteps.is_action (Json.get "action" step))
    ["tap"; "click"; "fill"; "assert_text"] = true
  /\ fst r = Drivers.RaisedValueError "Step missing locator for mobile action"
  /\ MobileSteps.the_driver (snd r) = Some (MobileSteps.Appium 0%nat).
Proof.
  cbv zeta.
  assert (Ha : existsb (WebSteps.is_action
                          (Json.get "action"
                             [("action", Json.JStr "tap"); ("name", Json.JStr "login")]))
                 ["tap"; "click"; "fill"; "assert_text"] = true) by reflexivity.
  split; [exact Ha|].
  pose proof (mobile_step_without_locator_is_skipped nat nat true (Some 0%nat)
                (fun _ _ r => (inl 0%nat, S r)) (fun _ r => (None, S r))
                (fun _ _ r => (None, S r)) (fun _ r => (inl "", S r))
                (fun _ d => (None, d)) (fun _ => None) (fun _ => "t0")
                [("action", Json.JStr "tap"); ("name", Json.JStr "login")]
                {| MobileSteps.the_driver := @None (MobileSteps.driver nat);
                   MobileSteps.loc_repo := LocatorStore.empty_store;
                   MobileSteps.clock_reads := 0; MobileSteps.asked := [] |}
                Ha eq_refl eq_refl eq_refl) as (H1 & _ & H3 & _).
  split; [exact H1|exact H3].
Defined.

(** X27.  A locator the translator suggests for a mobile step is learned:
    when the step has no locator and the repository none for it, a
    non-empty suggestion becomes the locator, with type accessibility_id,
    and is stored under the step's key in the mobile context; determining
    the locator of the same step again takes it from the repository,
    without asking the translator and without writing to the repository. *)
Theorem suggested_mobile_locator_is_learned :
  forall (Remote : Type) (suggest_ui_locator : string -> option string)
         (utcnow : nat -> string) (step : Json.dict) (s : MobileSteps.session Remote)
         (suggestion : string),
    LocatorStore.get_locator (MobileSteps.loc_repo s) "mobile"
      (LocatorRepository.compute_step_key step) = None ->
    Json.truthy (Json.get "locator" step) = false ->
    suggest_ui_locator (Json.dumps false false (Json.JDict step)) = Some suggestion ->
    suggestion <> "" ->
    let locator := Json.JDict [("type", Json.JStr "accessibility_id");
                               ("value", Json.JStr suggestion)] in
    let first := MobileSteps.prepare_locator Remote suggest_ui_locator utcnow step s in
    let again := MobileSteps.prepare_locator Remote suggest_ui_locator utcnow step
                   (snd first) in
    fst first = (None, locator)
    /\ MobileSteps.asked (snd first)
       = (MobileSteps.asked s ++ [Json.dumps false false (Json.JDict step)])%list
    /\ LocatorStore.get_locator (MobileSteps.loc_repo (snd first)) "mobile"
         (LocatorRepository.compute_step_key step) = Some ("accessibility_id", suggestion)
    /\ again = (None, locator, snd first).
Proof.
  intros Remote suggest utcnow step s suggestion Hnone Hloc Hsug Hne locator first again.
  assert (Hfirst :
    exists repo,
      first = (None, locator,
               {| MobileSteps.the_driver := MobileSteps.the_driver s;
                  MobileSteps.loc_repo := repo;
                  MobileSteps.clock_reads := S (MobileSteps.clock_reads s);
                  MobileSteps.asked :=
                    (MobileSteps.asked s
                     ++ [Json.dumps false false (Json.JDict step)])%list |})
      /\ LocatorStore.get_locator repo "mobile" (LocatorRepository.compute_step_key step)
         = Some ("accessibility_id", suggestion)).
  { subst first. unfold MobileSteps.prepare_locator.
    rewrite Hnone, Hloc, Hsug.
    rewrite (proj2 (LocatorMore.truthy_str_neq _) Hne).
    unfold LocatorRepository.add_locator.
    destruct (LocatorFacts.add_locator_at_ok (utcnow (MobileSteps.clock_reads s))
                (utcnow (MobileSteps.clock_reads s)) (MobileSteps.loc_repo s) "mobile"
                (LocatorRepository.compute_step_key step)
                [("type", "accessibility_id"); ("value", suggestion)]
                "accessibility_id" suggestion
                eq_refl eq_refl ltac:(discriminate) Hne) as (ins & E & Hact & Hins & _).
    rewrite E in Hact |- *. cbn [snd] in Hact.
    eexists. split; [reflexivity|].
    rewrite (LocatorMore.get_locator_single _ _ _ _ Hact), Hins. reflexivity. }
  destruct Hfirst as (repo & Hfirst & Hget).
  subst again. rewrite Hfirst. cbn [fst snd MobileSteps.asked MobileSteps.loc_repo].
  split; [reflexivity|]. split; [reflexivity|]. split; [exact Hget|].
  apply (MobileFacts.prepare_locator_stored Remote suggest utcnow step _
           "accessibility_id" suggestion). exact Hget.
Qed.

Lemma suggested_mobile_locator_is_learned_witness :
  let step := [("action", Json.JStr "tap"); ("name", Json.JStr "login")] in
  let suggest := fun _ : string => Some "login_button" in
  let s := {| MobileSteps.the_driver := @None (MobileSteps.driver unit);
              MobileSteps.loc_repo := LocatorStore.empty_store;
              MobileSteps.clock_reads := 0; MobileSteps.asked := [] |} in
  let first := MobileSteps.prepare_locator unit suggest (fun _ => "t0") step s in
  "login_button" <> ""
  /\ LocatorStore.get_locator (MobileSteps.loc_repo (snd first)) "mobile"
       (LocatorRepository.compute_step_key step)
     = Some ("accessibility_id", "login_button")
  /\ MobileSteps.asked
       (snd (MobileSteps.prepare_locator unit suggest (fun _ => "t0") step (snd first)))
     = MobileSteps.asked (snd first).
Proof.
  cbv zeta.
  assert (Hne : "login_button" <> "") by discriminate.
  split; [exact Hne|].
  pose proof (suggested_mobile_locator_is_learned unit (fun _ => Some "login_button")
                (fun _ => "t0")
                [("action", Json.JStr "tap"); ("name", Json.JStr "login")]
                {| MobileSteps.the_driver := @None (MobileSteps.driver unit);
                   MobileSteps.loc_repo := LocatorStore.empty_store;
                   MobileSteps.clock_reads := 0; MobileSteps.asked := [] |}
                "login_button" eq_refl eq_refl eq_refl Hne) as (_ & _ & H3 & H4).
  split; [exact H3|]. exact (f_equal (fun x => MobileSteps.asked (snd x)) H4).
Defined.


Module StepKeyFacts.
Import Json.

(** [first_present] returns the value of the first listed field the step
    has. *)
Lemma first_present_found before f after step v :
  Forall (fun k => Py.dict_get k step = None) before ->
  Py.dict_get f step = Some v ->
  LocatorRepo.first_present (before ++ f :: after) step = Some v.
Proof.
  intros Hb Hf. induction Hb as [|k l Hk _ IH]; simpl.
  - rewrite Hf. reflexivity.
  - rewrite Hk. exact IH.
Qed.

Lemma first_present_none fields step :
  Forall (fun k => Py.dict_get k step = None) fields ->
  LocatorRepo.first_present fields step = None.
Proof.
  intros H. induction H as [|k l Hk _ IH]; simpl; [reflexivity|].
  rewrite Hk. exact IH.
Qed.

(** The order of preference of [LocatorRepository.compute_step_key]. *)
Lemma repository_step_key_order (step : dict) :
  (forall v, Py.dict_get "selector" step = Some v ->
     LocatorRepository.compute_step_key step = LocatorRepo.action_of step ++ ":" ++ Json.str v)
  /\ (forall v, Py.dict_get "selector" step = None ->
        Py.dict_get "locator" step = Some v ->
        LocatorRepository.compute_step_key step
        = LocatorRepo.action_of step ++ ":" ++ dumps true true v)
  /\ (forall before f after v,
        Py.dict_get "selector" step = None ->
        Py.dict_get "locator" step = None ->
        LocatorRepository.descriptive_fields = (before ++ f :: after)%list ->
        Forall (fun k => Py.dict_get k step = None) before ->
        Py.dict_get f step = Some v ->
        LocatorRepository.compute_step_key step = LocatorRepo.action_of step ++ ":" ++ Json.str v)
  /\ (Py.dict_get "selector" step = None ->
      Py.dict_get "locator" step = None ->
      Forall (fun k => Py.dict_get k step = None) LocatorRepository.descriptive_fields ->
      LocatorRepository.compute_step_key step
      = LocatorRepo.action_of step ++ ":" ++ dumps true true (JDict (sort_items step))).
Proof.
  unfold LocatorRepository.compute_step_key.
  split; [|split; [|split]].
  - intros v ->. reflexivity.
  - intros v -> ->. reflexivity.
  - intros before f after v -> -> -> Hb Hf.
    rewrite (first_present_found before f after step v Hb Hf). reflexivity.
  - intros -> -> H. rewrite (first_present_none _ step H). reflexivity.
Qed.

End StepKeyFacts.

(** C6.  For a step whose only descriptive field is [target],
    [LocatorRepository.compute_step_key] returns the action and the target,
    as the claim says, while [LocatorRepo.compute_step_key], whose field
    list stops at [placeholder], falls through to the serialization of the
    whole step. *)
Theorem step_key_of_target_differs_between_repositories :
  let step := [("action", Json.JStr "click"); ("target", Json.JStr "Login")] in
  LocatorRepository.compute_step_key step = "click:Login"
  /\ LocatorRepo.compute_step_key step
     = "click:{" ++ Json.quoted "action" ++ ": " ++ Json.quoted "click" ++ ", "
         ++ Json.quoted "target" ++ ": " ++ Json.quoted "Login" ++ "}"
  /\ LocatorRepo.descriptive_fields
     = ["element"; "label"; "text"; "value"; "placeholder"]
  /\ LocatorRepository.descriptive_fields
     = ["element"; "label"; "text"; "value"; "placeholder"; "target"].
Proof.
  cbv zeta. repeat split; vm_compute; reflexivity.
Qed.


Module RouterFacts.
Import MCPRouter.

Lemma first_category_default keywords_map text :
  Forall (fun ck => keyword_hit (snd ck) text = false) keywords_map ->
  first_category keywords_map text = "api".
Proof.
  intros H. induction H as [|[c k] l Hk _ IH]; simpl in *; [reflexivity|].
  rewrite Hk. exact IH.
Qed.

Lemma first_category_found before c k after text :
  Forall (fun ck => keyword_hit (snd ck) text = false) before ->
  keyword_hit k text = true ->
  first_category (before ++ (c, k) :: after) text = c.
Proof.
  intros Hb Hk. induction Hb as [|[c' k'] l Hk' _ IH]; simpl in *.
  - rewrite Hk. reflexivity.
  - rewrite Hk'. exact IH.
Qed.

(** The translator of the enterprise tree checks its reply itself: a reply
    outside the four categories sends [LLMAgent.classify] to its own keyword
    checks, which default to [ui]. *)
Lemma agent_checks_its_reply provider cfg text response :
  provider text = Some response ->
  recognized (Py.lower (Py.strip response)) = false ->
  LLMAgent.classify (Some provider) cfg text = LLMAgent._heuristic_classify cfg text.
Proof.
  intros Hr Hu. unfold LLMAgent.classify. rewrite Hr, Hu.
  destruct (Py.truthy_str response); reflexivity.
Qed.

Lemma agent_heuristic_default cfg text :
  LLMAgent.any_keyword (ui_keywords cfg) (Py.lower text) = false ->
  LLMAgent.any_keyword (api_keywords cfg) (Py.lower text) = false ->
  LLMAgent.any_keyword (mobile_keywords cfg) (Py.lower text) = false ->
  LLMAgent.any_keyword (sql_keywords cfg) (Py.lower text) = false ->
  LLMAgent._heuristic_classify cfg text = "ui".
Proof.
  intros H1 H2 H3 H4. unfold LLMAgent._heuristic_classify.
  rewrite H1, H2, H3, H4. reflexivity.
Qed.

End RouterFacts.

(** C7, as stated, fails: a translator that answers with a word outside the
    four categories is obeyed, where the specification's [classify] goes
    on to the keyword checks. *)
Lemma router_returns_unrecognized_answer :
  MCPRouter._classify (Some (fun _ => MCPRouter.Answer "banana"))
    Fixtures.keywords Fixtures.untyped_case = "banana"
  /\ MCPRouter.recognized "banana" = false
  /\ Spec.classify_as_specified (Some (fun _ => MCPRouter.Answer "banana"))
       Fixtures.keywords Fixtures.untyped_case = "ui"
  /\ MCPRouter._classify (Some (fun _ => MCPRouter.Answer "banana"))
       Fixtures.keywords Fixtures.untyped_case
     <> Spec.classify_as_specified (Some (fun _ => MCPRouter.Answer "banana"))
          Fixtures.keywords Fixtures.untyped_case.
Proof.
  repeat split; try (vm_compute; reflexivity).
  vm_compute. discriminate.
Qed.

(** C7, amended.  [_classify] returns the declared type lower-cased when
    one is declared.  Otherwise, when a translator is configured and its
    call returns, it returns that answer as it is; when no translator is
    configured or the call raises, it returns the first of ui, api, mobile,
    sql that has a keyword whose lower-cased form occurs in the lower-cased
    step text, and [api] when no keyword occurs. *)
Theorem router_classification_order :
  forall (llm : option (string -> MCPRouter.llm_answer)) (cfg : MCPRouter.Config)
         (tc : MCPRouter.TestCase),
    let text := MCPRouter.combined_text tc in
    let keywords_map :=
      [("ui", MCPRouter.ui_keywords cfg); ("api", MCPRouter.api_keywords cfg);
       ("mobile", MCPRouter.mobile_keywords cfg); ("sql", MCPRouter.sql_keywords cfg)] in
    (forall t, MCPRouter.type tc = Some t -> t <> "" ->
       MCPRouter._classify llm cfg tc = Py.lower t)
    /\ (Py.truthy_opt (MCPRouter.type tc) = false ->
        (forall classify category,
           llm = Some classify -> classify text = MCPRouter.Answer category ->
           MCPRouter._classify llm cfg tc = category)
        /\ ((llm = None
             \/ exists classify msg,
                  llm = Some classify /\ classify text = MCPRouter.LLMRaised msg) ->
            MCPRouter._classify llm cfg tc = MCPRouter.heuristic cfg text))
    /\ (forall before category kws after,
          keywords_map = (before ++ (category, kws) :: after)%list ->
          Forall (fun ck => MCPRouter.keyword_hit (snd ck) (Py.lower text) = false) before ->
          MCPRouter.keyword_hit kws (Py.lower text) = true ->
          MCPRouter.heuristic cfg text = category)
    /\ (Forall (fun ck => MCPRouter.keyword_hit (snd ck) (Py.lower text) = false)
               keywords_map ->
        MCPRouter.heuristic cfg text = "api").
Proof.
  intros llm cfg tc text keywords_map.
  split; [|split; [|split]].
  - intros t Ht Hne. unfold MCPRouter._classify. rewrite Ht.
    unfold Py.truthy_str. destruct (String.eqb_spec t ""); [contradiction|reflexivity].
  - intros Hu.
    assert (E : MCPRouter._classify llm cfg tc =
                match llm with
                | Some classify =>
                    match classify text with
                    | MCPRouter.Answer category => category
                    | MCPRouter.LLMRaised _ => MCPRouter.heuristic cfg text
                    end
                | None => MCPRouter.heuristic cfg text
                end).
    { unfold MCPRouter._classify. fold text.
      destruct (MCPRouter.type tc) as [t|]; [|reflexivity].
      simpl in Hu. rewrite Hu. reflexivity. }
    split.
    + intros classify category -> Hc. rewrite E, Hc. reflexivity.
    + intros [-> | (classify & msg & -> & Hc)]; rewrite E; [reflexivity|].
      rewrite Hc. reflexivity.
  - intros before category kws after Hm Hb Hk. unfold MCPRouter.heuristic.
    fold text. fold keywords_map. rewrite Hm.
    apply RouterFacts.first_category_found; assumption.
  - intros H. unfold MCPRouter.heuristic. fold text. fold keywords_map.
    apply RouterFacts.first_category_default. exact H.
Qed.

Lemma router_classification_order_witness :
  Py.truthy_opt (MCPRouter.type Fixtures.untyped_case) = false
  /\ MCPRouter._classify None Fixtures.keywords Fixtures.untyped_case
     = MCPRouter.heuristic Fixtures.keywords
         (MCPRouter.combined_text Fixtures.untyped_case)
  /\ MCPRouter.heuristic Fixtures.keywords
       (MCPRouter.combined_text Fixtures.untyped_case) = "ui".
Proof.
  pose proof (router_classification_order None Fixtures.keywords Fixtures.untyped_case)
    as (_ & Huntyped & Hfound & _).
  split; [reflexivity|]. split.
  - exact (proj2 (Huntyped eq_refl) (or_introl eq_refl)).
  - apply (Hfound [] "ui" ["click"; "browser"]
             [("api", ["GET"; "endpoint"]); ("mobile", ["tap"; "swipe"]);
              ("sql", ["select"; "insert"])]);
      [reflexivity | constructor | vm_compute; reflexivity].
Defined.


Module RouterMore.
Import MCPRouter.

Lemma heuristic_classify_recognized cfg text :
  recognized (LLMAgent._heuristic_classify cfg text) = true.
Proof.
  unfold LLMAgent._heuristic_classify.
  destruct (LLMAgent.any_keyword (ui_keywords cfg) _); [reflexivity|].
  destruct (LLMAgent.any_keyword (api_keywords cfg) _); [reflexivity|].
  destruct (LLMAgent.any_keyword (mobile_keywords cfg) _); [reflexivity|].
  destruct (LLMAgent.any_keyword (sql_keywords cfg) _); reflexivity.
Qed.

Lemma agent_classify_recognized provider cfg text :
  recognized (LLMAgent.classify provider cfg text) = true.
Proof.
  unfold LLMAgent.classify.
  destruct provider as [call|]; [|apply heuristic_classify_recognized].
  destruct (call text) as [response|]; [|apply heuristic_classify_recognized].
  destruct (Py.truthy_str response); [|apply heuristic_classify_recognized].
  destruct (recognized (Py.lower (Py.strip response))) eqn:E;
    [exact E|apply heuristic_classify_recognized].
Qed.

(** With keywords written in lower case the two keyword scans test the
    same thing. *)
Lemma keyword_hit_lowercase keywords text :
  Forall (fun kw => Py.lower kw = kw) keywords ->
  keyword_hit keywords text = LLMAgent.any_keyword keywords text.
Proof.
  intros H. unfold keyword_hit, LLMAgent.any_keyword.
  induction H as [|kw l Hkw _ IH]; simpl; [reflexivity|].
  rewrite Hkw, IH. reflexivity.
Qed.

End RouterMore.

(** X18.  [LLMAgent.classify] returns one of ui, api, mobile and sql,
    whatever the provider replies and whether or not one is active; so a
    router whose translator is this agent routes every case without a
    declared type to one of the four categories. *)
Theorem agent_classifies_into_four_categories :
  forall (provider : option (string -> option string)) (cfg : MCPRouter.Config)
         (tc : MCPRouter.TestCase),
    (forall text, MCPRouter.recognized (LLMAgent.classify provider cfg text) = true)
    /\ (Py.truthy_opt (MCPRouter.type tc) = false ->
        MCPRouter.recognized
          (MCPRouter._classify
             (Some (fun text => MCPRouter.Answer (LLMAgent.classify provider cfg text)))
             cfg tc) = true).
Proof.
  intros provider cfg tc. split.
  - intros text. apply RouterMore.agent_classify_recognized.
  - intros Ht. unfold MCPRouter._classify.
    destruct (MCPRouter.type tc) as [t|]; simpl in Ht;
      [rewrite Ht|]; apply RouterMore.agent_classify_recognized.
Qed.

Lemma agent_classifies_into_four_categories_witness :
  Py.truthy_opt (MCPRouter.type Fixtures.untyped_case) = false
  /\ MCPRouter.recognized
       (MCPRouter._classify
          (Some (fun text => MCPRouter.Answer
                   (LLMAgent.classify (Some (fun _ => Some " Banana ")) Fixtures.keywords text)))
          Fixtures.keywords Fixtures.untyped_case) = true.
Proof.
  split; [reflexivity|].
  exact (proj2 (agent_classifies_into_four_categories
                  (Some (fun _ => Some " Banana ")) Fixtures.keywords
                  Fixtures.untyped_case) eq_refl).
Defined.

(** X19.  The router's keyword fallback and the agent's differ in their
    default only, once the configured keywords are in lower case: they give
    the same category whenever a keyword occurs in the lower-cased text,
    and otherwise the router answers api where the agent answers ui. *)
Theorem keyword_fallbacks_differ_in_default :
  forall (cfg : MCPRouter.Config) (text : string),
    Forall (fun kw => Py.lower kw = kw)
      (MCPRouter.ui_keywords cfg ++ MCPRouter.api_keywords cfg
       ++ MCPRouter.mobile_keywords cfg ++ MCPRouter.sql_keywords cfg)%list ->
    let hit :=
      MCPRouter.keyword_hit
        (MCPRouter.ui_keywords cfg ++ MCPRouter.api_keywords cfg
         ++ MCPRouter.mobile_keywords cfg ++ MCPRouter.sql_keywords cfg)%list
        (Py.lower text) in
    (hit = true ->
     MCPRouter.heuristic cfg text = LLMAgent._heuristic_classify cfg text)
    /\ (hit = false ->
        MCPRouter.heuristic cfg text = "api"
        /\ LLMAgent._heuristic_classify cfg text = "ui").
Proof.
  intros cfg text H hit.
  apply Forall_app in H. destruct H as [Hui H].
  apply Forall_app in H. destruct H as [Hapi H].
  apply Forall_app in H. destruct H as [Hmob Hsql].
  assert (Ehit : hit =
            MCPRouter.keyword_hit (MCPRouter.ui_keywords cfg) (Py.lower text)
            || (MCPRouter.keyword_hit (MCPRouter.api_keywords cfg) (Py.lower text)
            || (MCPRouter.keyword_hit (MCPRouter.mobile_keywords cfg) (Py.lower text)
            || MCPRouter.keyword_hit (MCPRouter.sql_keywords cfg) (Py.lower text)))).
  { subst hit. unfold MCPRouter.keyword_hit. rewrite !existsb_app. reflexivity. }
  rewrite Ehit. clear Ehit hit.
  unfold MCPRouter.heuristic, LLMAgent._heuristic_classify. cbn [MCPRouter.first_category].
  rewrite <- (RouterMore.keyword_hit_lowercase _ (Py.lower text) Hui).
  rewrite <- (RouterMore.keyword_hit_lowercase _ (Py.lower text) Hapi).
  rewrite <- (RouterMore.keyword_hit_lowercase _ (Py.lower text) Hmob).
  rewrite <- (RouterMore.keyword_hit_lowercase _ (Py.lower text) Hsql).
  destruct (MCPRouter.keyword_hit (MCPRouter.ui_keywords cfg) _);
  destruct (MCPRouter.keyword_hit (MCPRouter.api_keywords cfg) _);
  destruct (MCPRouter.keyword_hit (MCPRouter.mobile_keywords cfg) _);
  destruct (MCPRouter.keyword_hit (MCPRouter.sql_keywords cfg) _);
  simpl; split; intros E; try discriminate; try reflexivity; split; reflexivity.
Qed.

Lemma keyword_fallbacks_differ_in_default_witness :
  let cfg := {| MCPRouter.ui_keywords := ["click"]; MCPRouter.api_keywords := ["endpoint"];
                MCPRouter.mobile_keywords := ["tap"]; MCPRouter.sql_keywords := ["select"] |} in
  Forall (fun kw => Py.lower kw = kw)
    (MCPRouter.ui_keywords cfg ++ MCPRouter.api_keywords cfg
     ++ MCPRouter.mobile_keywords cfg ++ MCPRouter.sql_keywords cfg)%list
  /\ MCPRouter.heuristic cfg "Wait a moment" = "api"
  /\ LLMAgent._heuristic_classify cfg "Wait a moment" = "ui".
Proof.
  cbv zeta.
  assert (H : Forall (fun kw => Py.lower kw = kw)
                (["click"] ++ ["endpoint"] ++ ["tap"] ++ ["select"])%list)
    by (repeat constructor).
  split; [exact H|].
  exact (proj2 (keyword_fallbacks_differ_in_default
                  {| MCPRouter.ui_keywords := ["click"];
                     MCPRouter.api_keywords := ["endpoint"];
                     MCPRouter.mobile_keywords := ["tap"];
                     MCPRouter.sql_keywords := ["select"] |} "Wait a moment" H) eq_refl).
Defined.


Module SQLFacts.
Import NLSQL.

Lemma prefix_app lit rest : prefix lit (lit ++ rest) = true.
Proof.
  induction lit as [|c l IH]; simpl; [destruct rest; reflexivity|].
  destruct (ascii_dec c c) as [_|n]; [exact IH|contradiction].
Qed.

Lemma drop_app lit rest : drop (String.length lit) (lit ++ rest) = rest.
Proof. induction lit as [|c l IH]; simpl; [destruct rest|]; auto. Qed.

Lemma prefix_split lit : forall s,
  prefix lit s = true -> s = lit ++ drop (String.length lit) s.
Proof.
  induction lit as [|c l IH]; intros s H.
  - destruct s; reflexivity.
  - destruct s as [|d s]; [discriminate|]. simpl in H.
    destruct (ascii_dec c d) as [->|]; [|discriminate].
    simpl. f_equal. apply IH. exact H.
Qed.

(** [re_match lit cmd] succeeds exactly when [cmd] is [lit] followed by at
    least one character that is not a line feed; the group runs up to the
    first line feed. *)
Lemma re_match_some lit rest :
  upto_newline rest <> "" ->
  re_match lit (lit ++ rest) = Some (upto_newline rest).
Proof.
  intros H. unfold re_match. rewrite prefix_app, drop_app.
  destruct (upto_newline rest); [contradiction|reflexivity].
Qed.

Lemma re_match_inv lit cmd g :
  re_match lit cmd = Some g ->
  exists rest, cmd = lit ++ rest /\ g = upto_newline rest /\ g <> "".
Proof.
  unfold re_match. destruct (prefix lit cmd) eqn:E; [|discriminate].
  intros H. exists (drop (String.length lit) cmd).
  split; [apply prefix_split; exact E|].
  destruct (upto_newline (drop (String.length lit) cmd)); [discriminate|].
  inversion H; subst. split; [reflexivity|discriminate].
Qed.

(** The callbacks of the insert and delete rules count the rows of the name
    and pass when there is one, respectively none. *)
Lemma inserted_assertion_counts name cur :
  fst (inserted_assertion name cur) = Passed <-> (0 < occurrences name cur)%Z.
Proof.
  unfold inserted_assertion, check_count, execute_count, fetchone, occurrences; simpl.
  destruct (0 <? _)%Z eqn:E; simpl.
  - apply Z.ltb_lt in E. tauto.
  - apply Z.ltb_ge in E. split; [discriminate|lia].
Qed.

Lemma deleted_assertion_counts name cur :
  fst (deleted_assertion name cur) = Passed <-> occurrences name cur = 0%Z.
Proof.
  unfold deleted_assertion, check_count, execute_count, fetchone, occurrences; simpl.
  destruct (_ =? 0)%Z eqn:E; simpl.
  - apply Z.eqb_eq in E. tauto.
  - apply Z.eqb_neq in E. split; [discriminate|contradiction].
Qed.

(** The callback of the verify rule passes when the first pending row
    starts with a positive count. *)
Lemma exists_assertion_counts name cur :
  fst (exists_assertion name cur) = Passed <->
  exists count row rest, pending cur = (count :: row) :: rest /\ (0 < count)%Z.
Proof.
  unfold exists_assertion, fetchone.
  destruct (pending cur) as [|[|count row] rest]; simpl.
  - split; [discriminate|]. intros (c & r & t & H & _). discriminate.
  - split; [discriminate|]. intros (c & r & t & H & _). discriminate.
  - destruct (0 <? count)%Z eqn:E; simpl.
    + apply Z.ltb_lt in E. split; [|reflexivity].
      intros _. exists count, row, rest. auto.
    + apply Z.ltb_ge in E. split; [discriminate|].
      intros (c & r & t & H & Hc). inversion H; subst. lia.
Qed.

End SQLFacts.

(** C9, as stated, fails: the statement produced for [insert user bob]
    carries the name as a literal and has no placeholder. *)
Lemma english_to_sql_statement_is_not_parameterized :
  NLSQL.sql (NLSQL.english_to_sql "insert user bob")
  = "INSERT INTO users (name) VALUES ('Bob');"
  /\ ~ Spec.parameterized (NLSQL.sql (NLSQL.english_to_sql "insert user bob")) "Bob".
Proof.
  split; [vm_compute; reflexivity|].
  intros [H _]. vm_compute in H. discriminate.
Qed.

(** C9, amended.  After stripping and lower-casing, a command that is
    [insert user], [verify exists user] or [delete user] followed by a name
    (the text up to the first line feed, not empty) gives the statement
    with the title-cased name written into it as a quoted literal, and the
    callback of that rule; a command that matches none of the three
    patterns is returned as it was given, with no callback.  The callbacks
    check a count of the rows with that name: positive after insert and for
    verify, zero after delete. *)
Theorem english_to_sql_rules :
  forall command : string,
    let cmd := Py.lower (Py.strip command) in
    (forall rest, cmd = "insert user " ++ rest -> NLSQL.upto_newline rest <> "" ->
       let name := Py.title (NLSQL.upto_newline rest) in
       NLSQL.english_to_sql command
       = {| NLSQL.sql := "INSERT INTO users (name) VALUES ('" ++ name ++ "');";
            NLSQL.assertion := Some (NLSQL.inserted_assertion name) |})
    /\ (forall rest, cmd = "verify exists user " ++ rest ->
          NLSQL.upto_newline rest <> "" ->
          let name := Py.title (NLSQL.upto_newline rest) in
          NLSQL.english_to_sql command
          = {| NLSQL.sql := "SELECT COUNT(*) FROM users WHERE name='" ++ name ++ "';";
               NLSQL.assertion := Some (NLSQL.exists_assertion name) |})
    /\ (forall rest, cmd = "delete user " ++ rest -> NLSQL.upto_newline rest <> "" ->
          let name := Py.title (NLSQL.upto_newline rest) in
          NLSQL.english_to_sql command
          = {| NLSQL.sql := "DELETE FROM users WHERE name='" ++ name ++ "';";
               NLSQL.assertion := Some (NLSQL.deleted_assertion name) |})
    /\ ((forall lit rest,
           In lit ["insert user "; "verify exists user "; "delete user "] ->
           cmd = lit ++ rest -> NLSQL.upto_newline rest = "") ->
        NLSQL.english_to_sql command
        = {| NLSQL.sql := command; NLSQL.assertion := None |})
    /\ (forall name cur,
          (fst (NLSQL.inserted_assertion name cur) = NLSQL.Passed
           <-> (0 < NLSQL.occurrences name cur)%Z)
          /\ (fst (NLSQL.deleted_assertion name cur) = NLSQL.Passed
              <-> NLSQL.occurrences name cur = 0%Z)
          /\ (fst (NLSQL.exists_assertion name cur) = NLSQL.Passed
              <-> exists count row rest,
                    NLSQL.pending cur = (count :: row) :: rest /\ (0 < count)%Z)).
Proof.
  intros command cmd.
  split; [|split; [|split; [|split]]].
  - intros rest Hc Hg name. unfold NLSQL.english_to_sql. fold cmd.
    rewrite Hc, (SQLFacts.re_match_some _ rest Hg). reflexivity.
  - intros rest Hc Hg name. unfold NLSQL.english_to_sql. fold cmd. rewrite Hc.
    replace (NLSQL.re_match "insert user " ("verify exists user " ++ rest))
      with (@None string) by reflexivity.
    rewrite (SQLFacts.re_match_some _ rest Hg). reflexivity.
  - intros rest Hc Hg name. unfold NLSQL.english_to_sql. fold cmd. rewrite Hc.
    replace (NLSQL.re_match "insert user " ("delete user " ++ rest))
      with (@None string) by reflexivity.
    replace (NLSQL.re_match "verify exists user " ("delete user " ++ rest))
      with (@None string) by reflexivity.
    rewrite (SQLFacts.re_match_some _ rest Hg). reflexivity.
  - intros H. unfold NLSQL.english_to_sql. fold cmd.
    assert (Hn : forall lit,
               In lit ["insert user "; "verify exists user "; "delete user "] ->
               NLSQL.re_match lit cmd = None).
    { intros lit Hin. destruct (NLSQL.re_match lit cmd) as [g|] eqn:E; [|reflexivity].
      apply SQLFacts.re_match_inv in E. destruct E as (rest & Hc & Hg & Hne).
      exfalso. apply Hne. rewrite Hg. exact (H lit rest Hin Hc). }
    rewrite (Hn "insert user "), (Hn "verify exists user "), (Hn "delete user ");
      simpl; auto.
  - intros name cur. split; [|split].
    + apply SQLFacts.inserted_assertion_counts.
    + apply SQLFacts.deleted_assertion_counts.
    + apply SQLFacts.exists_assertion_counts.
Qed.

Lemma english_to_sql_rules_witness :
  Py.lower (Py.strip "  Verify Exists USER john doe ") = "verify exists user " ++ "john doe"
  /\ NLSQL.upto_newline "john doe" <> ""
  /\ NLSQL.english_to_sql "  Verify Exists USER john doe "
     = {| NLSQL.sql := "SELECT COUNT(*) FROM users WHERE name='John Doe';";
          NLSQL.assertion := Some (NLSQL.exists_assertion "John Doe") |}.
Proof.
  split; [reflexivity|]. split; [discriminate|].
  exact (proj1 (proj2 (english_to_sql_rules "  Verify Exists USER john doe "))
           "john doe" eq_refl ltac:(discriminate)).
Defined.


Module DifflibFacts.
Import Difflib.

(** *** Where a character occurs *)

Lemma positions_spec c l : forall s j,
  In j (positions c l s) <-> (s <= j /\ nth_error l (j - s) = Some c).
Proof.
  induction l as [|x r IH]; intros s j; simpl.
  - split; [contradiction|]. intros [_ H]. destruct (j - s); discriminate.
  - destruct (Ascii.eqb_spec x c) as [->|Hne].
    + simpl. rewrite IH. split.
      * intros [<- | [Hle Hn]].
        -- rewrite Nat.sub_diag. auto.
        -- split; [lia|]. replace (j - s) with (S (j - S s)) by lia. exact Hn.
      * intros [Hle Hn]. destruct (Nat.eq_dec s j) as [->|Hd]; [left; reflexivity|].
        right. split; [lia|]. replace (j - s) with (S (j - S s)) in Hn by lia. exact Hn.
    + rewrite IH. split.
      * intros [Hle Hn]. split; [lia|].
        replace (j - s) with (S (j - S s)) by lia. exact Hn.
      * intros [Hle Hn]. destruct (Nat.eq_dec s j) as [->|Hd].
        -- rewrite Nat.sub_diag in Hn. simpl in Hn. inversion Hn. contradiction.
        -- split; [lia|]. replace (j - s) with (S (j - S s)) in Hn by lia. exact Hn.
Qed.

(** The indices come in increasing order: each one is followed by larger
    ones only. *)
Lemma positions_increasing c l : forall s pre j post,
  positions c l s = (pre ++ j :: post)%list ->
  Forall (fun x => x < j) pre /\ Forall (fun x => j < x) post.
Proof.
  induction l as [|x r IH]; intros s pre j post H; simpl in H.
  - destruct pre; discriminate.
  - assert (Hall : forall pre j post,
               positions c r (S s) = (pre ++ j :: post)%list ->
               Forall (fun x => x < j) pre /\ Forall (fun x => j < x) post /\ s < j).
    { intros p q t Hp. destruct (IH (S s) p q t Hp) as [H1 H2].
      split; [exact H1|]. split; [exact H2|].
      assert (Hin : In q (positions c r (S s))) by (rewrite Hp; apply in_or_app; right; left; reflexivity).
      apply positions_spec in Hin. lia. }
    destruct (Ascii.eqb x c).
    + destruct pre as [|p pre]; simpl in H; inversion H; subst.
      * split; [constructor|]. apply Forall_forall. intros y Hy.
        apply positions_spec in Hy. lia.
      * destruct (Hall pre j post H2) as (H1 & H3 & Hs).
        split; [constructor; [lia|exact H1]|exact H3].
    + destruct (Hall pre j post H) as (H1 & H3 & _). auto.
Qed.

(** *** One row of the longest-match scan *)

Lemma scan_row_no_update i bhi j2len js : forall m best,
  Forall (fun j => j2lenget j2len j + 1 <= m_size best) js ->
  snd (scan_row i 0 bhi j2len js m best) = best.
Proof.
  induction js as [|j rest IH]; intros m best H; simpl; [reflexivity|].
  inversion H as [|? ? Hj Hrest]; subst.
  destruct (bhi <=? j)%nat; [reflexivity|].
  replace (m_size best <? j2lenget j2len j + 1)%nat with false
    by (symmetry; apply Nat.ltb_ge; exact Hj).
  apply IH. exact Hrest.
Qed.

Lemma scan_row_map i bhi j2len js : forall m best x,
  Forall (fun j => j < bhi) js ->
  fst (scan_row i 0 bhi j2len js m best) x =
  if existsb (Nat.eqb x) js then (j2lenget j2len x + 1)%nat else m x.
Proof.
  induction js as [|j rest IH]; intros m best x H; simpl; [reflexivity|].
  inversion H as [|? ? Hj Hrest]; subst.
  replace (bhi <=? j)%nat with false by (symmetry; apply Nat.leb_gt; exact Hj).
  rewrite IH by exact Hrest.
  destruct (Nat.eqb_spec x j) as [->|Hne]; simpl.
  - destruct (existsb (Nat.eqb j) rest); reflexivity.
  - reflexivity.
Qed.

(** When the row holds the diagonal index [i], the indices before it cannot
    improve on [best] and those after it cannot improve on the diagonal,
    the row leaves the better of [best] and the diagonal block. *)
Lemma scan_row_diagonal i bhi j2len post : forall pre m best,
  Forall (fun j => j < bhi) (pre ++ i :: post) ->
  Forall (fun j => j2lenget j2len j + 1 <= m_size best) pre ->
  Forall (fun j => j2lenget j2len j + 1 <= j2lenget j2len i + 1) post ->
  snd (scan_row i 0 bhi j2len (pre ++ i :: post) m best) =
  if (m_size best <? j2lenget j2len i + 1)%nat
  then {| m_a := i + 1 - (j2lenget j2len i + 1);
          m_b := i + 1 - (j2lenget j2len i + 1);
          m_size := j2lenget j2len i + 1 |}
  else best.
Proof.
  induction pre as [|j pre IH]; intros m best Hlt Hpre Hpost; simpl.
  - simpl in Hlt. inversion Hlt as [|? ? Hi Hrest]; subst.
    replace (bhi <=? i)%nat with false by (symmetry; apply Nat.leb_gt; exact Hi).
    apply scan_row_no_update.
    eapply Forall_impl; [|exact Hpost]. simpl. intros x Hx.
    destruct (m_size best <? j2lenget j2len i + 1)%nat eqn:E; simpl; [exact Hx|].
    apply Nat.ltb_ge in E. lia.
  - simpl in Hlt. inversion Hlt as [|? ? Hj Hrest]; subst.
    inversion Hpre as [|? ? Hkj Hpre']; subst.
    replace (bhi <=? j)%nat with false by (symmetry; apply Nat.leb_gt; exact Hj).
    replace (m_size best <? j2lenget j2len j + 1)%nat with false
      by (symmetry; apply Nat.ltb_ge; exact Hkj).
    apply IH; assumption.
Qed.

Section Same.

Variable a : list ascii.

Local Abbreviation n := (List.length a).

Local Abbreviation kept := (Difflib.kept a).
Local Abbreviation diag := (Difflib.diag a).
Local Abbreviation scan_inv := (Difflib.scan_inv a).

Lemma diag_le i : diag i <= i + 1.
Proof.
  induction i as [|i IH]; simpl.
  - destruct (kept 0); lia.
  - destruct (kept (S i)); lia.
Qed.

Lemma diag_kept i : kept i = true ->
  diag i = match i with O => 1 | S i' => diag i' + 1 end.
Proof. destruct i; simpl; intros ->; reflexivity. Qed.

Lemma diag_dropped i : kept i = false -> diag i = 0.
Proof. destruct i; simpl; intros ->; reflexivity. Qed.

Lemma b2j_in i c j :
  nth_error a i = Some c -> In j (b2j a c) ->
  kept i = true /\ kept j = true /\ j < n.
Proof.
  intros Hi Hj. unfold b2j in Hj.
  destruct (popular a c) eqn:Ep; [contradiction|].
  unfold occurrences in Hj. apply positions_spec in Hj. destruct Hj as [_ Hj].
  rewrite Nat.sub_0_r in Hj. unfold Difflib.kept. rewrite Hi, Hj, Ep.
  repeat split. apply nth_error_Some. rewrite Hj. discriminate.
Qed.

Lemma b2j_self i c :
  nth_error a i = Some c -> kept i = true ->
  exists pre post, b2j a c = (pre ++ i :: post)%list
                   /\ Forall (fun x => x < i) pre /\ Forall (fun x => i < x) post.
Proof.
  intros Hi Hk. unfold Difflib.kept in Hk. rewrite Hi in Hk.
  unfold b2j. destruct (popular a c); [discriminate|].
  assert (Hin : In i (occurrences a c)).
  { unfold occurrences. apply positions_spec. rewrite Nat.sub_0_r. split; [lia|exact Hi]. }
  apply in_split in Hin. destruct Hin as (pre & post & E).
  exists pre, post. split; [exact E|].
  exact (positions_increasing c a 0 pre i post E).
Qed.

Lemma b2j_dropped i c :
  nth_error a i = Some c -> kept i = false -> b2j a c = [].
Proof.
  intros Hi Hk. unfold Difflib.kept in Hk. rewrite Hi in Hk. unfold b2j.
  destruct (popular a c); [reflexivity|discriminate].
Qed.

(** *** The whole scan, on a sequence matched against itself *)

Lemma scan_inv_start :
  scan_inv 0 (fun _ => 0%nat) {| m_a := 0; m_b := 0; m_size := 0 |}.
Proof. unfold Difflib.scan_inv; simpl. repeat split; intros; lia. Qed.

Lemma scan_inv_step i j2len best c :
  nth_error a i = Some c ->
  scan_inv i j2len best ->
  scan_inv (S i) (fst (scan_row i 0 n j2len (b2j a c) (fun _ => 0%nat) best))
                 (snd (scan_row i 0 n j2len (b2j a c) (fun _ => 0%nat) best)).
Proof.
  intros Hc (Ha & Hb & Hc3 & Hd & He & Hf).
  destruct (kept i) eqn:Ek.
  - (* the character of row [i] was kept *)
    destruct (b2j_self i c Hc Ek) as (pre & post & Ejs & Hpre & Hpost).
    assert (Hin : forall j, In j (b2j a c) -> kept j = true /\ j < n).
    { intros j Hj. destruct (b2j_in i c j Hc Hj) as (_ & H1 & H2). auto. }
    assert (G1 : forall j, kept j = true -> j2lenget j2len j + 1 <= diag j).
    { intros j Hj. rewrite (diag_kept j Hj). destruct j as [|j']; simpl; [lia|].
      specialize (Hd j'). lia. }
    assert (G2 : forall j, j2lenget j2len j + 1 <= diag i).
    { intros j. rewrite (diag_kept i Ek). destruct j as [|j']; simpl.
      - destruct i; lia.
      - specialize (He j'). destruct i; lia. }
    assert (G3 : (j2lenget j2len i + 1 = diag i)%nat).
    { rewrite (diag_kept i Ek). destruct i as [|i']; simpl; [reflexivity|].
      rewrite Hf. reflexivity. }
    assert (Hlt : Forall (fun j => j < n) (b2j a c)).
    { apply Forall_forall. intros j Hj. apply Hin. exact Hj. }
    assert (Hmap := fun x => scan_row_map i n j2len (b2j a c) (fun _ => 0%nat) best x Hlt).
    assert (Hbest : snd (scan_row i 0 n j2len (b2j a c) (fun _ => 0%nat) best) =
                    if (m_size best <? j2lenget j2len i + 1)%nat
                    then {| m_a := i + 1 - (j2lenget j2len i + 1);
                            m_b := i + 1 - (j2lenget j2len i + 1);
                            m_size := j2lenget j2len i + 1 |}
                    else best).
    { rewrite Ejs. apply scan_row_diagonal.
      - rewrite <- Ejs. exact Hlt.
      - apply Forall_forall. intros j Hj.
        assert (Hjin : In j (b2j a c)) by (rewrite Ejs; apply in_or_app; left; exact Hj).
        rewrite Forall_forall in Hpre. specialize (Hpre j Hj).
        specialize (G1 j (proj1 (Hin j Hjin))). specialize (Hc3 j Hpre). lia.
      - apply Forall_forall. intros j Hj. rewrite G3. apply G2. }
    rewrite Hbest. pose proof (diag_le i) as Hdl.
    unfold Difflib.scan_inv. repeat split.
    + destruct (m_size best <? _)%nat; [reflexivity|exact Ha].
    + destruct (m_size best <? _)%nat; simpl; lia.
    + intros x Hx. destruct (m_size best <? _)%nat eqn:E; simpl.
      * apply Nat.ltb_lt in E. destruct (Nat.eq_dec x i) as [->|Hne]; [lia|].
        specialize (Hc3 x). lia.
      * apply Nat.ltb_ge in E. destruct (Nat.eq_dec x i) as [->|Hne]; [lia|].
        apply Hc3. lia.
    + intros x. rewrite Hmap. destruct (existsb (Nat.eqb x) (b2j a c)) eqn:E; [|lia].
      apply existsb_exists in E. destruct E as (y & Hy & Exy).
      apply Nat.eqb_eq in Exy. subst y. apply G1. apply Hin. exact Hy.
    + intros x. rewrite Hmap. destruct (existsb (Nat.eqb x) (b2j a c)); [apply G2|lia].
    + rewrite Hmap. replace (existsb (Nat.eqb i) (b2j a c)) with true; [exact G3|].
      symmetry. apply existsb_exists. exists i. split; [|apply Nat.eqb_refl].
      rewrite Ejs. apply in_or_app. right. left. reflexivity.
  - (* it was dropped as popular: the row is empty *)
    rewrite (b2j_dropped i c Hc Ek). simpl.
    pose proof (diag_dropped i Ek) as Hz.
    unfold Difflib.scan_inv.
    split; [exact Ha|]. split; [lia|].
    split; [intros x Hx; destruct (Nat.eq_dec x i) as [->|Hne]; [lia|apply Hc3; lia]|].
    split; [intros x; lia|]. split; [intros x; lia|]. lia.
Qed.

Lemma scan_rows_same : forall k i j2len best,
  i + k = n ->
  scan_inv i j2len best ->
  let r := scan_rows a a 0 n (seq i k) j2len best in
  m_a r = m_b r /\ m_a r + m_size r <= n.
Proof.
  induction k as [|k IH]; intros i j2len best Hn Hinv; simpl.
  - destruct Hinv as (Ha & Hb & _). split; [exact Ha|lia].
  - destruct (nth_error a i) as [c|] eqn:Ec.
    + pose proof (scan_inv_step i j2len best c Ec Hinv) as Hs.
      destruct (scan_row i 0 n j2len (b2j a c) (fun _ => 0%nat) best) as [m' best'].
      simpl in Hs. apply (IH (S i) m' best'); [lia|exact Hs].
    + exfalso. apply nth_error_None in Ec. lia.
Qed.

Lemma same_at_diag i : i < n -> same_at a a i i = true.
Proof.
  intros H. unfold same_at. destruct (nth_error a i) as [c|] eqn:E.
  - apply Ascii.eqb_refl.
  - apply nth_error_None in E. lia.
Qed.

Lemma extend_left_same : forall fuel i s,
  i <= fuel -> i <= n ->
  extend_left a a fuel 0 0 {| m_a := i; m_b := i; m_size := s |}
  = {| m_a := 0; m_b := 0; m_size := s + i |}.
Proof.
  induction fuel as [|fuel IH]; intros i s Hf Hn.
  - replace i with 0%nat by lia. simpl. f_equal. lia.
  - simpl. destruct i as [|i].
    + simpl. f_equal. lia.
    + simpl. rewrite Nat.sub_0_r, same_at_diag by lia. simpl.
      rewrite IH by lia. f_equal. lia.
Qed.

Lemma extend_right_same : forall fuel s,
  s <= n -> n - s <= fuel ->
  extend_right a a fuel n n {| m_a := 0; m_b := 0; m_size := s |}
  = {| m_a := 0; m_b := 0; m_size := n |}.
Proof.
  induction fuel as [|fuel IH]; intros s Hs Hf.
  - simpl. f_equal. lia.
  - simpl. destruct (s <? n)%nat eqn:E; simpl.
    + apply Nat.ltb_lt in E. rewrite same_at_diag by exact E.
      apply IH; lia.
    + apply Nat.ltb_ge in E. f_equal. lia.
Qed.

(** The longest block of a sequence matched against itself is all of it. *)
Lemma find_longest_match_same :
  find_longest_match a a 0 n 0 n = {| m_a := 0; m_b := 0; m_size := n |}.
Proof.
  unfold find_longest_match. rewrite Nat.sub_0_r.
  destruct (scan_rows_same n 0 (fun _ => 0%nat) {| m_a := 0; m_b := 0; m_size := 0 |}
              eq_refl scan_inv_start) as [Hd Hle].
  destruct (scan_rows a a 0 n (seq 0 n) (fun _ => 0%nat)
              {| m_a := 0; m_b := 0; m_size := 0 |}) as [i j s].
  simpl in *. subst j.
  rewrite extend_left_same by lia.
  apply extend_right_same; lia.
Qed.

Lemma get_matching_blocks_same :
  get_matching_blocks a a =
  Some (if (n =? 0)%nat
        then [{| m_a := n; m_b := n; m_size := 0 |}]
        else [{| m_a := 0; m_b := 0; m_size := n |};
              {| m_a := n; m_b := n; m_size := 0 |}]).
Proof.
  unfold get_matching_blocks. cbn [blocks_loop].
  rewrite find_longest_match_same. cbn [m_a m_b m_size].
  destruct (n =? 0)%nat eqn:E.
  - destruct (n + n)%nat; reflexivity.
  - rewrite Nat.ltb_irrefl. cbn [andb].
    replace (0 + n <? n)%nat with false by (symmetry; apply Nat.ltb_ge; lia).
    cbn [andb]. destruct (n + n)%nat; simpl; rewrite E; reflexivity.
Qed.

Lemma calculate_ratio_full k : _calculate_ratio k (k + k) = 1%Q.
Proof.
  unfold _calculate_ratio. destruct (k + k =? 0)%nat eqn:E; [reflexivity|].
  apply Nat.eqb_neq in E.
  replace (Qred (Z.of_nat (2 * k) # Pos.of_nat (k + k))) with (Qred 1); [reflexivity|].
  apply Qred_complete. unfold Qeq; simpl Qnum; simpl Qden.
  rewrite Z.mul_1_r, Z.mul_1_l.
  replace (2 * k)%nat with (k + k)%nat by lia.
  destruct (k + k)%nat as [|m] eqn:Em; [contradiction|].
  rewrite <- Pos.of_nat_succ. rewrite Zpos_P_of_succ_nat. lia.
Qed.

(** [SequenceMatcher(None, a, a).ratio()] is 1. *)
Lemma ratio_same : ratio a a = Some 1%Q.
Proof.
  unfold ratio. rewrite get_matching_blocks_same.
  destruct (n =? 0)%nat eqn:E.
  - apply Nat.eqb_eq in E. simpl. rewrite E. reflexivity.
  - simpl. rewrite Nat.add_0_r. f_equal. apply calculate_ratio_full.
Qed.

End Same.

Lemma string_ratio_same (s : string) : string_ratio s s = Some 1%Q.
Proof. apply ratio_same. Qed.

End DifflibFacts.


Module DifflibTotal.
Import Difflib.

Section Total.

Variable a : list ascii.
Variable b : list ascii.

Lemma scan_row_bounded i alo ahi blo bhi j2len js : forall m best,
  alo <= i < ahi ->
  row_bounded blo (i - alo) j2len ->
  row_bounded blo (i + 1 - alo) m ->
  within alo ahi blo bhi best ->
  row_bounded blo (i + 1 - alo) (fst (scan_row i blo bhi j2len js m best))
  /\ within alo ahi blo bhi (snd (scan_row i blo bhi j2len js m best)).
Proof.
  induction js as [|j rest IH]; intros m best Hi Hprev Hm Hbest; simpl; [auto|].
  destruct (j <? blo)%nat eqn:Eb; [apply IH; assumption|].
  destruct (bhi <=? j)%nat eqn:Eh; [simpl; auto|].
  apply Nat.ltb_ge in Eb. apply Nat.leb_gt in Eh.
  assert (Hk : j2lenget j2len j + 1 <= i + 1 - alo
               /\ j2lenget j2len j + 1 <= j + 1 - blo).
  { destruct j as [|j']; cbn [j2lenget].
    - split; lia.
    - destruct (Hprev j') as [H1 H2]. split; lia. }
  apply IH; try assumption.
  - intros x. destruct (x =? j)%nat eqn:Ex.
    + apply Nat.eqb_eq in Ex. subst x. exact Hk.
    + apply Hm.
  - destruct (m_size best <? j2lenget j2len j + 1)%nat; [|exact Hbest].
    unfold within; simpl. lia.
Qed.

Lemma scan_rows_bounded alo ahi blo bhi : forall k i j2len best,
  alo <= i -> i + k = ahi ->
  row_bounded blo (i - alo) j2len ->
  within alo ahi blo bhi best ->
  within alo ahi blo bhi (scan_rows a b blo bhi (seq i k) j2len best).
Proof.
  induction k as [|k IH]; intros i j2len best Hi Hk Hrow Hbest; simpl; [exact Hbest|].
  set (js := match nth_error a i with Some c => b2j b c | None => [] end).
  assert (H0 : row_bounded blo (i + 1 - alo) (fun _ => 0%nat)).
  { intros x. lia. }
  destruct (scan_row_bounded i alo ahi blo bhi j2len js (fun _ => 0%nat) best
              ltac:(lia) Hrow H0 Hbest) as [Hm Hb].
  destruct (scan_row i blo bhi j2len js (fun _ => 0%nat) best) as [m' best'].
  simpl in Hm, Hb. apply IH; try lia; try assumption.
  replace (S i - alo) with (i + 1 - alo) by lia. exact Hm.
Qed.

Lemma extend_left_within alo ahi blo bhi : forall fuel x,
  within alo ahi blo bhi x -> within alo ahi blo bhi (extend_left a b fuel alo blo x).
Proof.
  induction fuel as [|fuel IH]; intros x Hx; simpl; [exact Hx|].
  destruct ((alo <? m_a x) && (blo <? m_b x))%nat eqn:E; simpl; [|exact Hx].
  destruct (same_at a b (m_a x - 1) (m_b x - 1)); [|exact Hx].
  apply andb_prop in E. destruct E as [E1 E2].
  apply Nat.ltb_lt in E1. apply Nat.ltb_lt in E2.
  apply IH. unfold within in *; simpl. lia.
Qed.

Lemma extend_right_within alo ahi blo bhi : forall fuel x,
  within alo ahi blo bhi x -> within alo ahi blo bhi (extend_right a b fuel ahi bhi x).
Proof.
  induction fuel as [|fuel IH]; intros x Hx; simpl; [exact Hx|].
  destruct ((m_a x + m_size x <? ahi) && (m_b x + m_size x <? bhi))%nat eqn:E;
    simpl; [|exact Hx].
  destruct (same_at a b (m_a x + m_size x) (m_b x + m_size x)); [|exact Hx].
  apply andb_prop in E. destruct E as [E1 E2].
  apply Nat.ltb_lt in E1. apply Nat.ltb_lt in E2.
  apply IH. unfold within in *; simpl. lia.
Qed.

(** The block that [find_longest_match] returns lies in the region. *)
Lemma find_longest_match_within alo ahi blo bhi :
  alo <= ahi -> blo <= bhi ->
  within alo ahi blo bhi (find_longest_match a b alo ahi blo bhi).
Proof.
  intros Ha Hb. unfold find_longest_match.
  apply extend_right_within, extend_left_within.
  apply (scan_rows_bounded alo ahi blo bhi (ahi - alo) alo); try lia.
  - intros x. lia.
  - unfold within; simpl. lia.
Qed.

(** The queue loop ends within a fuel of the total weight of its queue. *)
Lemma blocks_loop_total : forall fuel queue acc,
  Forall region_ok queue ->
  list_sum (map weight queue) <= fuel ->
  exists blocks, blocks_loop a b fuel queue acc = Some blocks.
Proof.
  induction fuel as [|fuel IH]; intros queue acc Hok Hw.
  - destruct queue as [|[[[alo ahi] blo] bhi] rest]; [eexists; reflexivity|].
    simpl in Hw. lia.
  - destruct queue as [|[[[alo ahi] blo] bhi] rest]; [eexists; reflexivity|].
    inversion Hok as [|? ? Hr Hrest]; subst. simpl in Hr. destruct Hr as [Ha Hb].
    cbn [blocks_loop].
    pose proof (find_longest_match_within alo ahi blo bhi Ha Hb) as Hin.
    unfold within in Hin. destruct Hin as (H1 & H2 & H3 & H4).
    set (x := find_longest_match a b alo ahi blo bhi) in *.
    simpl in Hw.
    destruct (m_size x =? 0)%nat eqn:Ek.
    + apply IH; [exact Hrest|lia].
    + apply Nat.eqb_neq in Ek. apply IH.
      * destruct ((m_a x + m_size x <? ahi) && (m_b x + m_size x <? bhi))%nat;
          destruct ((alo <? m_a x) && (blo <? m_b x))%nat;
          repeat (constructor; [simpl; lia|]); exact Hrest.
      * destruct ((m_a x + m_size x <? ahi) && (m_b x + m_size x <? bhi))%nat;
          destruct ((alo <? m_a x) && (blo <? m_b x))%nat; simpl; lia.
Qed.

(** [ratio] always returns. *)
Lemma ratio_total : exists q, ratio a b = Some q.
Proof.
  unfold ratio, get_matching_blocks.
  destruct (blocks_loop_total (S (List.length a + List.length b))
              [(0, List.length a, 0, List.length b)%nat] []) as (blocks & E).
  - constructor; [simpl; lia|constructor].
  - simpl. lia.
  - rewrite E. eexists. reflexivity.
Qed.

End Total.

Lemma string_ratio_total (s t : string) : exists q, string_ratio s t = Some q.
Proof. apply ratio_total. Qed.

End DifflibTotal.


Module DifflibBound.
Import Difflib.

Section Bound.

Variable a : list ascii.
Variable b : list ascii.

Local Abbreviation sizes l := (list_sum (map m_size l)).
Local Abbreviation room q := (list_sum (map (fun r => weight r - 1) q)).

Lemma list_sum_cons x l : list_sum (x :: l) = x + list_sum l.
Proof. reflexivity. Qed.

(** Every block found uses up as much of its region, on both sides, as it
    is long: the blocks the queue loop adds fit into the room its queue has
    left. *)
Lemma blocks_loop_sum : forall fuel queue acc blocks,
  Forall region_ok queue ->
  blocks_loop a b fuel queue acc = Some blocks ->
  2 * sizes blocks <= 2 * sizes acc + room queue.
Proof.
  induction fuel as [|fuel IH]; intros queue acc blocks Hok H.
  - destruct queue as [|[[[alo ahi] blo] bhi] rest]; [|discriminate].
    inversion H; subst. simpl. lia.
  - destruct queue as [|[[[alo ahi] blo] bhi] rest].
    { inversion H; subst. simpl. lia. }
    inversion Hok as [|? ? Hr Hrest]; subst. simpl in Hr. destruct Hr as [Ha Hb].
    cbn [blocks_loop] in H.
    pose proof (DifflibTotal.find_longest_match_within a b alo ahi blo bhi Ha Hb) as Hin.
    unfold within in Hin. destruct Hin as (H1 & H2 & H3 & H4).
    set (x := find_longest_match a b alo ahi blo bhi) in *.
    cbn [map weight]. rewrite list_sum_cons.
    destruct (m_size x =? 0)%nat eqn:Ek.
    + apply IH in H; [|exact Hrest]. lia.
    + apply IH in H.
      * rewrite map_app, list_sum_app in H. cbn [map] in H.
        apply Nat.eqb_neq in Ek.
        destruct ((m_a x + m_size x <? ahi) && (m_b x + m_size x <? bhi))%nat;
          destruct ((alo <? m_a x) && (blo <? m_b x))%nat;
          cbn [map weight] in H; rewrite ?list_sum_cons in H;
          change (list_sum []) with 0 in H; lia.
      * destruct ((m_a x + m_size x <? ahi) && (m_b x + m_size x <? bhi))%nat;
          destruct ((alo <? m_a x) && (blo <? m_b x))%nat;
          repeat (constructor; [simpl; lia|]); exact Hrest.
Qed.

Lemma insert_match_sum x l : sizes (insert_match x l) = m_size x + sizes l.
Proof.
  induction l as [|y r IH]; simpl; [reflexivity|].
  destruct (match_ltb x y); simpl; [reflexivity|]. rewrite IH. lia.
Qed.

Lemma sort_matches_sum l : sizes (sort_matches l) = sizes l.
Proof.
  unfold sort_matches.
  assert (G : forall acc, sizes (fold_left (fun acc x => insert_match x acc) l acc)
                          = sizes acc + sizes l).
  { induction l as [|x r IH]; intros acc; simpl; [lia|].
    rewrite IH, insert_match_sum. lia. }
  rewrite G. reflexivity.
Qed.

Lemma collapse_sum blocks : forall cur non_adjacent,
  sizes (collapse blocks cur non_adjacent)
  = sizes blocks + m_size cur + sizes non_adjacent.
Proof.
  induction blocks as [|x rest IH]; intros cur na; simpl.
  - destruct (m_size cur =? 0)%nat eqn:E.
    + apply Nat.eqb_eq in E. lia.
    + rewrite map_app, list_sum_app. simpl. lia.
  - destruct ((m_a cur + m_size cur =? m_a x) && (m_b cur + m_size cur =? m_b x))%nat.
    + rewrite IH. simpl. lia.
    + rewrite IH. destruct (m_size cur =? 0)%nat eqn:E.
      * apply Nat.eqb_eq in E. lia.
      * rewrite map_app, list_sum_app. simpl. lia.
Qed.

(** The matched characters are at most half of all characters. *)
Lemma get_matching_blocks_sum blocks :
  get_matching_blocks a b = Some blocks ->
  2 * sizes blocks <= List.length a + List.length b.
Proof.
  unfold get_matching_blocks.
  destruct (blocks_loop a b _ _ []) as [found|] eqn:E; [|discriminate].
  intros H. inversion H; subst. clear H.
  apply blocks_loop_sum in E; [|constructor; [simpl; lia|constructor]].
  rewrite map_app, list_sum_app, collapse_sum, sort_matches_sum.
  simpl in *. lia.
Qed.

Lemma calculate_ratio_bounds matches length :
  2 * matches <= length ->
  (0 <= _calculate_ratio matches length <= 1)%Q.
Proof.
  intros H. unfold _calculate_ratio.
  destruct (length =? 0)%nat eqn:E; [split; discriminate|].
  apply Nat.eqb_neq in E.
  rewrite Qred_correct. unfold Qle. cbn [Qnum Qden].
  assert (Hp : Z.pos (Pos.of_nat length) = Z.of_nat length).
  { rewrite <- positive_nat_Z, Nat2Pos.id by exact E. reflexivity. }
  rewrite Hp. split; lia.
Qed.

Lemma ratio_bounds q : ratio a b = Some q -> (0 <= q <= 1)%Q.
Proof.
  unfold ratio.
  destruct (get_matching_blocks a b) as [blocks|] eqn:E; [|discriminate].
  intros H. inversion H; subst.
  apply calculate_ratio_bounds. apply get_matching_blocks_sum. exact E.
Qed.

End Bound.
End DifflibBound.

(** X25.  The similarity [_compute_similarity] computes with difflib, that
    is with every method but embedding and whenever the embedding branch
    raises, is a number from 0 to 1 for all pairs of case lists. *)
Theorem sequence_similarity_is_between_zero_and_one :
  forall (method : string)
         (embedding_similarity : list string -> list string -> option Q)
         (old_cases new_cases : list VersionManager.case),
    (method = "embedding" ->
     embedding_similarity
       (map (fun tc => Json.dumps true true (Json.JDict tc)) old_cases)
       (map (fun tc => Json.dumps true true (Json.JDict tc)) new_cases) = None) ->
    exists sim,
      VersionManager._compute_similarity method embedding_similarity old_cases new_cases
      = Some sim
      /\ (0 <= sim <= 1)%Q.
Proof.
  intros method emb old_cases new_cases Hm.
  destruct (DifflibTotal.string_ratio_total (VersionManager.canonical_text old_cases)
              (VersionManager.canonical_text new_cases)) as (q & Hq).
  exists q. split.
  - unfold VersionManager._compute_similarity.
    destruct (String.eqb_spec method "embedding") as [E|E]; [|exact Hq].
    rewrite (Hm E). exact Hq.
  - unfold Difflib.string_ratio in Hq. exact (DifflibBound.ratio_bounds _ _ q Hq).
Qed.

Lemma sequence_similarity_is_between_zero_and_one_witness :
  ("sequence" = "embedding" -> @None Q = None)
  /\ exists sim,
       VersionManager._compute_similarity "sequence" (fun _ _ => None)
         [[("identifier", Json.JStr "TC-1")]] [[("identifier", Json.JStr "TC-2")]]
       = Some sim
       /\ (0 <= sim <= 1)%Q.
Proof.
  assert (H : "sequence" = "embedding" -> @None Q = None) by (intros _; reflexivity).
  split; [exact H|].
  exact (sequence_similarity_is_between_zero_and_one "sequence" (fun _ _ => None)
           [[("identifier", Json.JStr "TC-1")]] [[("identifier", Json.JStr "TC-2")]] H).
Defined.


Module VersionFacts.
Import VersionManager.

Lemma build_map_total cases :
  hashable_identifiers cases -> forall m, exists m', build_map cases m = Some m'.
Proof.
  intros H. induction H as [|c l Hc _ IH]; intros m; simpl.
  - eexists. reflexivity.
  - destruct (key_of c) as [k|]; [apply IH|contradiction].
Qed.

(** A row appended with a version number above the latest one becomes the
    latest. *)
Lemma latest_after_append st story q r :
  user_story r = story ->
  (forall l, _get_latest_version_info st story = Some l ->
             (version_number l < version_number r)%Z) ->
  _get_latest_version_info {| rows := rows st ++ [r]; seq := q |} story = Some r.
Proof.
  intros Hs Hl. unfold _get_latest_version_info in *. simpl.
  rewrite fold_left_app. simpl. rewrite Hs, String.eqb_refl.
  destruct (fold_left _ (rows st) None) as [best|]; [|reflexivity].
  specialize (Hl best eq_refl). apply Z.ltb_lt in Hl. rewrite Hl. reflexivity.
Qed.

Section Twice.

Variable method : string.
Variable embedding_similarity : list string -> list string -> option Q.

Local Abbreviation add_version := (VersionManager.add_version method embedding_similarity).

Lemma compute_similarity_same cases :
  method <> "embedding" ->
  _compute_similarity method embedding_similarity cases cases = Some 1%Q.
Proof.
  intros Hm. unfold _compute_similarity.
  destruct (String.eqb_spec method "embedding"); [contradiction|].
  apply DifflibFacts.string_ratio_same.
Qed.

(** A call that returns appends one row, numbered after the latest. *)
Lemma add_version_returned now st story cases who info st' :
  add_version now st story cases who = (Returned info, st') ->
  exists row,
    st' = {| rows := rows st ++ [row]; seq := S (seq st) |}
    /\ id row = S (seq st) /\ version_id info = S (seq st)
    /\ user_story row = story /\ test_cases_snapshot row = cases
    /\ version_number row = info_version_number info
    /\ similarity row = info_similarity info
    /\ info_version_number info =
       match _get_latest_version_info st story with
       | Some l => (version_number l + 1)%Z
       | None => 1%Z
       end.
Proof.
  unfold VersionManager.add_version.
  destruct (_get_latest_version_info st story) as [l|].
  - destruct (_compute_similarity _ _ _ _) as [sim|]; [|discriminate].
    destruct (build_map (test_cases_snapshot l) []) as [om|]; [|discriminate].
    destruct (build_map cases []) as [nm|]; [|discriminate].
    intros H. inversion H; subst. eexists. repeat split.
  - intros H. inversion H; subst. eexists. repeat split.
Qed.

Lemma compute_similarity_total old_cases new_cases :
  exists sim,
    _compute_similarity method embedding_similarity old_cases new_cases = Some sim.
Proof.
  unfold _compute_similarity.
  destruct (DifflibTotal.string_ratio_total (canonical_text old_cases)
              (canonical_text new_cases)) as (q & ->).
  destruct (method =? "embedding"); [|eexists; reflexivity].
  destruct (embedding_similarity _ _); eexists; reflexivity.
Qed.

(** A call returns when the identifiers of the new list and of the latest
    stored list, if there is one, can be hashed. *)
Lemma add_version_returns now st story cases who :
  hashable_identifiers cases ->
  (forall l, _get_latest_version_info st story = Some l ->
             hashable_identifiers (test_cases_snapshot l)) ->
  exists info st', add_version now st story cases who = (Returned info, st').
Proof.
  intros Hh Hl. unfold VersionManager.add_version.
  destruct (_get_latest_version_info st story) as [l|].
  - destruct (compute_similarity_total (test_cases_snapshot l) cases) as (sim & ->).
    destruct (build_map_total _ (Hl l eq_refl) []) as (om & ->).
    destruct (build_map_total _ Hh []) as (nm & ->).
    eexists. eexists. reflexivity.
  - eexists. eexists. reflexivity.
Qed.

End Twice.
End VersionFacts.




Module VersionMore.
Import VersionManager.

Lemma key_eqb_eq x y : key_eqb x y = true <-> x = y.
Proof.
  destruct x, y; simpl; split; intros H; try discriminate; try reflexivity.
  - apply Z.eqb_eq in H. congruence.
  - inversion H. apply Z.eqb_refl.
  - apply String.eqb_eq in H. congruence.
  - inversion H. apply String.eqb_refl.
Qed.

Lemma key_eqb_refl x : key_eqb x x = true.
Proof. apply key_eqb_eq. reflexivity. Qed.

Lemma key_eqb_neq x y : x <> y -> key_eqb x y = false.
Proof.
  intros H. destruct (key_eqb x y) eqn:E; [|reflexivity].
  apply key_eqb_eq in E. contradiction.
Qed.

Lemma map_has_app k m1 m2 : map_has k (m1 ++ m2) = map_has k m1 || map_has k m2.
Proof.
  induction m1 as [|[k' c'] r IH]; simpl; [reflexivity|].
  rewrite IH. apply orb_assoc.
Qed.

Lemma map_set_fresh k c m : map_has k m = false -> map_set k c m = (m ++ [(k, c)])%list.
Proof.
  induction m as [|[k' c'] r IH]; simpl; intros H; [reflexivity|].
  apply orb_false_iff in H. destruct H as [H1 H2].
  rewrite H1, (IH H2). reflexivity.
Qed.

(** The dict built from cases with distinct identifiers holds the cases
    themselves, in their order. *)
Lemma build_map_distinct cases : forall m,
  hashable_identifiers cases ->
  distinct_identifiers cases ->
  (forall c k, In c cases -> key_of c = Some k -> map_has k m = false) ->
  exists m',
    build_map cases m = Some (m ++ m')%list
    /\ map snd m' = cases
    /\ Forall (fun kc => key_of (snd kc) = Some (fst kc)) m'.
Proof.
  unfold hashable_identifiers, distinct_identifiers.
  induction cases as [|c rest IH]; intros m Hh Hd Hm.
  - exists []. simpl. rewrite app_nil_r. repeat split. constructor.
  - simpl. inversion Hh as [|? ? Hc Hrest]; subst.
    simpl in Hd. inversion Hd as [|? ? Hnotin Hd']; subst.
    destruct (key_of c) as [k|] eqn:Ek; [|contradiction].
    rewrite (map_set_fresh k c m (Hm c k (or_introl eq_refl) Ek)).
    destruct (IH (m ++ [(k, c)])%list Hrest Hd') as (m' & Hb & Hs & Hf).
    { intros c' k' Hin Ek'. rewrite map_has_app. simpl.
      rewrite (Hm c' k' (or_intror Hin) Ek'). simpl.
      rewrite orb_false_r. apply key_eqb_neq. intros ->.
      apply Hnotin. rewrite <- Ek'. apply in_map. exact Hin. }
    exists ((k, c) :: m'). rewrite Hb, <- app_assoc. simpl.
    split; [reflexivity|]. split; [rewrite Hs; reflexivity|].
    constructor; [exact Ek|exact Hf].
Qed.

Lemma map_has_cases k m :
  Forall (fun kc => key_of (snd kc) = Some (fst kc)) m ->
  map_has k m
  = existsb (fun c' => match key_of c' with
                       | Some k' => key_eqb k' k
                       | None => false
                       end) (map snd m).
Proof.
  intros H. induction H as [|[k' c'] r Hk _ IH]; simpl in *; [reflexivity|].
  rewrite Hk, IH. reflexivity.
Qed.

Lemma filter_keyed (p : key -> bool) (q : case -> bool) m :
  Forall (fun kc => p (fst kc) = q (snd kc)) m ->
  map snd (filter (fun kc => p (fst kc)) m) = filter q (map snd m).
Proof.
  intros H. induction H as [|[k c] r Hk _ IH]; simpl in *; [reflexivity|].
  rewrite Hk. destruct (q c); simpl; rewrite IH; reflexivity.
Qed.

(** The difference of two lists with distinct identifiers, read off the
    lists. *)
Lemma compute_diff_distinct old_cases new_cases :
  hashable_identifiers old_cases -> distinct_identifiers old_cases ->
  hashable_identifiers new_cases -> distinct_identifiers new_cases ->
  exists old_map new_map,
    build_map old_cases [] = Some old_map
    /\ build_map new_cases [] = Some new_map
    /\ compute_diff old_map new_map =
       {| added := filter (fun c => negb (has_identifier old_cases c)) new_cases;
          removed := filter (fun c => negb (has_identifier new_cases c)) old_cases;
          unchanged := filter (has_identifier old_cases) new_cases |}.
Proof.
  intros Hho Hdo Hhn Hdn.
  destruct (build_map_distinct old_cases [] Hho Hdo) as (om & Hbo & Hso & Hfo);
    [reflexivity|].
  destruct (build_map_distinct new_cases [] Hhn Hdn) as (nm & Hbn & Hsn & Hfn);
    [reflexivity|].
  simpl in Hbo, Hbn. exists om, nm. split; [exact Hbo|]. split; [exact Hbn|].
  assert (Hrel : forall m cases other,
             map snd m = cases ->
             Forall (fun kc => key_of (snd kc) = Some (fst kc)) m ->
             forall m2, map snd m2 = other ->
             Forall (fun kc => key_of (snd kc) = Some (fst kc)) m2 ->
             Forall (fun kc => map_has (fst kc) m2 = has_identifier other (snd kc)) m).
  { intros m cases other _ Hf m2 Hs2 Hf2.
    eapply Forall_impl; [|exact Hf]. intros [k c] Hk. simpl in *.
    rewrite (map_has_cases k m2 Hf2), Hs2. unfold has_identifier. rewrite Hk.
    reflexivity. }
  unfold compute_diff. f_equal.
  - rewrite <- Hsn at 1.
    apply (filter_keyed (fun k => negb (map_has k om))
             (fun c => negb (has_identifier old_cases c))).
    eapply Forall_impl; [|exact (Hrel nm new_cases old_cases Hsn Hfn om Hso Hfo)].
    intros kc H. cbv beta in *. rewrite H. reflexivity.
  - rewrite <- Hso at 1.
    apply (filter_keyed (fun k => negb (map_has k nm))
             (fun c => negb (has_identifier new_cases c))).
    eapply Forall_impl; [|exact (Hrel om old_cases new_cases Hso Hfo nm Hsn Hfn)].
    intros kc H. cbv beta in *. rewrite H. reflexivity.
  - rewrite <- Hsn at 1.
    apply (filter_keyed (fun k => map_has k om) (has_identifier old_cases)).
    exact (Hrel nm new_cases old_cases Hsn Hfn om Hso Hfo).
Qed.

(** The scan for the latest version sees only the rows of its story. *)
Lemma latest_none_iff st story :
  _get_latest_version_info st story = None
  <-> Forall (fun r => user_story r <> story) (rows st).
Proof.
  unfold _get_latest_version_info.
  assert (G : forall l acc,
             fold_left (fun acc r =>
               if user_story r =? story then
                 match acc with
                 | Some best =>
                     if (version_number best <? version_number r)%Z
                     then Some r else acc
                 | None => Some r
                 end
               else acc) l acc = None
             <-> acc = None /\ Forall (fun r => user_story r <> story) l).
  { induction l as [|r l IH]; intros acc; simpl.
    - split; [intros ->; split; [reflexivity|constructor]|intros [H _]; exact H].
    - rewrite IH. destruct (String.eqb_spec (user_story r) story) as [E|E].
      + split.
        * intros [H _]. destruct acc as [best|]; [|discriminate].
          destruct (version_number best <? version_number r)%Z; discriminate.
        * intros [_ H]. apply Forall_inv in H. contradiction.
      + split.
        * intros [H1 H2]. split; [exact H1|constructor; assumption].
        * intros [H1 H2]. split; [exact H1|exact (Forall_inv_tail H2)]. }
  rewrite G. split; [intros [_ H]; exact H|intros H; split; [reflexivity|exact H]].
Qed.

Lemma latest_other_story st story q r :
  user_story r <> story ->
  _get_latest_version_info {| rows := rows st ++ [r]; seq := q |} story
  = _get_latest_version_info st story.
Proof.
  intros Hs. unfold _get_latest_version_info. simpl.
  rewrite fold_left_app. simpl.
  destruct (String.eqb_spec (user_story r) story); [contradiction|reflexivity].
Qed.

Lemma find_id_app_new rs v new :
  find (fun r => (id r =? v)%nat) (rs ++ [new]) =
  match find (fun r => (id r =? v)%nat) rs with
  | Some r => Some r
  | None => if (id new =? v)%nat then Some new else None
  end.
Proof.
  induction rs as [|x l IH]; simpl; [reflexivity|].
  destruct (id x =? v)%nat; [reflexivity|exact IH].
Qed.

Lemma find_id_absent rs v :
  Forall (fun r => id r < v) rs -> find (fun r => (id r =? v)%nat) rs = None.
Proof.
  intros H. induction H as [|x l Hx _ IH]; simpl; [reflexivity|].
  replace (id x =? v)%nat with false by (symmetry; apply Nat.eqb_neq; lia).
  exact IH.
Qed.

End VersionMore.

(** X13.  When the latest stored list of the story and the new list each
    have distinct, hashable identifiers, [add_version] returns, and its diff
    is decided by identifiers alone: [unchanged] holds the new cases whose
    identifier the latest list has, whether or not their content changed,
    [added] the other new cases, and [removed] the latest list's cases whose
    identifier the new list lacks, each in list order. *)
Theorem add_version_diff_follows_identifiers :
  forall (method : string)
         (embedding_similarity : list string -> list string -> option Q)
         (now : string) (st : VersionManager.Store) (story : string)
         (cases : list VersionManager.case) (who : string)
         (latest : VersionManager.VersionRow),
    VersionManager._get_latest_version_info st story = Some latest ->
    VersionManager.hashable_identifiers cases ->
    VersionManager.distinct_identifiers cases ->
    VersionManager.hashable_identifiers (VersionManager.test_cases_snapshot latest) ->
    VersionManager.distinct_identifiers (VersionManager.test_cases_snapshot latest) ->
    let old := VersionManager.test_cases_snapshot latest in
    exists info st',
      VersionManager.add_version method embedding_similarity now st story cases who
      = (VersionManager.Returned info, st')
      /\ VersionManager.added (VersionManager.diff info)
         = filter (fun c => negb (VersionManager.has_identifier old c)) cases
      /\ VersionManager.unchanged (VersionManager.diff info)
         = filter (VersionManager.has_identifier old) cases
      /\ VersionManager.removed (VersionManager.diff info)
         = filter (fun c => negb (VersionManager.has_identifier cases c)) old.
Proof.
  intros method emb now st story cases who latest Hl Hh Hd Hho Hdo old.
  destruct (VersionMore.compute_diff_distinct old cases Hho Hdo Hh Hd)
    as (om & nm & Hbo & Hbn & Hdiff).
  destruct (VersionFacts.compute_similarity_total method emb old cases) as (sim & Hsim).
  unfold VersionManager.add_version. rewrite Hl. fold old.
  rewrite Hsim, Hbo, Hbn. eexists. eexists. split; [reflexivity|].
  cbn [VersionManager.diff]. rewrite Hdiff. repeat split.
Qed.

Lemma add_version_diff_follows_identifiers_witness :
  let a : VersionManager.case := [("identifier", Json.JStr "TC-1"); ("title", Json.JStr "old")] in
  let b : VersionManager.case := [("identifier", Json.JStr "TC-2")] in
  let a' : VersionManager.case := [("identifier", Json.JStr "TC-1"); ("title", Json.JStr "new")] in
  let c : VersionManager.case := [("identifier", Json.JStr "TC-3")] in
  let st := snd (VersionManager.add_version "sequence" (fun _ _ => None) "t0"
                   VersionManager.empty_store "US-1" [a; b] "qa") in
  exists info st',
    VersionManager.add_version "sequence" (fun _ _ => None) "t1" st "US-1" [a'; c] "qa"
    = (VersionManager.Returned info, st')
    /\ VersionManager.added (VersionManager.diff info) = [c]
    /\ VersionManager.unchanged (VersionManager.diff info) = [a']
    /\ VersionManager.removed (VersionManager.diff info) = [b].
Proof.
  cbv zeta.
  refine (add_version_diff_follows_identifiers "sequence" (fun _ _ => None) "t1"
            (snd (VersionManager.add_version "sequence" (fun _ _ => None) "t0"
                    VersionManager.empty_store "US-1"
                    [[("identifier", Json.JStr "TC-1"); ("title", Json.JStr "old")];
                     [("identifier", Json.JStr "TC-2")]] "qa"))
            "US-1"
            [[("identifier", Json.JStr "TC-1"); ("title", Json.JStr "new")];
             [("identifier", Json.JStr "TC-3")]] "qa"
            {| VersionManager.id := 1; VersionManager.user_story := "US-1";
               VersionManager.version_number := 1; VersionManager.author := "qa";
               VersionManager.timestamp := "t0"; VersionManager.similarity := 0%Q;
               VersionManager.test_cases_snapshot :=
                 [[("identifier", Json.JStr "TC-1"); ("title", Json.JStr "old")];
                  [("identifier", Json.JStr "TC-2")]] |}
            eq_refl _ _ _ _).
  - repeat constructor; discriminate.
  - unfold VersionManager.distinct_identifiers. simpl.
    repeat constructor; simpl; intuition discriminate.
  - repeat constructor; discriminate.
  - unfold VersionManager.distinct_identifiers. simpl.
    repeat constructor; simpl; intuition discriminate.
Defined.

(** X14.  The first version of a user story: when the store holds no row of
    the story, [add_version] returns version number 1 and similarity 0 and
    reports every case as added; it compares nothing, so it returns whatever
    the method is and whatever the identifiers are. *)
Theorem first_version_is_number_one :
  forall (method : string)
         (embedding_similarity : list string -> list string -> option Q)
         (now : string) (st : VersionManager.Store) (story : string)
         (cases : list VersionManager.case) (who : string),
    Forall (fun r => VersionManager.user_story r <> story) (VersionManager.rows st) ->
    VersionManager.add_version method embedding_similarity now st story cases who
    = (VersionManager.Returned
         {| VersionManager.version_id := S (VersionManager.seq st);
            VersionManager.info_version_number := 1;
            VersionManager.info_similarity := 0%Q;
            VersionManager.diff :=
              {| VersionManager.added := cases; VersionManager.removed := [];
                 VersionManager.unchanged := [] |} |},
       {| VersionManager.rows :=
            (VersionManager.rows st ++
             [{| VersionManager.id := S (VersionManager.seq st);
                 VersionManager.user_story := story;
                 VersionManager.version_number := 1;
                 VersionManager.author := who;
                 VersionManager.timestamp := now;
                 VersionManager.similarity := 0%Q;
                 VersionManager.test_cases_snapshot := cases |}])%list;
          VersionManager.seq := S (VersionManager.seq st) |}).
Proof.
  intros method emb now st story cases who H.
  apply VersionMore.latest_none_iff in H.
  unfold VersionManager.add_version. rewrite H. reflexivity.
Qed.

Lemma first_version_is_number_one_witness :
  Forall (fun r => VersionManager.user_story r <> "US-2")
    (VersionManager.rows VersionManager.empty_store)
  /\ fst (VersionManager.add_version "embedding" (fun _ _ => None) "t0"
            VersionManager.empty_store "US-2"
            [[("identifier", Json.JList [])]] "qa")
     = VersionManager.Returned
         {| VersionManager.version_id := 1;
            VersionManager.info_version_number := 1;
            VersionManager.info_similarity := 0%Q;
            VersionManager.diff :=
              {| VersionManager.added := [[("identifier", Json.JList [])]];
                 VersionManager.removed := [];
                 VersionManager.unchanged := [] |} |}.
Proof.
  split; [constructor|].
  exact (f_equal fst
           (first_version_is_number_one "embedding" (fun _ _ => None) "t0"
              VersionManager.empty_store "US-2" [[("identifier", Json.JList [])]] "qa"
              (Forall_nil _))).
Defined.

(** X15.  Versions are numbered per user story: after a call of
    [add_version] that returns, the latest version of the story is the row
    just stored, with the number returned and the list passed, while the
    latest version of every other story is what it was. *)
Theorem add_version_touches_one_story :
  forall (method : string)
         (embedding_similarity : list string -> list string -> option Q)
         (now : string) (st st' : VersionManager.Store) (story : string)
         (cases : list VersionManager.case) (who : string)
         (info : VersionManager.VersionInfo),
    VersionManager.add_version method embedding_similarity now st story cases who
    = (VersionManager.Returned info, st') ->
    (exists row,
        VersionManager._get_latest_version_info st' story = Some row
        /\ VersionManager.id row = VersionManager.version_id info
        /\ VersionManager.version_number row = VersionManager.info_version_number info
        /\ VersionManager.test_cases_snapshot row = cases)
    /\ (forall other, other <> story ->
          VersionManager._get_latest_version_info st' other
          = VersionManager._get_latest_version_info st other).
Proof.
  intros method emb now st st' story cases who info H.
  destruct (VersionFacts.add_version_returned method emb now st story cases who info st' H)
    as (row & -> & Hid & Hvid & Hstory & Hsnap & Hnum & _ & Hnext).
  split.
  - exists row. split; [|split; [congruence|split; [exact Hnum|exact Hsnap]]].
    apply VersionFacts.latest_after_append; [exact Hstory|].
    intros l Hl. rewrite Hnum, Hnext, Hl. lia.
  - intros other Hne. apply VersionMore.latest_other_story. congruence.
Qed.

Lemma add_version_touches_one_story_witness :
  let st := snd (VersionManager.add_version "sequence" (fun _ _ => None) "t0"
                   VersionManager.empty_store "US-1"
                   [[("identifier", Json.JStr "TC-1")]] "qa") in
  let r := VersionManager.add_version "sequence" (fun _ _ => None) "t1" st "US-2"
             [[("identifier", Json.JStr "TC-9")]] "qa" in
  "US-1" <> "US-2"
  /\ VersionManager._get_latest_version_info (snd r) "US-1"
     = VersionManager._get_latest_version_info st "US-1".
Proof.
  cbv zeta.
  assert (Hne : "US-1" <> "US-2") by discriminate.
  split; [exact Hne|].
  assert (E : exists info,
             VersionManager.add_version "sequence" (fun _ _ => None) "t1"
               (snd (VersionManager.add_version "sequence" (fun _ _ => None) "t0"
                       VersionManager.empty_store "US-1"
                       [[("identifier", Json.JStr "TC-1")]] "qa"))
               "US-2" [[("identifier", Json.JStr "TC-9")]] "qa"
             = (VersionManager.Returned info,
                snd (VersionManager.add_version "sequence" (fun _ _ => None) "t1"
                       (snd (VersionManager.add_version "sequence" (fun _ _ => None) "t0"
                               VersionManager.empty_store "US-1"
                               [[("identifier", Json.JStr "TC-1")]] "qa"))
                       "US-2" [[("identifier", Json.JStr "TC-9")]] "qa")))
    by (eexists; reflexivity).
  destruct E as [info E].
  exact (proj2 (add_version_touches_one_story "sequence" (fun _ _ => None) "t1"
                  _ _ "US-2" [[("identifier", Json.JStr "TC-9")]] "qa" info E)
               "US-1" Hne).
Defined.

(** X16.  What [add_version] stores, [get_test_cases] gives back: the list
    read under the returned version id is the list passed, and every other
    version id reads as before.  The keys of the stored rows are assumed to
    be keys already handed out. *)
Theorem get_test_cases_after_add_version :
  forall (method : string)
         (embedding_similarity : list string -> list string -> option Q)
         (now : string) (st st' : VersionManager.Store) (story : string)
         (cases : list VersionManager.case) (who : string)
         (info : VersionManager.VersionInfo),
    VersionManager.ids_in_use st ->
    VersionManager.add_version method embedding_similarity now st story cases who
    = (VersionManager.Returned info, st') ->
    VersionManager.get_test_cases st' (VersionManager.version_id info)
    = VersionManager.Found cases
    /\ (forall v, v <> VersionManager.version_id info ->
          VersionManager.get_test_cases st' v = VersionManager.get_test_cases st v)
    /\ VersionManager.ids_in_use st'.
Proof.
  intros method emb now st st' story cases who info Hk H.
  destruct (VersionFacts.add_version_returned method emb now st story cases who info st' H)
    as (row & -> & Hid & Hvid & _ & Hsnap & _).
  unfold VersionManager.get_test_cases. cbn [VersionManager.rows].
  split; [|split].
  - rewrite VersionMore.find_id_app_new, VersionMore.find_id_absent.
    + rewrite Hid, Hvid, Nat.eqb_refl, Hsnap. reflexivity.
    + rewrite Hvid. eapply Forall_impl; [|exact Hk]. intros a Ha. cbv beta in Ha. lia.
  - intros v Hv. rewrite VersionMore.find_id_app_new.
    destruct (find _ (VersionManager.rows st)); [reflexivity|].
    replace (VersionManager.id row =? v)%nat with false
      by (symmetry; apply Nat.eqb_neq; congruence).
    reflexivity.
  - unfold VersionManager.ids_in_use in *. cbn [VersionManager.rows VersionManager.seq].
    apply Forall_app. split.
    + eapply Forall_impl; [|exact Hk]. intros a Ha. cbv beta in Ha. lia.
    + constructor; [lia|constructor].
Qed.

Lemma get_test_cases_after_add_version_witness :
  let r := VersionManager.add_version "sequence" (fun _ _ => None) "t0"
             VersionManager.empty_store "US-1"
             [[("identifier", Json.JStr "TC-1")]] "qa" in
  VersionManager.ids_in_use VersionManager.empty_store
  /\ VersionManager.get_test_cases (snd r) 1
     = VersionManager.Found [[("identifier", Json.JStr "TC-1")]].
Proof.
  cbv zeta. split; [constructor|].
  assert (E : exists info,
             VersionManager.add_version "sequence" (fun _ _ => None) "t0"
               VersionManager.empty_store "US-1"
               [[("identifier", Json.JStr "TC-1")]] "qa"
             = (VersionManager.Returned info,
                snd (VersionManager.add_version "sequence" (fun _ _ => None) "t0"
                       VersionManager.empty_store "US-1"
                       [[("identifier", Json.JStr "TC-1")]] "qa"))
             /\ VersionManager.version_id info = 1%nat)
    by (eexists; split; reflexivity).
  destruct E as (info & E & Hid).
  pose proof (proj1 (get_test_cases_after_add_version "sequence" (fun _ _ => None) "t0"
                       VersionManager.empty_store _ "US-1"
                       [[("identifier", Json.JStr "TC-1")]] "qa" info
                       (Forall_nil _) E)) as H.
  rewrite Hid in H. exact H.
Defined.

(** X17.  [compare_versions] raises [ValueError] for the first of its two
    version ids that no row carries, naming that id.  For two stored lists
    with distinct, hashable identifiers it returns the diff by identifier
    of the second list against the first, so that swapping the arguments
    swaps [added] and [removed]. *)
Theorem compare_versions_by_identifier :
  forall (st : VersionManager.Store) (a b : nat),
    (VersionManager.get_test_cases st a
     = VersionManager.RaisedValueError
         ("Version " ++ Py.str_int (Z.of_nat a) ++ " not found") ->
     VersionManager.compare_versions st a b
     = VersionManager.RaisedValueError
         ("Version " ++ Py.str_int (Z.of_nat a) ++ " not found"))
    /\ (forall cases_a,
          VersionManager.get_test_cases st a = VersionManager.Found cases_a ->
          VersionManager.get_test_cases st b
          = VersionManager.RaisedValueError
              ("Version " ++ Py.str_int (Z.of_nat b) ++ " not found") ->
          VersionManager.compare_versions st a b
          = VersionManager.RaisedValueError
              ("Version " ++ Py.str_int (Z.of_nat b) ++ " not found"))
    /\ (forall cases_a cases_b,
          VersionManager.get_test_cases st a = VersionManager.Found cases_a ->
          VersionManager.get_test_cases st b = VersionManager.Found cases_b ->
          VersionManager.hashable_identifiers cases_a ->
          VersionManager.distinct_identifiers cases_a ->
          VersionManager.hashable_identifiers cases_b ->
          VersionManager.distinct_identifiers cases_b ->
          VersionManager.compare_versions st a b
          = VersionManager.Found
              {| VersionManager.added :=
                   filter (fun c => negb (VersionManager.has_identifier cases_a c)) cases_b;
                 VersionManager.removed :=
                   filter (fun c => negb (VersionManager.has_identifier cases_b c)) cases_a;
                 VersionManager.unchanged :=
                   filter (VersionManager.has_identifier cases_a) cases_b |}
          /\ VersionManager.compare_versions st b a
             = VersionManager.Found
                 {| VersionManager.added :=
                      filter (fun c => negb (VersionManager.has_identifier cases_b c)) cases_a;
                    VersionManager.removed :=
                      filter (fun c => negb (VersionManager.has_identifier cases_a c)) cases_b;
                    VersionManager.unchanged :=
                      filter (VersionManager.has_identifier cases_b) cases_a |}).
Proof.
  intros st a b. split; [|split].
  - intros Ha. unfold VersionManager.compare_versions. rewrite Ha. reflexivity.
  - intros cases_a Ha Hb. unfold VersionManager.compare_versions.
    rewrite Ha, Hb. reflexivity.
  - intros cases_a cases_b Ha Hb Hha Hda Hhb Hdb.
    unfold VersionManager.compare_versions. rewrite Ha, Hb.
    destruct (VersionMore.compute_diff_distinct cases_a cases_b Hha Hda Hhb Hdb)
      as (ma & mb & Hma & Hmb & Hab).
    destruct (VersionMore.compute_diff_distinct cases_b cases_a Hhb Hdb Hha Hda)
      as (mb' & ma' & Hmb' & Hma' & Hba).
    rewrite Hma, Hmb. rewrite Hma in Hma'. rewrite Hmb in Hmb'.
    inversion Hma'; inversion Hmb'; subst ma' mb'.
    rewrite Hab, Hba. split; reflexivity.
Qed.

Lemma compare_versions_by_identifier_witness :
  let a : VersionManager.case := [("identifier", Json.JStr "TC-1")] in
  let b : VersionManager.case := [("identifier", Json.JStr "TC-2")] in
  let st1 := snd (VersionManager.add_version "sequence" (fun _ _ => None) "t0"
                    VersionManager.empty_store "US-1" [a] "qa") in
  let st2 := snd (VersionManager.add_version "sequence" (fun _ _ => None) "t1"
                    st1 "US-1" [a; b] "qa") in
  VersionManager.compare_versions st2 1 2
  = VersionManager.Found
      {| VersionManager.added := [b]; VersionManager.removed := [];
         VersionManager.unchanged := [a] |}
  /\ VersionManager.compare_versions st2 3 1
     = VersionManager.RaisedValueError "Version 3 not found".
Proof.
  cbv zeta.
  set (st2 := snd (VersionManager.add_version "sequence" (fun _ _ => None) "t1"
                     (snd (VersionManager.add_version "sequence" (fun _ _ => None) "t0"
                             VersionManager.empty_store "US-1"
                             [[("identifier", Json.JStr "TC-1")]] "qa"))
                     "US-1"
                     [[("identifier", Json.JStr "TC-1")];
                      [("identifier", Json.JStr "TC-2")]] "qa")).
  assert (H1 : VersionManager.get_test_cases st2 1
               = VersionManager.Found [[("identifier", Json.JStr "TC-1")]])
    by (vm_compute; reflexivity).
  assert (H2 : VersionManager.get_test_cases st2 2
               = VersionManager.Found [[("identifier", Json.JStr "TC-1")];
                                       [("identifier", Json.JStr "TC-2")]])
    by (vm_compute; reflexivity).
  assert (H3 : VersionManager.get_test_cases st2 3
               = VersionManager.RaisedValueError
                   ("Version " ++ Py.str_int (Z.of_nat 3) ++ " not found"))
    by (vm_compute; reflexivity).
  split.
  - refine (proj1 (proj2 (proj2 (compare_versions_by_identifier st2 1 2))
                     [[("identifier", Json.JStr "TC-1")]]
                     [[("identifier", Json.JStr "TC-1")]; [("identifier", Json.JStr "TC-2")]]
                     H1 H2 _ _ _ _)).
    + repeat constructor; discriminate.
    + unfold VersionManager.distinct_identifiers. simpl.
      repeat constructor; simpl; intuition discriminate.
    + repeat constructor; discriminate.
    + unfold VersionManager.distinct_identifiers. simpl.
      repeat constructor; simpl; intuition discriminate.
  - exact (proj1 (compare_versions_by_identifier st2 3 1) H3).
Defined.


Module UploadFacts.
Import VersionLog.

Local Abbreviation by_version := (fun a b : VersionEntry => (version a <= version b)%Z).

Lemma insert_by_version_perm r l : Permutation (insert_by_version r l) (r :: l).
Proof.
  induction l as [|x rest IH]; simpl; [reflexivity|].
  destruct (version r <? version x)%Z; [reflexivity|].
  rewrite IH. apply perm_swap.
Qed.

Lemma insert_by_version_sorted r l :
  StronglySorted by_version l -> StronglySorted by_version (insert_by_version r l).
Proof.
  intros H. induction H as [|x rest Hs IH Hx]; simpl.
  - constructor; constructor.
  - destruct (version r <? version x)%Z eqn:E.
    + apply Z.ltb_lt in E. constructor; [constructor; assumption|].
      constructor; [lia|]. eapply Forall_impl; [|exact Hx].
      intros a Ha. cbv beta in *. lia.
    + apply Z.ltb_ge in E. constructor; [exact IH|].
      eapply Permutation_Forall; [symmetry; apply insert_by_version_perm|].
      constructor; [exact E|exact Hx].
Qed.

Lemma fold_insert_history l : forall acc,
  StronglySorted by_version acc ->
  Permutation (fold_left (fun acc r => insert_by_version r acc) l acc) (acc ++ l)
  /\ StronglySorted by_version (fold_left (fun acc r => insert_by_version r acc) l acc).
Proof.
  induction l as [|r rest IH]; intros acc Hs; simpl.
  - rewrite app_nil_r. split; [reflexivity|exact Hs].
  - destruct (IH (insert_by_version r acc) (insert_by_version_sorted r acc Hs))
      as [Hp Hs']. split; [|exact Hs'].
    rewrite Hp, insert_by_version_perm. simpl. apply Permutation_middle.
Qed.

(** The order chosen for [get_version_history] is one the query allows. *)
Lemma get_version_history_is_history t story set :
  is_history t story set (get_version_history t story set).
Proof.
  unfold is_history, get_version_history.
  destruct (fold_insert_history (filter (selected story set) t) [])
    as [Hp Hs]; [constructor|].
  split; [exact Hp|]. apply StronglySorted_Sorted. exact Hs.
Qed.

Lemma find_least (p : VersionEntry -> bool) l :
  StronglySorted by_version l ->
  match find p l with
  | Some d => In d l /\ p d = true
              /\ forall e, In e l -> p e = true -> (version d <= version e)%Z
  | None => forall e, In e l -> p e = false
  end.
Proof.
  intros H. induction H as [|x rest Hs IH Hx]; simpl.
  - intros e [].
  - destruct (p x) eqn:Ex.
    + split; [left; reflexivity|]. split; [exact Ex|].
      intros e [<-|He] _; [lia|].
      rewrite Forall_forall in Hx. exact (Hx e He).
    + destruct (find p rest) as [d|].
      * destruct IH as (H1 & H2 & H3). split; [right; exact H1|].
        split; [exact H2|]. intros e [<-|He] Hp; [congruence|].
        exact (H3 e He Hp).
      * intros e [<-|He]; [exact Ex|exact (IH e He)].
Qed.

(** The first record of a history with the file name looked for is a
    selected row of least version among those with that name. *)
Lemma first_duplicate_least t story set history file :
  is_history t story set history ->
  match find (fun record => same_file (file_name record) file) history with
  | Some d =>
      In d t /\ selected story set d = true /\ same_file (file_name d) file = true
      /\ forall e, In e t -> selected story set e = true ->
                   same_file (file_name e) file = true ->
                   (version d <= version e)%Z
  | None =>
      forall e, In e t -> selected story set e = true ->
                same_file (file_name e) file = false
  end.
Proof.
  intros [Hp Hs].
  assert (Hss : StronglySorted by_version history).
  { apply Sorted_StronglySorted; [|exact Hs]. intros a b c; cbv beta; lia. }
  pose proof (find_least (fun record => same_file (file_name record) file) history Hss) as H.
  assert (Hin : forall e, In e history <-> In e t /\ selected story set e = true).
  { intros e. rewrite <- filter_In. split; apply Permutation_in;
      [exact Hp|symmetry; exact Hp]. }
  destruct (find _ history) as [d|].
  - destruct H as (H1 & H2 & H3). apply Hin in H1. destruct H1 as [H1 H1'].
    split; [exact H1|]. split; [exact H1'|]. split; [exact H2|].
    intros e He Hsel Hf. apply H3; [apply Hin; split; assumption|exact Hf].
  - intros e He Hsel. apply H. apply Hin. split; assumption.
Qed.

Lemma fold_max vs : forall v,
  let m := fold_left Z.max vs v in
  (v <= m)%Z /\ Forall (fun x => (x <= m)%Z) vs /\ (m = v \/ In m vs).
Proof.
  induction vs as [|x rest IH]; intros v; cbv zeta; simpl.
  - split; [lia|]. split; [constructor|left; reflexivity].
  - destruct (IH (Z.max v x)) as (H1 & H2 & H3). cbv zeta in *.
    split; [lia|]. split; [constructor; [lia|exact H2]|].
    destruct H3 as [H3|H3]; [|right; right; exact H3].
    destruct (Z.max_spec v x) as [[_ E]|[_ E]]; rewrite E in *.
    + right; left; congruence.
    + left; exact H3.
Qed.

(** [get_next_version] is 1 for a pair without rows, and otherwise one more
    than the largest version recorded for the pair. *)
Lemma get_next_version_spec t story set :
  let n := get_next_version t story set in
  (forall e, In e t -> selected story set e = true -> (version e < n)%Z)
  /\ ((forall e, In e t -> selected story set e = false) /\ n = 1%Z
      \/ exists e, In e t /\ selected story set e = true /\ n = (version e + 1)%Z).
Proof.
  cbv zeta. unfold get_next_version.
  assert (Hin : forall e, In e (filter (selected story set) t)
                          <-> In e t /\ selected story set e = true)
    by (intros e; apply filter_In).
  destruct (filter (selected story set) t) as [|x rest]; simpl.
  - split.
    + intros e He Hs. exfalso. apply (proj2 (Hin e)). split; assumption.
    + left. split; [|reflexivity]. intros e He.
      destruct (selected story set e) eqn:E; [|reflexivity].
      exfalso. apply (proj2 (Hin e)). split; assumption.
  - destruct (fold_max (map version rest) (version x)) as (H1 & H2 & H3).
    cbv zeta in *. split.
    + intros e He Hs. assert (Hi : In e (x :: rest)) by (apply Hin; split; assumption).
      destruct Hi as [<-|Hi]; [lia|].
      rewrite Forall_forall in H2. specialize (H2 (version e) (in_map version _ _ Hi)).
      cbv beta in H2. lia.
    + right. destruct H3 as [H3|H3].
      * exists x. destruct (proj1 (Hin x) (or_introl eq_refl)) as [Ha Hb].
        split; [exact Ha|]. split; [exact Hb|]. rewrite H3. reflexivity.
      * apply in_map_iff in H3. destruct H3 as (e & He & Hi).
        exists e. destruct (proj1 (Hin e) (or_intror Hi)) as [Ha Hb].
        split; [exact Ha|]. split; [exact Hb|]. rewrite He. reflexivity.
Qed.

Lemma same_file_refl f : same_file f f = true.
Proof. destruct f; simpl; [apply String.eqb_refl|reflexivity]. Qed.

Lemma selected_refl story set r :
  user_story r = story -> test_set r = set -> selected story set r = true.
Proof.
  intros <- <-. unfold selected. rewrite !String.eqb_refl. reflexivity.
Qed.

(** What [record_version] does with a history the query may return. *)
Lemma record_version_from_spec :
  forall (history : list VersionEntry) (now : string)
         (t : Table) (story set src : string)
         (file cmt : option string),
    is_history t story set history ->
    let r := record_version_from history now t story set src file cmt in
    let duplicate e :=
      In e t /\ selected story set e = true
      /\ same_file (file_name e) file = true in
    (exists row,
        snd r = (t ++ [row])%list
        /\ version row = fst r
        /\ user_story row = story /\ test_set row = set
        /\ file_name row = file
        /\ ((exists e, duplicate e) ->
            exists text, comments row = Some (text ++ " (duplicate)"))
        /\ ((forall e, ~ duplicate e) -> comments row = cmt))
    /\ ((exists e, duplicate e) ->
        (exists d, duplicate d /\ version d = fst r)
        /\ forall e, duplicate e -> (fst r <= version e)%Z)
    /\ ((forall e, ~ duplicate e) ->
        fst r = get_next_version t story set
        /\ (forall e, In e t -> selected story set e = true ->
                      (version e < fst r)%Z)
        /\ ((forall e, In e t -> selected story set e = false) /\ fst r = 1%Z
            \/ exists e, In e t /\ selected story set e = true
                         /\ fst r = (version e + 1)%Z)).
Proof.
  intros history now t story set src file cmt Hh r duplicate.
  pose proof (first_duplicate_least t story set history file Hh) as Hf.
  subst r. unfold record_version_from.
  destruct (find _ history) as [d|].
  - destruct Hf as (H1 & H2 & H3 & H4). cbn [fst snd].
    assert (Hd : duplicate d) by (split; [exact H1|split; assumption]).
    split; [|split].
    + eexists. split; [reflexivity|]. cbn. repeat split.
      * intros _. eexists. reflexivity.
      * intros Hno. exfalso. exact (Hno d Hd).
    + intros _. split; [exists d; split; [exact Hd|reflexivity]|].
      intros e (He1 & He2 & He3). exact (H4 e He1 He2 He3).
    + intros Hno. exfalso. exact (Hno d Hd).
  - cbn [fst snd].
    assert (Hno : forall e, ~ duplicate e).
    { intros e (He1 & He2 & He3). rewrite (Hf e He1 He2) in He3. discriminate. }
    split; [|split].
    + eexists. split; [reflexivity|]. cbn. repeat split.
      intros [e He]. exfalso. exact (Hno e He).
    + intros [e He]. exfalso. exact (Hno e He).
    + intros _. split; [reflexivity|].
      exact (get_next_version_spec t story set).
Qed.

End UploadFacts.

(** X20.  [record_version] always appends exactly one row for the pair of
    user story and test set, with the version it returns.  When a row of
    the pair already has the file name, the version returned is the least
    version among such rows and the comment ends in (duplicate); when none
    has, the version is larger than every version recorded for the pair
    (1 for a pair without rows, else the largest plus one) and the comment
    is stored as given.  This holds for every order in which the query may
    list rows of the same version. *)
Theorem record_version_reuses_least_duplicate :
  forall (history : list VersionLog.VersionEntry) (now : string)
         (t : VersionLog.Table) (story set src : string)
         (file cmt : option string),
    VersionLog.is_history t story set history ->
    let r := VersionLog.record_version_from history now t story set src file cmt in
    let duplicate e :=
      In e t /\ VersionLog.selected story set e = true
      /\ VersionLog.same_file (VersionLog.file_name e) file = true in
    (exists row,
        snd r = (t ++ [row])%list
        /\ VersionLog.version row = fst r
        /\ VersionLog.user_story row = story /\ VersionLog.test_set row = set
        /\ VersionLog.file_name row = file
        /\ ((exists e, duplicate e) ->
            exists text, VersionLog.comments row = Some (text ++ " (duplicate)"))
        /\ ((forall e, ~ duplicate e) -> VersionLog.comments row = cmt))
    /\ ((exists e, duplicate e) ->
        (exists d, duplicate d /\ VersionLog.version d = fst r)
        /\ forall e, duplicate e -> (fst r <= VersionLog.version e)%Z)
    /\ ((forall e, ~ duplicate e) ->
        fst r = VersionLog.get_next_version t story set
        /\ (forall e, In e t -> VersionLog.selected story set e = true ->
                      (VersionLog.version e < fst r)%Z)
        /\ ((forall e, In e t -> VersionLog.selected story set e = false)
            /\ fst r = 1%Z
            \/ exists e, In e t /\ VersionLog.selected story set e = true
                         /\ fst r = (VersionLog.version e + 1)%Z)).
Proof.
  intros history now t story set src file cmt Hh.
  exact (UploadFacts.record_version_from_spec history now t story set src file cmt Hh).
Qed.

Lemma record_version_reuses_least_duplicate_witness :
  let t := snd (VersionLog.record_version "t1"
                  (snd (VersionLog.record_version "t0" [] "US-1" "smoke" "manual"
                          (Some "a.xlsx") None))
                  "US-1" "smoke" "manual" (Some "b.xlsx") None) in
  let r := VersionLog.record_version_from
             (VersionLog.get_version_history t "US-1" "smoke")
             "t2" t "US-1" "smoke" "manual" (Some "a.xlsx") None in
  VersionLog.is_history t "US-1" "smoke" (VersionLog.get_version_history t "US-1" "smoke")
  /\ (forall e,
        In e t /\ VersionLog.selected "US-1" "smoke" e = true
        /\ VersionLog.same_file (VersionLog.file_name e) (Some "a.xlsx") = true ->
        (fst r <= VersionLog.version e)%Z)
  /\ fst r = 1%Z
  /\ map VersionLog.version (snd r) = [1; 2; 1]%Z.
Proof.
  cbv zeta.
  set (t := snd (VersionLog.record_version "t1"
                   (snd (VersionLog.record_version "t0" [] "US-1" "smoke" "manual"
                           (Some "a.xlsx") None))
                   "US-1" "smoke" "manual" (Some "b.xlsx") None)).
  pose proof (UploadFacts.get_version_history_is_history t "US-1" "smoke") as Hh.
  split; [exact Hh|]. split; [|split; reflexivity].
  refine (proj2 (proj1 (proj2 (record_version_reuses_least_duplicate _ "t2" t "US-1"
                                 "smoke" "manual" (Some "a.xlsx") None Hh)) _)).
  exists {| VersionLog.user_story := "US-1"; VersionLog.test_set := "smoke";
            VersionLog.version := 1; VersionLog.source := "manual";
            VersionLog.file_name := Some "a.xlsx"; VersionLog.comments := None;
            VersionLog.created_at := "t0" |}.
  split; [left; reflexivity|]. split; reflexivity.
Defined.

(** X21.  Uploading the same file name twice in a row for a pair of user
    story and test set gives the same version number both times, and the
    second row is marked as a duplicate.  Two uploads without a file name
    count as the same file name. *)
Theorem repeated_upload_keeps_version :
  forall (now1 now2 : string) (t : VersionLog.Table) (story set src1 src2 : string)
         (file cmt1 cmt2 : option string),
    let first := VersionLog.record_version now1 t story set src1 file cmt1 in
    let second := VersionLog.record_version now2 (snd first) story set src2 file cmt2 in
    fst second = fst first
    /\ exists row text,
         snd second = (snd first ++ [row])%list
         /\ VersionLog.version row = fst first
         /\ VersionLog.comments row = Some (text ++ " (duplicate)").
Proof.
  intros now1 now2 t story set src1 src2 file cmt1 cmt2 first second.
  pose proof (UploadFacts.record_version_from_spec _ now1 t story set src1 file cmt1
                (UploadFacts.get_version_history_is_history t story set)) as H1.
  pose proof (UploadFacts.record_version_from_spec _ now2 (snd first) story set src2
                file cmt2
                (UploadFacts.get_version_history_is_history (snd first) story set)) as H2.
  cbv zeta in H1, H2.
  change (VersionLog.record_version_from (VersionLog.get_version_history t story set)
            now1 t story set src1 file cmt1) with first in H1.
  change (VersionLog.record_version_from
            (VersionLog.get_version_history (snd first) story set)
            now2 (snd first) story set src2 file cmt2) with second in H2.
  destruct H1 as ((row1 & Ht1 & Hv1 & Hs1 & Hset1 & Hf1 & _) & Hdup1 & Hnew1).
  destruct H2 as ((row2 & Ht2 & Hv2 & _ & _ & _ & Hc2 & _) & Hdup2 & _).
  assert (Hrow1 : In row1 (snd first)
                  /\ VersionLog.selected story set row1 = true
                  /\ VersionLog.same_file (VersionLog.file_name row1) file = true).
  { split; [rewrite Ht1; apply in_or_app; right; left; reflexivity|].
    split; [apply UploadFacts.selected_refl; assumption|].
    rewrite Hf1. apply UploadFacts.same_file_refl. }
  destruct (Hdup2 (ex_intro _ row1 Hrow1)) as ((d & (Hd1 & Hd2 & Hd3) & Hdv) & Hleast).
  assert (Heq : fst second = fst first).
  { pose proof (Hleast row1 Hrow1) as Hle. rewrite Hv1 in Hle.
    rewrite Ht1 in Hd1. apply in_app_or in Hd1.
    destruct Hd1 as [Hd1|[<-|[]]]; [|congruence].
    assert (Hdt : In d t /\ VersionLog.selected story set d = true
                  /\ VersionLog.same_file (VersionLog.file_name d) file = true)
      by (split; [exact Hd1|split; assumption]).
    destruct (Hdup1 (ex_intro _ d Hdt)) as (_ & Hl1).
    specialize (Hl1 d Hdt). lia. }
  split; [exact Heq|].
  destruct (Hc2 (ex_intro _ row1 Hrow1)) as (text & Htext).
  exists row2, text. split; [exact Ht2|]. split; [congruence|exact Htext].
Qed.
